(** * Secure_Chat: room identity, room cipher, message store, REST handlers,
      the chat window, the socket relay and the accounts

    A shallow embedding of
      - [src/lib/crypto.ts]             (module [Crypto]),
      - [src/lib/messages.ts]           (module [Messages]),
      - [src/app/api/messages/route.ts] (module [Route]),
      - [src/lib/socket-client.ts]      (module [SocketClient]),
      - [server.js]                     (module [Server]),
      - [src/components/ChatWindow.tsx] (module [ChatWindow]),
      - [src/lib/database.ts]           (module [Database]),
      - [src/lib/users.ts]              (module [Users]),
      - [src/lib/auth.ts]               (module [Auth]),
    with the pieces of the JavaScript platform they call (string comparison,
    [Array.prototype.sort], [slice], [TextEncoder]/[TextDecoder],
    [btoa]/[atob]) in module [Js]. The platform's [crypto.subtle] (PBKDF2,
    AES-GCM), bcrypt, the clock, [uuidv4()], the session lookup and Pusher are
    inputs of the functions that use them; of socket.io the model keeps the
    rooms of each socket and who an [emit] goes to; of the file system, the
    one file of the database. Calls are taken one after the other.

    The model comes first, then the vocabulary of the statements, concrete
    inputs and tactics, then the theorems: strings and room ids, the message
    store, the REST handlers, the message list, the encodings and the room
    cipher, and then what these give together: reading and posting through
    the handlers, the envelope, the way of a text from sender to receiver,
    the relay and the typing indicator, the accounts. *)

From Stdlib Require Import ZArith List String Ascii Bool Lia.
From Stdlib.Strings Require Byte.
From stdpp Require Import gmap list.

Local Open Scope Z_scope.

(** ** JavaScript values the program computes with *)

Module Js.

(** A JavaScript string is a sequence of UTF-16 code units. *)
Abbreviation jsstring := (list Z).

(** An ASCII literal of the source as a JavaScript string. *)
Definition lit (s : string) : jsstring :=
  map (fun a => Z.of_N (N_of_ascii a)) (list_ascii_of_string s).

(** [a < b] on strings (IsLessThan): code unit by code unit, a proper prefix
    is smaller. *)
Fixpoint str_lt (a b : jsstring) : bool :=
  match a, b with
  | _, [] => false
  | [], _ :: _ => true
  | x :: a', y :: b' =>
      if x <? y then true else if y <? x then false else str_lt a' b'
  end.

(** The default comparator of [Array.prototype.sort] (SortCompare) on two
    strings. *)
Definition SortCompare (x y : jsstring) : Z :=
  if str_lt x y then -1 else if str_lt y x then 1 else 0.

(** [Array.prototype.sort()] with the default comparator: a stable sort. *)
Fixpoint sort_insert (x : jsstring) (l : list jsstring) : list jsstring :=
  match l with
  | [] => [x]
  | y :: l' => if 0 <? SortCompare y x then x :: y :: l' else y :: sort_insert x l'
  end.

Definition sort (l : list jsstring) : list jsstring :=
  fold_left (fun acc x => sort_insert x acc) l [].

(** [arr[i]] inside a template literal: a hole prints as ["undefined"]. *)
Definition index (arr : list jsstring) (i : nat) : jsstring :=
  nth i arr (lit "undefined").

(** [Array.prototype.join(sep)]. *)
Fixpoint join (sep : jsstring) (l : list jsstring) : jsstring :=
  match l with
  | [] => []
  | [x] => x
  | x :: l' => x ++ sep ++ join sep l'
  end.

(** Lexicographic order on code-unit sequences, stated on its own. *)
Inductive lex_lt : jsstring -> jsstring -> Prop :=
  | lex_prefix : forall y b, lex_lt [] (y :: b)
  | lex_head : forall x y a b, x < y -> lex_lt (x :: a) (y :: b)
  | lex_tail : forall x a b, lex_lt a b -> lex_lt (x :: a) (x :: b).

Definition lex_le (a b : jsstring) : Prop := a = b \/ lex_lt a b.

(** The smaller and the larger of two strings in lexicographic order. *)
Definition str_min (a b : jsstring) : jsstring := if str_lt b a then b else a.
Definition str_max (a b : jsstring) : jsstring := if str_lt b a then a else b.

(** *** Exceptions *)

(** What a call can throw: the two DOMExceptions of the platform functions
    used by the program, and [new Error(msg)]. *)
Inductive Exn : Type :=
  | InvalidCharacterError
  | OperationError
  | Error (msg : string).

(** The outcome of a call that may throw (for an async function: the promise
    fulfilled or rejected). *)
Inductive Result (A : Type) : Type :=
  | Ok (a : A)
  | Throw (e : Exn).
Arguments Ok {A} a.
Arguments Throw {A} e.

Definition bind {A B} (r : Result A) (k : A -> Result B) : Result B :=
  match r with
  | Ok a => k a
  | Throw e => Throw e
  end.

(** *** Bytes: the elements of a [Uint8Array] *)

Definition byte_to_Z (b : Byte.byte) : Z := Z.of_N (Byte.to_N b).

(** Storing a number into a [Uint8Array] keeps it modulo 256. *)
Definition u8 (z : Z) : Byte.byte :=
  match Byte.of_N (Z.to_N (z mod 256)) with
  | Some b => b
  | None => Byte.x00
  end.

(** *** UTF-16 code units and Unicode scalar values *)

Definition is_high (u : Z) : bool := (0xD800 <=? u) && (u <=? 0xDBFF).
Definition is_low (u : Z) : bool := (0xDC00 <=? u) && (u <=? 0xDFFF).

(** The scalar values of a string: a surrogate pair is one code point, a
    surrogate on its own is replaced by U+FFFD (conversion to a USVString). *)
Fixpoint to_scalars (s : jsstring) : list Z :=
  match s with
  | [] => []
  | u :: rest =>
      if is_high u then
        match rest with
        | l :: rest' =>
            if is_low l
            then (0x10000 + (u - 0xD800) * 0x400 + (l - 0xDC00)) :: to_scalars rest'
            else 0xFFFD :: to_scalars rest
        | [] => [0xFFFD]
        end
      else if is_low u then 0xFFFD :: to_scalars rest
      else u :: to_scalars rest
  end.

(** The code units of a scalar value. *)
Definition units_of_scalar (c : Z) : jsstring :=
  if c <? 0x10000 then [c]
  else [0xD800 + (c - 0x10000) / 0x400; 0xDC00 + (c - 0x10000) mod 0x400].

Definition from_scalars (cs : list Z) : jsstring := flat_map units_of_scalar cs.

(** A string with no surrogate on its own. *)
Fixpoint well_formed (s : jsstring) : bool :=
  match s with
  | [] => true
  | u :: rest =>
      if is_high u then
        match rest with
        | l :: rest' => is_low l && well_formed rest'
        | [] => false
        end
      else negb (is_low u) && (0 <=? u) && (u <=? 0xFFFF) && well_formed rest
  end.

(** *** UTF-8 (Encoding Standard) *)

(** The UTF-8 encoder on one scalar value; [c / 64] is [c >> 6] and
    [c mod 64] is [c & 0x3F]. *)
Definition utf8_bytes (c : Z) : list Z :=
  if c <? 0x80 then [c]
  else if c <? 0x800 then [0xC0 + c / 64; 0x80 + c mod 64]
  else if c <? 0x10000 then
    [0xE0 + c / 4096; 0x80 + (c / 64) mod 64; 0x80 + c mod 64]
  else
    [0xF0 + c / 262144; 0x80 + (c / 4096) mod 64;
     0x80 + (c / 64) mod 64; 0x80 + c mod 64].

(** The state of the UTF-8 decoder. *)
Record utf8_state : Type := {
  code_point : Z;
  bytes_seen : Z;
  bytes_needed : Z;
  lower_boundary : Z;
  upper_boundary : Z
}.

Definition utf8_start : utf8_state :=
  {| code_point := 0; bytes_seen := 0; bytes_needed := 0;
     lower_boundary := 0x80; upper_boundary := 0xBF |}.

(** The decoder on a byte when no continuation byte is awaited: what it emits
    and its next state. *)
Definition utf8_lead (b : Z) : list Z * utf8_state :=
  if (0 <=? b) && (b <=? 0x7F) then ([b], utf8_start)
  else if (0xC2 <=? b) && (b <=? 0xDF) then
    ([], {| code_point := b mod 32; bytes_seen := 0; bytes_needed := 1;
            lower_boundary := 0x80; upper_boundary := 0xBF |})
  else if (0xE0 <=? b) && (b <=? 0xEF) then
    ([], {| code_point := b mod 16; bytes_seen := 0; bytes_needed := 2;
            lower_boundary := if b =? 0xE0 then 0xA0 else 0x80;
            upper_boundary := if b =? 0xED then 0x9F else 0xBF |})
  else if (0xF0 <=? b) && (b <=? 0xF4) then
    ([], {| code_point := b mod 8; bytes_seen := 0; bytes_needed := 3;
            lower_boundary := if b =? 0xF0 then 0x90 else 0x80;
            upper_boundary := if b =? 0xF4 then 0x8F else 0xBF |})
  else ([0xFFFD], utf8_start).

(** One byte through the decoder. A byte outside the awaited range is an
    error (U+FFFD) and is then read again as a first byte. *)
Definition utf8_step (st : utf8_state) (b : Z) : list Z * utf8_state :=
  if bytes_needed st =? 0 then utf8_lead b
  else if negb ((lower_boundary st <=? b) && (b <=? upper_boundary st)) then
    let (out, st') := utf8_lead b in (0xFFFD :: out, st')
  else
    let c := code_point st * 64 + b mod 64 in
    if bytes_seen st + 1 =? bytes_needed st then ([c], utf8_start)
    else ([], {| code_point := c; bytes_seen := bytes_seen st + 1;
                 bytes_needed := bytes_needed st;
                 lower_boundary := 0x80; upper_boundary := 0xBF |}).

(** The decoder over a byte sequence; at the end an unfinished sequence is an
    error. *)
Fixpoint utf8_run (st : utf8_state) (bs : list Z) : list Z :=
  match bs with
  | [] => if bytes_needed st =? 0 then [] else [0xFFFD]
  | b :: bs' => let (out, st') := utf8_step st b in out ++ utf8_run st' bs'
  end.

(** [new TextEncoder().encode(str)]. *)
Definition TextEncoder_encode (str : jsstring) : list Byte.byte :=
  map u8 (flat_map utf8_bytes (to_scalars str)).

(** A leading U+FEFF is dropped by a decoder whose [ignoreBOM] is false. *)
Definition strip_bom (cs : list Z) : list Z :=
  match cs with
  | c :: cs' => if c =? 0xFEFF then cs' else cs
  | [] => []
  end.

(** [new TextDecoder().decode(buffer)]: UTF-8, not fatal, [ignoreBOM] false. *)
Definition TextDecoder_decode (buffer : list Byte.byte) : jsstring :=
  from_scalars (strip_bom (utf8_run utf8_start (map byte_to_Z buffer))).

(** *** Base64 ([btoa], [atob]) *)

Definition b64_char (v : Z) : Z :=
  if v <? 26 then 65 + v
  else if v <? 52 then 97 + (v - 26)
  else if v <? 62 then 48 + (v - 52)
  else if v =? 62 then 43
  else 47.

Definition b64_value (c : Z) : option Z :=
  if (65 <=? c) && (c <=? 90) then Some (c - 65)
  else if (97 <=? c) && (c <=? 122) then Some (c - 97 + 26)
  else if (48 <=? c) && (c <=? 57) then Some (c - 48 + 52)
  else if c =? 43 then Some 62
  else if c =? 47 then Some 63
  else None.

(** The 6-bit groups of a byte sequence, three bytes at a time. *)
Fixpoint sextets (bs : list Z) : list Z :=
  match bs with
  | a :: b :: c :: rest =>
      a / 4 :: (a mod 4) * 16 + b / 16 :: (b mod 16) * 4 + c / 64 :: c mod 64
        :: sextets rest
  | [a; b] => [a / 4; (a mod 4) * 16 + b / 16; (b mod 16) * 4]
  | [a] => [a / 4; (a mod 4) * 16]
  | [] => []
  end.

Definition padding (n : nat) : jsstring :=
  match (n mod 3)%nat with
  | 1%nat => [61; 61]
  | 2%nat => [61]
  | _ => []
  end.

(** [btoa(data)]: throws when a code unit is above U+00FF. *)
Definition btoa (data : jsstring) : Result jsstring :=
  if forallb (fun u => u <=? 0xFF) data
  then Ok (map b64_char (sextets data) ++ padding (length data))
  else Throw InvalidCharacterError.

Definition ascii_whitespace (c : Z) : bool :=
  (c =? 0x09) || (c =? 0x0A) || (c =? 0x0C) || (c =? 0x0D) || (c =? 0x20).

(** One or two ['='] at the end are removed. *)
Definition strip_padding (s : jsstring) : jsstring :=
  match rev s with
  | c1 :: r =>
      if c1 =? 61 then
        match r with
        | c2 :: r' => if c2 =? 61 then rev r' else rev r
        | [] => rev r
        end
      else s
  | [] => s
  end.

Fixpoint b64_values (s : jsstring) : option (list Z) :=
  match s with
  | [] => Some []
  | c :: s' =>
      match b64_value c, b64_values s' with
      | Some v, Some vs => Some (v :: vs)
      | _, _ => None
      end
  end.

(** Bytes out of 6-bit groups, four groups at a time; the bits left over in a
    last group of two or three are dropped. *)
Fixpoint unsextets (vs : list Z) : list Z :=
  match vs with
  | a :: b :: c :: d :: rest =>
      a * 4 + b / 16 :: (b mod 16) * 16 + c / 4 :: (c mod 4) * 64 + d
        :: unsextets rest
  | [a; b; c] => [a * 4 + b / 16; (b mod 16) * 16 + c / 4]
  | [a; b] => [a * 4 + b / 16]
  | _ => []
  end.

(** [atob(data)]: forgiving-base64 decode. *)
Definition atob (data : jsstring) : Result jsstring :=
  let data := List.filter (fun c => negb (ascii_whitespace c)) data in
  let data := if (length data mod 4 =? 0)%nat then strip_padding data else data in
  if (length data mod 4 =? 1)%nat then Throw InvalidCharacterError
  else
    match b64_values data with
    | Some vs => Ok (unsextets vs)
    | None => Throw InvalidCharacterError
    end.

(** *** Arrays *)

(** [arr.slice(start, end)] ([end] omitted: [None]); a negative index counts
    from the end. *)
Definition slice {A} (arr : list A) (start : Z) (end_ : option Z) : list A :=
  let len := Z.of_nat (length arr) in
  let k := if start <? 0 then Z.max (len + start) 0 else Z.min start len in
  let final :=
    match end_ with
    | None => len
    | Some e => if e <? 0 then Z.max (len + e) 0 else Z.min e len
    end in
  firstn (Z.to_nat (final - k)) (skipn (Z.to_nat k) arr).

(** A value used as a condition: [undefined], [null] and [""] are falsy. *)
Definition truthy (v : option jsstring) : bool :=
  match v with
  | Some (_ :: _) => true
  | _ => false
  end.

End Js.

Import Js.

(** ** src/lib/crypto.ts *)

Module Crypto.

Definition getRoomId (userId1 userId2 : jsstring) : jsstring :=
  let sorted := sort [userId1; userId2] in
  lit "room_" ++ index sorted 0 ++ lit "_" ++ index sorted 1.

Definition stringToArrayBuffer (str : jsstring) : list Byte.byte :=
  TextEncoder_encode str.

(** The loop appends [String.fromCharCode(bytes[i])] for each byte. *)
Definition arrayBufferToBase64 (buffer : list Byte.byte) : Result jsstring :=
  let binary := fold_left (fun binary b => binary ++ [byte_to_Z b]) buffer [] in
  btoa binary.

(** The loop stores [binary.charCodeAt(i)] at index [i] of a [Uint8Array] of
    the length of [binary]. *)
Definition base64ToArrayBuffer (base64 : jsstring) : Result (list Byte.byte) :=
  bind (atob base64) (fun binary => Ok (map u8 binary)).

(** An object of the class [CryptoManager]. *)
Record CryptoManager : Type := { userId : jsstring }.

Section SubtleCrypto.

(** The platform's [crypto.subtle]: keys, PBKDF2 with SHA-256 deriving an
    AES-GCM key of 256 bits from a password, a salt and an iteration count,
    and AES-GCM with a key, an IV and the data. Decryption answers [None]
    when it rejects (the promise is rejected with an OperationError). *)
Variable CryptoKey : Type.
Variable pbkdf2_sha256 : list Byte.byte -> list Byte.byte -> Z -> CryptoKey.
Variable aes_gcm_encrypt : CryptoKey -> list Byte.byte -> list Byte.byte -> list Byte.byte.
Variable aes_gcm_decrypt : CryptoKey -> list Byte.byte -> list Byte.byte -> option (list Byte.byte).

Definition deriveKeyFromRoom (roomId : jsstring) : CryptoKey :=
  let keyData := stringToArrayBuffer roomId in
  let salt := stringToArrayBuffer (lit "secure-chat-salt-v1") in
  pbkdf2_sha256 keyData salt 100000.

(** [iv] is the value of [crypto.getRandomValues(new Uint8Array(12))]. *)
Definition encryptForRoom (iv : list Byte.byte)
    (message myUserId otherUserId : jsstring) : Result jsstring :=
  let roomId := getRoomId myUserId otherUserId in
  let key := deriveKeyFromRoom roomId in
  let messageBuffer := stringToArrayBuffer message in
  let encrypted := aes_gcm_encrypt key iv messageBuffer in
  let combined := iv ++ encrypted in
  arrayBufferToBase64 combined.

Definition decryptFromRoom (encryptedData myUserId otherUserId : jsstring)
    : Result jsstring :=
  let roomId := getRoomId myUserId otherUserId in
  let key := deriveKeyFromRoom roomId in
  bind (base64ToArrayBuffer encryptedData) (fun combined =>
  let iv := slice combined 0 (Some 12) in
  let encrypted := slice combined 12 None in
  match aes_gcm_decrypt key iv encrypted with
  | Some decrypted => Ok (TextDecoder_decode decrypted)
  | None => Throw OperationError
  end).

(** The class [CryptoManager]: [this] is the object, which holds the id of
    its user. *)
Definition encryptFor (this : CryptoManager) (iv : list Byte.byte)
    (message recipientId : jsstring) : Result jsstring :=
  encryptForRoom iv message (userId this) recipientId.

Definition decryptFrom (this : CryptoManager) (encryptedMessage senderId : jsstring)
    : Result jsstring :=
  decryptFromRoom encryptedMessage (userId this) senderId.

End SubtleCrypto.

(** The module's [cryptoManagerInstance], passed along: [initializeCrypto]
    replaces it and returns the new manager, [getCryptoManager] reads it. *)
Definition initializeCrypto (userId : jsstring)
    (cryptoManagerInstance : option CryptoManager)
    : CryptoManager * option CryptoManager :=
  let cryptoManagerInstance := Some {| userId := userId |} in
  ({| userId := userId |}, cryptoManagerInstance).

Definition getCryptoManager (cryptoManagerInstance : option CryptoManager)
    : option CryptoManager := cryptoManagerInstance.

End Crypto.

(** ** src/lib/messages.ts: the in-memory message store *)

Module Messages.

Record Message : Type := {
  id : jsstring;
  senderId : jsstring;
  senderName : jsstring;
  receiverId : jsstring;
  encryptedContent : jsstring;
  timestamp : Z;
  isRead : bool
}.

(** [room_id] is the field [id] of the source's [ChatRoom]. *)
Record ChatRoom : Type := {
  room_id : jsstring;
  participants : list jsstring;
  messages : list Message;
  createdAt : Z
}.

(** The module's [chatRooms: Map<string, ChatRoom>]. *)
Abbreviation Store := (gmap (list Z) ChatRoom).

Definition getRoomId (userId1 userId2 : jsstring) : jsstring :=
  let sorted := sort [userId1; userId2] in
  lit "room_" ++ index sorted 0 ++ lit "_" ++ index sorted 1.

(** [now] is the value of [new Date()]. The room returned is the one the map
    holds under [roomId] after the conditional [set]. *)
Definition getOrCreateRoom (now : Z) (userId1 userId2 : jsstring)
    (chatRooms : Store) : ChatRoom * Store :=
  let roomId := getRoomId userId1 userId2 in
  match chatRooms !! roomId with
  | None =>
      let room := {| room_id := roomId; participants := [userId1; userId2];
                     messages := []; createdAt := now |} in
      (room, <[roomId := room]> chatRooms)
  | Some room => (room, chatRooms)
  end.

(** [uuid] is the value of [uuidv4()], [now] of [new Date()]. A throw leaves
    the store as it was. *)
Definition addMessage (uuid : jsstring) (now : Z)
    (roomId senderId senderName receiverId encryptedContent : jsstring)
    (chatRooms : Store) : Result (Message * Store) :=
  match chatRooms !! roomId with
  | None => Throw (Error "Chat room not found")
  | Some room =>
      let message := {| id := uuid; senderId := senderId;
                        senderName := senderName; receiverId := receiverId;
                        encryptedContent := encryptedContent;
                        timestamp := now; isRead := false |} in
      let room := {| room_id := room_id room; participants := participants room;
                     messages := messages room ++ [message];
                     createdAt := createdAt room |} in
      Ok (message, <[roomId := room]> chatRooms)
  end.

(** [limit] is [None] when the argument is left out (default 50). *)
Definition getMessages (roomId : jsstring) (limit : option Z)
    (chatRooms : Store) : list Message :=
  let limit := match limit with Some n => n | None => 50 end in
  match chatRooms !! roomId with
  | None => []
  | Some room => slice (messages room) (- limit) None
  end.

Definition mark_read (userId : jsstring) (msg : Message) : Message :=
  if bool_decide (receiverId msg = userId) && negb (isRead msg)
  then {| id := id msg; senderId := senderId msg; senderName := senderName msg;
          receiverId := receiverId msg; encryptedContent := encryptedContent msg;
          timestamp := timestamp msg; isRead := true |}
  else msg.

Definition markMessagesAsRead (roomId userId : jsstring) (chatRooms : Store)
    : Store :=
  match chatRooms !! roomId with
  | Some room =>
      <[roomId := {| room_id := room_id room; participants := participants room;
                     messages := map (mark_read userId) (messages room);
                     createdAt := createdAt room |}]> chatRooms
  | None => chatRooms
  end.

Definition getUnreadCount (roomId userId : jsstring) (chatRooms : Store) : nat :=
  match chatRooms !! roomId with
  | None => 0%nat
  | Some room =>
      length (List.filter
                (fun msg => bool_decide (receiverId msg = userId) && negb (isRead msg))
                (messages room))
  end.

End Messages.

(** ** src/app/api/messages/route.ts: the REST handlers *)

Module Route.

Record User : Type := {
  id : option jsstring;
  name : jsstring
}.

Record Session : Type := {
  user : option User
}.

(** [session?.user?.id]. *)
Definition session_user_id (session : option Session) : option jsstring :=
  match session with
  | Some s => match user s with Some u => id u | None => None end
  | None => None
  end.

Definition session_user_name (session : option Session) : jsstring :=
  match session with
  | Some s => match user s with Some u => name u | None => [] end
  | None => []
  end.

(** The parsed body of a POST. *)
Record Body : Type := {
  receiverId : option jsstring;
  encryptedContent : option jsstring
}.

(** A request: the [otherUserId] search parameter of its URL and the outcome
    of [request.json()]. *)
Record Request : Type := {
  searchParams_otherUserId : option jsstring;
  json : Result Body
}.

Inductive Json : Type :=
  | JError (error : string)
  | JMessages (messages : list Messages.Message) (roomId : jsstring)
  | JMessage (message : Messages.Message).

(** [NextResponse.json(body, { status })]. *)
Record Response : Type := {
  body : Json;
  status : Z
}.

(** What a handler does outside itself, in order: calls into the message
    store and Pusher triggers. *)
Inductive Call : Type :=
  | CallGetMessages (roomId : jsstring)
  | CallGetOrCreateRoom (userId1 userId2 : jsstring)
  | CallAddMessage (roomId senderId receiverId : jsstring)
  | CallPusherTrigger (channel event : jsstring).

Record World : Type := {
  chatRooms : Messages.Store;
  calls : list Call
}.

(** What the surroundings answer during one request: the session lookup, the
    clock, the uuid generator and the two Pusher triggers. *)
Record Env : Type := {
  getServerSession : Result (option Session);
  now_room : Z;
  uuidv4 : jsstring;
  now_message : Z;
  trigger_room : Result unit;
  trigger_user : Result unit
}.

(** Handlers run in a state-and-exception monad over the world. *)
Definition M (A : Type) : Type := World -> Result A * World.

Definition ret {A} (a : A) : M A := fun w => (Ok a, w).

Definition mbind {A B} (m : M A) (k : A -> M B) : M B :=
  fun w =>
    match m w with
    | (Ok a, w') => k a w'
    | (Throw e, w') => (Throw e, w')
    end.

Definition lift {A} (r : Result A) : M A := fun w => (r, w).

Definition try_catch {A} (m : M A) (handler : Exn -> M A) : M A :=
  fun w =>
    match m w with
    | (Ok a, w') => (Ok a, w')
    | (Throw e, w') => handler e w'
    end.

Definition record_call (c : Call) : M unit :=
  fun w => (Ok tt, {| chatRooms := chatRooms w; calls := calls w ++ [c] |}).

Local Notation "'do' x <- m ; k" := (mbind m (fun x => k))
  (at level 10, x name, m at level 100, k at level 200).
Local Notation "'exec' m ; k" := (mbind m (fun _ => k))
  (at level 10, m at level 100, k at level 200).

(** The calls of the handlers into the message store and to Pusher, each
    recorded before it is made. *)
Definition call_getMessages (roomId : jsstring) : M (list Messages.Message) :=
  exec record_call (CallGetMessages roomId);
  fun w => (Ok (Messages.getMessages roomId None (chatRooms w)), w).

Definition call_getOrCreateRoom (now : Z) (userId1 userId2 : jsstring)
    : M Messages.ChatRoom :=
  exec record_call (CallGetOrCreateRoom userId1 userId2);
  fun w =>
    let (room, rooms) := Messages.getOrCreateRoom now userId1 userId2 (chatRooms w) in
    (Ok room, {| chatRooms := rooms; calls := calls w |}).

Definition call_addMessage (uuid : jsstring) (now : Z)
    (roomId senderId senderName receiverId encryptedContent : jsstring)
    : M Messages.Message :=
  exec record_call (CallAddMessage roomId senderId receiverId);
  fun w =>
    match Messages.addMessage uuid now roomId senderId senderName receiverId
            encryptedContent (chatRooms w) with
    | Ok (message, rooms) => (Ok message, {| chatRooms := rooms; calls := calls w |})
    | Throw e => (Throw e, w)
    end.

Definition call_pusher_trigger (channel event : jsstring) (outcome : Result unit)
    : M unit :=
  exec record_call (CallPusherTrigger channel event); lift outcome.

Definition GET (env : Env) (request : Request) : M Response :=
  try_catch
    (do session <- lift (getServerSession env);
     if negb (truthy (session_user_id session)) then
       ret {| body := JError "Unauthorized"; status := 401 |}
     else
       let otherUserId := searchParams_otherUserId request in
       if negb (truthy otherUserId) then
         ret {| body := JError "Other user ID is required"; status := 400 |}
       else
         let roomId := Messages.getRoomId (default [] (session_user_id session))
                                          (default [] otherUserId) in
         do messages <- call_getMessages roomId;
         ret {| body := JMessages messages roomId; status := 200 |})
    (fun error => ret {| body := JError "Failed to fetch messages"; status := 500 |}).

Definition POST (env : Env) (request : Request) : M Response :=
  try_catch
    (do session <- lift (getServerSession env);
     if negb (truthy (session_user_id session)) then
       ret {| body := JError "Unauthorized"; status := 401 |}
     else
       do b <- lift (json request);
       if negb (truthy (receiverId b)) || negb (truthy (encryptedContent b)) then
         ret {| body := JError "Receiver ID and encrypted content are required";
                status := 400 |}
       else
         let userId := default [] (session_user_id session) in
         let receiver := default [] (receiverId b) in
         do room <- call_getOrCreateRoom (now_room env) userId receiver;
         do message <- call_addMessage (uuidv4 env) (now_message env)
                      (Messages.room_id room) userId (session_user_name session)
                      receiver (default [] (encryptedContent b));
         exec call_pusher_trigger (lit "chat-" ++ Messages.room_id room)
                                 (lit "new-message") (trigger_room env);
         exec call_pusher_trigger (lit "user-" ++ receiver)
                                 (lit "message-received") (trigger_user env);
         ret {| body := JMessage message; status := 200 |})
    (fun error => ret {| body := JError "Failed to send message"; status := 500 |}).

End Route.

(** ** src/lib/socket-client.ts: what the client emits on its socket *)

Module SocketClient.

(** The events a client emits, with their data. The message of
    ['send-message'] is of any type: neither the helpers nor the server look
    into it. ['join'] is emitted by [connectSocket]. *)
Inductive Emit {Payload : Type} : Type :=
  | Join (userId : jsstring)
  | JoinRoom (roomId : jsstring)
  | LeaveRoom (roomId : jsstring)
  | SendMessage (roomId : jsstring) (message : Payload)
  | Typing (roomId userId userName : jsstring)
  | StopTyping (roomId userId : jsstring).
Arguments Emit : clear implicits.

(** The helpers: [connected] is [s.connected] of the module's socket when
    the helper runs; each returns what it emits. *)
Definition joinRoom {Payload : Type} (connected : bool) (roomId : jsstring)
    : list (Emit Payload) :=
  if connected then [JoinRoom roomId] else [].

Definition leaveRoom {Payload : Type} (connected : bool) (roomId : jsstring)
    : list (Emit Payload) :=
  if connected then [LeaveRoom roomId] else [].

Definition sendMessage {Payload : Type} (connected : bool) (roomId : jsstring)
    (message : Payload) : list (Emit Payload) :=
  if connected then [SendMessage roomId message] else [].

Definition emitTyping {Payload : Type} (connected : bool)
    (roomId userId userName : jsstring) : list (Emit Payload) :=
  if connected then [Typing roomId userId userName] else [].

Definition emitStopTyping {Payload : Type} (connected : bool)
    (roomId userId : jsstring) : list (Emit Payload) :=
  if connected then [StopTyping roomId userId] else [].

End SocketClient.

(** ** src/server.js: the socket.io relay *)

Module Server.

Import SocketClient.

(** A connected socket: [socket.userId] ([undefined] until ['join']) and
    the rooms it is in. *)
Record Socket : Type := {
  userId : option jsstring;
  rooms : gset jsstring
}.

(** The sockets of [io], by [socket.id], and the [onlineUsers] map. *)
Record State : Type := {
  sockets : gmap jsstring Socket;
  onlineUsers : gmap jsstring jsstring
}.

(** The events the server emits. *)
Inductive Emitted {Payload : Type} : Type :=
  | UserOnline (userId : jsstring) (online : bool)
  | NewMessage (message : Payload)
  | UserTyping (userId userName : jsstring)
  | UserStopTyping (userId : jsstring).
Arguments Emitted : clear implicits.

(** One [emit] of the server: the event and the sockets it goes to. *)
Record Packet {Payload : Type} : Type := {
  to : gset jsstring;
  event : Emitted Payload
}.
Arguments Packet : clear implicits.

(** The sockets [io.emit] reaches, and the sockets of a room. *)
Definition everyone (st : State) : gset jsstring := dom (sockets st).

Definition in_room (roomId : jsstring) (st : State) : gset jsstring :=
  dom (filter (fun kv => roomId ∈ rooms (snd kv)) (sockets st)).

(** [io.on('connection')]: socket.io puts a new socket in the room of its
    own id. *)
Definition connection (id : jsstring) (st : State) : State :=
  {| sockets := <[id := {| userId := None; rooms := {[id]} |}]> (sockets st);
     onlineUsers := onlineUsers st |}.

Definition update_socket (id : jsstring) (socket : Socket) (st : State) : State :=
  {| sockets := <[id := socket]> (sockets st); onlineUsers := onlineUsers st |}.

(** The listeners of a socket; [id] is [socket.id]. *)
Definition on_join {Payload : Type} (id : jsstring) (socket : Socket)
    (userId' : jsstring) (st : State) : State * list (Packet Payload) :=
  ({| sockets := <[id := {| userId := Some userId'; rooms := rooms socket |}]> (sockets st);
      onlineUsers := <[userId' := id]> (onlineUsers st) |},
   [{| to := everyone st; event := UserOnline userId' true |}]).

Definition on_join_room {Payload : Type} (id : jsstring) (socket : Socket)
    (roomId : jsstring) (st : State) : State * list (Packet Payload) :=
  (update_socket id {| userId := userId socket; rooms := rooms socket ∪ {[roomId]} |} st,
   []).

Definition on_leave_room {Payload : Type} (id : jsstring) (socket : Socket)
    (roomId : jsstring) (st : State) : State * list (Packet Payload) :=
  (update_socket id {| userId := userId socket; rooms := rooms socket ∖ {[roomId]} |} st,
   []).

Definition on_send_message {Payload : Type} (roomId : jsstring) (message : Payload)
    (st : State) : State * list (Packet Payload) :=
  (st, [{| to := in_room roomId st; event := NewMessage message |}]).

Definition on_typing {Payload : Type} (id roomId userId' userName : jsstring)
    (st : State) : State * list (Packet Payload) :=
  (st, [{| to := in_room roomId st ∖ {[id]}; event := UserTyping userId' userName |}]).

Definition on_stop_typing {Payload : Type} (id roomId userId' : jsstring)
    (st : State) : State * list (Packet Payload) :=
  (st, [{| to := in_room roomId st ∖ {[id]}; event := UserStopTyping userId' |}]).

(** ['disconnect']: socket.io has taken the socket out of its rooms and of
    [io] when the listener runs. *)
Definition on_disconnect {Payload : Type} (id : jsstring) (socket : Socket)
    (st : State) : State * list (Packet Payload) :=
  let left := delete id (sockets st) in
  if truthy (userId socket) then
    let st' := {| sockets := left;
                  onlineUsers := delete (default [] (userId socket)) (onlineUsers st) |} in
    (st', [{| to := everyone st';
              event := UserOnline (default [] (userId socket)) false |}])
  else ({| sockets := left; onlineUsers := onlineUsers st |}, []).

(** What reaches the server. An event of a socket that is not connected has
    no listener. *)
Inductive Input {Payload : Type} : Type :=
  | Connection (id : jsstring)
  | Receive (id : jsstring) (ev : Emit Payload)
  | Disconnect (id : jsstring).
Arguments Input : clear implicits.

Definition receive {Payload : Type} (id : jsstring) (ev : Emit Payload) (st : State)
    : State * list (Packet Payload) :=
  match sockets st !! id with
  | None => (st, [])
  | Some socket =>
      match ev with
      | Join userId' => on_join id socket userId' st
      | JoinRoom roomId => on_join_room id socket roomId st
      | LeaveRoom roomId => on_leave_room id socket roomId st
      | SendMessage roomId message => on_send_message roomId message st
      | Typing roomId userId' userName => on_typing id roomId userId' userName st
      | StopTyping roomId userId' => on_stop_typing id roomId userId' st
      end
  end.

Definition step {Payload : Type} (st : State) (input : Input Payload)
    : State * list (Packet Payload) :=
  match input with
  | Connection id => (connection id st, [])
  | Receive id ev => receive id ev st
  | Disconnect id =>
      match sockets st !! id with
      | None => (st, [])
      | Some socket => on_disconnect id socket st
      end
  end.

(** A run of the server: the state it ends in and all it emitted, in
    order. *)
Fixpoint run {Payload : Type} (st : State) (inputs : list (Input Payload))
    : State * list (Packet Payload) :=
  match inputs with
  | [] => (st, [])
  | input :: inputs' =>
      let (st', packets) := step st input in
      let (st'', packets') := run st' inputs' in
      (st'', packets ++ packets')
  end.

Definition start : State := {| sockets := ∅; onlineUsers := ∅ |}.

End Server.

(** ** src/components/ChatWindow.tsx: the client's message list *)

Module ChatWindow.

Record Message : Type := {
  id : jsstring;
  senderId : jsstring;
  senderName : jsstring;
  receiverId : jsstring;
  encryptedContent : jsstring;
  decryptedContent : option jsstring;
  timestamp : Z;
  isRead : bool;
  decryptionFailed : option bool
}.

(** The message of a REST reply as the client reads it. *)
Definition of_store (m : Messages.Message) : Message :=
  {| id := Messages.id m; senderId := Messages.senderId m;
     senderName := Messages.senderName m; receiverId := Messages.receiverId m;
     encryptedContent := Messages.encryptedContent m; decryptedContent := None;
     timestamp := Messages.timestamp m; isRead := Messages.isRead m;
     decryptionFailed := None |}.

(** The code units [String.prototype.trim] removes. *)
Definition is_trimmed (c : Z) : bool :=
  ((0x09 <=? c) && (c <=? 0x0D)) || (c =? 0x20) || (c =? 0xA0) || (c =? 0x1680)
  || ((0x2000 <=? c) && (c <=? 0x200A)) || (c =? 0x2028) || (c =? 0x2029)
  || (c =? 0x202F) || (c =? 0x205F) || (c =? 0x3000) || (c =? 0xFEFF).

Section Component.

(** The props of the component and the room cipher it imports. *)
Variable currentUser_id selectedUser_id : jsstring.
Variable decryptFromRoom : jsstring -> jsstring -> jsstring -> Result jsstring.

Definition getRoomId : jsstring :=
  join (lit "_") (sort [currentUser_id; selectedUser_id]).

Definition decryptMessage (msg : Message) : Message :=
  if truthy (decryptedContent msg) then msg
  else
    let otherUserId :=
      if bool_decide (senderId msg = currentUser_id)
      then receiverId msg else senderId msg in
    match decryptFromRoom (encryptedContent msg) currentUser_id otherUserId with
    | Ok content =>
        {| id := id msg; senderId := senderId msg; senderName := senderName msg;
           receiverId := receiverId msg; encryptedContent := encryptedContent msg;
           decryptedContent := Some content; timestamp := timestamp msg;
           isRead := isRead msg; decryptionFailed := decryptionFailed msg |}
    | Throw _ =>
        {| id := id msg; senderId := senderId msg; senderName := senderName msg;
           receiverId := receiverId msg; encryptedContent := encryptedContent msg;
           decryptedContent := decryptedContent msg; timestamp := timestamp msg;
           isRead := isRead msg; decryptionFailed := Some true |}
    end.

(** The [messages] state of the component, and the promises of
    [decryptMessage] whose [then] has not run yet, each with the message it
    resolves to. *)
Record State : Type := {
  messages : list Message;
  decrypting : list Message
}.

Definition some_id (l : list Message) (i : jsstring) : bool :=
  existsb (fun m => bool_decide (id m = i)) l.

(** The handler of the ['new-message'] event: the outer updater leaves the
    list as it is and, when the id is new, starts the decryption. *)
Definition handleNewMessage (message : Message) (st : State) : State :=
  let prev := messages st in
  let exists_ := some_id prev (id message) in
  if exists_ then st
  else {| messages := prev; decrypting := decrypting st ++ [decryptMessage message] |}.

(** The [then] of the [k]-th decryption still under way: the inner updater. *)
Definition then_decrypted (k : nat) (st : State) : State :=
  match decrypting st !! k with
  | Some decrypted =>
      let current := messages st in
      let stillExists := some_id current (id decrypted) in
      {| messages := if stillExists then current else current ++ [decrypted];
         decrypting := delete k (decrypting st) |}
  | None => st
  end.

(** [sendMessage]: [reply] is the outcome of the [try] block up to
    [response.json()] (encryption, the POST, [response.ok]), with the message
    of the reply. *)
Definition sendMessage (newMessage : jsstring) (reply : Result Messages.Message)
    (st : State) : State :=
  if forallb is_trimmed newMessage then st
  else
    match reply with
    | Ok data_message =>
        let m := of_store data_message in
        let messageWithContent :=
          {| id := id m; senderId := senderId m; senderName := senderName m;
             receiverId := receiverId m; encryptedContent := encryptedContent m;
             decryptedContent := Some newMessage; timestamp := timestamp m;
             isRead := isRead m; decryptionFailed := decryptionFailed m |} in
        {| messages := messages st ++ [messageWithContent];
           decrypting := decrypting st |}
    | Throw _ => st
    end.

(** What happens to the component, one after the other. *)
Inductive Event : Type :=
  | NewMessage (message : Message)
  | Decrypted (k : nat)
  | Send (newMessage : jsstring) (reply : Result Messages.Message).

Definition step (st : State) (ev : Event) : State :=
  match ev with
  | NewMessage message => handleNewMessage message st
  | Decrypted k => then_decrypted k st
  | Send newMessage reply => sendMessage newMessage reply st
  end.

Definition run (st : State) (evs : list Event) : State := fold_left step evs st.

End Component.

Definition ids (l : list Message) : list jsstring := map id l.

(** The id a [Send] event adds to the list, if it adds one. *)
Definition sent_id (newMessage : jsstring) (reply : Result Messages.Message)
    : option jsstring :=
  if forallb is_trimmed newMessage then None
  else match reply with Ok m => Some (Messages.id m) | Throw _ => None end.

(** Every message a [Send] adds carries an id that is not in [seen] (the ids
    the component has met so far) when it is added. *)
Fixpoint sends_are_first (seen : list jsstring) (evs : list Event) : Prop :=
  match evs with
  | [] => True
  | NewMessage message :: evs' => sends_are_first (id message :: seen) evs'
  | Decrypted _ :: evs' => sends_are_first seen evs'
  | Send newMessage reply :: evs' =>
      match sent_id newMessage reply with
      | Some i => ~ In i seen /\ sends_are_first (i :: seen) evs'
      | None => sends_are_first seen evs'
      end
  end.


(** *** Loading the conversation *)

Section Fetch.

Variable currentUser_id : jsstring.
Variable decryptFromRoom : jsstring -> jsstring -> jsstring -> Result jsstring.

Definition decryptMessages (msgs : list Message) : list Message :=
  map (decryptMessage currentUser_id decryptFromRoom) msgs.

(** [fetchMessages]: [reply] is the outcome of the [fetch] and of
    [response.json()]; only a body with [messages] changes the list. *)
Definition fetchMessages (reply : Result Route.Json) (st : State) : State :=
  match reply with
  | Ok (Route.JMessages data_messages _) =>
      {| messages := decryptMessages (map of_store data_messages);
         decrypting := decrypting st |}
  | _ => st
  end.

End Fetch.

(** *** The socket side of the component *)

Section Realtime.

Variable currentUser_id currentUser_name selectedUser_id : jsstring.

(** The effect that joins the socket room of the conversation, and its
    cleanup. *)
Definition effect_joins (connected : bool) : list (SocketClient.Emit Message) :=
  SocketClient.joinRoom connected (getRoomId currentUser_id selectedUser_id).

Definition cleanup_leaves (connected : bool) : list (SocketClient.Emit Message) :=
  SocketClient.leaveRoom connected (getRoomId currentUser_id selectedUser_id).

(** The message [sendMessage] adds to the list and hands to the socket. *)
Definition messageWithContent (newMessage : jsstring)
    (data_message : Messages.Message) : Message :=
  let m := of_store data_message in
  {| id := id m; senderId := senderId m; senderName := senderName m;
     receiverId := receiverId m; encryptedContent := encryptedContent m;
     decryptedContent := Some newMessage; timestamp := timestamp m;
     isRead := isRead m; decryptionFailed := decryptionFailed m |}.

(** What [sendMessage] emits on the socket: [connected] when it starts,
    [connected'] after the reply of the POST. *)
Definition sendMessage_emits (connected connected' : bool) (newMessage : jsstring)
    (reply : Result Messages.Message) : list (SocketClient.Emit Message) :=
  if forallb is_trimmed newMessage then []
  else
    SocketClient.emitStopTyping connected
      (getRoomId currentUser_id selectedUser_id) currentUser_id
    ++ match reply with
       | Ok data_message =>
           SocketClient.sendMessage connected'
             (getRoomId currentUser_id selectedUser_id)
             (messageWithContent newMessage data_message)
       | Throw _ => []
       end.

(** The typing indicator: [isTyping], the timeout of [typingTimeoutRef] that
    has neither run nor been cleared, with the room and the user id of its
    closure, and [typingUser]. *)
Record Indicator : Type := {
  isTyping : bool;
  typingTimeout : option (jsstring * jsstring);
  typingUser : option jsstring
}.

Definition handleTyping (connected : bool) (st : Indicator)
    : Indicator * list (SocketClient.Emit Message) :=
  let roomId := getRoomId currentUser_id selectedUser_id in
  ({| isTyping := true; typingTimeout := Some (roomId, currentUser_id);
      typingUser := typingUser st |},
   if negb (isTyping st)
   then SocketClient.emitTyping connected roomId currentUser_id currentUser_name
   else []).

(** The timeout runs. *)
Definition typing_timeout (connected : bool) (st : Indicator)
    : Indicator * list (SocketClient.Emit Message) :=
  match typingTimeout st with
  | Some (roomId, userId) =>
      ({| isTyping := false; typingTimeout := None; typingUser := typingUser st |},
       SocketClient.emitStopTyping connected roomId userId)
  | None => (st, [])
  end.

(** What [sendMessage] does to the indicator. *)
Definition sendMessage_indicator (newMessage : jsstring) (st : Indicator) : Indicator :=
  if forallb is_trimmed newMessage then st
  else {| isTyping := false; typingTimeout := None; typingUser := typingUser st |}.

Definition handleUserTyping (userId userName : jsstring) (st : Indicator) : Indicator :=
  if bool_decide (userId = selectedUser_id)
  then {| isTyping := isTyping st; typingTimeout := typingTimeout st;
          typingUser := Some userName |}
  else st.

Definition handleUserStopTyping (userId : jsstring) (st : Indicator) : Indicator :=
  if bool_decide (userId = selectedUser_id)
  then {| isTyping := isTyping st; typingTimeout := typingTimeout st;
          typingUser := None |}
  else st.

(** What happens to the indicator, one after the other: a key in the input,
    the timeout, a submit of the form (with the reply of the POST), an event
    of the server. Each handler runs on the state the one before left: the
    component has rendered in between. *)
Inductive Action : Type :=
  | Key (connected : bool)
  | Timeout (connected : bool)
  | Submit (connected connected' : bool) (newMessage : jsstring)
           (reply : Result Messages.Message)
  | Heard (ev : Server.Emitted Message).

Definition act (st : Indicator) (a : Action)
    : Indicator * list (SocketClient.Emit Message) :=
  match a with
  | Key connected => handleTyping connected st
  | Timeout connected => typing_timeout connected st
  | Submit connected connected' newMessage reply =>
      (sendMessage_indicator newMessage st,
       sendMessage_emits connected connected' newMessage reply)
  | Heard (Server.UserTyping userId userName) => (handleUserTyping userId userName st, [])
  | Heard (Server.UserStopTyping userId) => (handleUserStopTyping userId st, [])
  | Heard _ => (st, [])
  end.

Fixpoint acts (st : Indicator) (l : list Action)
    : Indicator * list (SocketClient.Emit Message) :=
  match l with
  | [] => (st, [])
  | a :: l' =>
      let (st', emits) := act st a in
      let (st'', emits') := acts st' l' in
      (st'', emits ++ emits')
  end.

End Realtime.

Definition quiet : Indicator :=
  {| isTyping := false; typingTimeout := None; typingUser := None |}.

End ChatWindow.

(** ** src/lib/database.ts: the users in a JSON file *)

Module Database.

Record UserRecord : Type := {
  id : jsstring;
  email : jsstring;
  name : jsstring;
  password : jsstring;
  publicKey : option jsstring;
  createdAt : jsstring
}.

Record DatabaseSchema : Type := {
  users : list UserRecord
}.

(** The file [data/database.json]: not there, there with a text that
    [JSON.parse] rejects, or there with the JSON of a database, as
    [saveDatabase] writes it. *)
Inductive Disk : Type :=
  | Absent
  | Unparsable
  | Stored (data : DatabaseSchema).

Definition initDatabase (disk : Disk) : DatabaseSchema * Disk :=
  match disk with
  | Stored data => (data, disk)
  | Unparsable => ({| users := [] |}, disk)
  | Absent =>
      let initialData := {| users := [] |} in
      (initialData, Stored initialData)
  end.

Definition saveDatabase (data : DatabaseSchema) (disk : Disk) : Disk := Stored data.

Definition getDatabase (disk : Disk) : DatabaseSchema * Disk := initDatabase disk.

Definition getUsers (disk : Disk) : list UserRecord * Disk :=
  let (db, disk') := getDatabase disk in (users db, disk').

Definition findUserByEmail (email' : jsstring) (disk : Disk)
    : option UserRecord * Disk :=
  let (db, disk') := getDatabase disk in
  (List.find (fun u => bool_decide (email u = email')) (users db), disk').

Definition findUserById (id' : jsstring) (disk : Disk) : option UserRecord * Disk :=
  let (db, disk') := getDatabase disk in
  (List.find (fun u => bool_decide (id u = id')) (users db), disk').

Definition addUser (user : UserRecord) (disk : Disk) : Disk :=
  let (db, disk') := getDatabase disk in
  saveDatabase {| users := users db ++ [user] |} disk'.

(** A [Partial<UserRecord>]: the properties it has. *)
Record Partial : Type := {
  with_id : option jsstring;
  with_email : option jsstring;
  with_name : option jsstring;
  with_password : option jsstring;
  with_publicKey : option (option jsstring);
  with_createdAt : option jsstring
}.

(** [{ ...user, ...updates }]. *)
Definition spread (user : UserRecord) (updates : Partial) : UserRecord :=
  {| id := default (id user) (with_id updates);
     email := default (email user) (with_email updates);
     name := default (name user) (with_name updates);
     password := default (password user) (with_password updates);
     publicKey := default (publicKey user) (with_publicKey updates);
     createdAt := default (createdAt user) (with_createdAt updates) |}.

Definition updateUser (id' : jsstring) (updates : Partial) (disk : Disk)
    : option UserRecord * Disk :=
  let (db, disk') := getDatabase disk in
  match list_find (fun u => id u = id') (users db) with
  | None => (None, disk')
  | Some (index, user) =>
      let updated := spread user updates in
      (Some updated, saveDatabase {| users := <[index := updated]> (users db) |} disk')
  end.

Definition deleteUser (id' : jsstring) (disk : Disk) : bool * Disk :=
  let (db, disk') := getDatabase disk in
  let initialLength := length (users db) in
  let kept := List.filter (fun u => negb (bool_decide (id u = id'))) (users db) in
  if negb (length kept =? initialLength)%nat
  then (true, saveDatabase {| users := kept |} disk')
  else (false, disk').

End Database.

(** ** src/lib/users.ts: the user store *)

Module Users.

Import Database.

Section Platform.

(** [Date] objects with [toISOString] and [new Date(string)], and bcrypt's
    [hash(password, 12)] with the salt it draws. *)
Variable Date : Type.
Variable toISOString : Date -> jsstring.
Variable new_Date : jsstring -> Date.
Variable Salt : Type.
Variable hash : jsstring -> Salt -> jsstring.

Record StoredUser : Type := {
  user_id : jsstring;
  user_email : jsstring;
  user_name : jsstring;
  user_password : jsstring;
  user_publicKey : option jsstring;
  user_createdAt : Date
}.

(** [Omit<StoredUser, 'password'>]. *)
Record ListedUser : Type := {
  listed_id : jsstring;
  listed_email : jsstring;
  listed_name : jsstring;
  listed_publicKey : option jsstring;
  listed_createdAt : Date
}.

(** The module's [demoUsersInitialized] and the file. *)
Record State : Type := {
  disk : Disk;
  demoUsersInitialized : bool
}.

(** What one new user draws from the surroundings: the salt of its hash, its
    uuid and the clock. *)
Record Draw : Type := {
  salt : Salt;
  uuid : jsstring;
  now : Date
}.

Record DemoDraws : Type := {
  for_alice : Draw;
  for_bob : Draw;
  for_charlie : Draw
}.

Definition recordToUser (record : UserRecord) : StoredUser :=
  {| user_id := id record; user_email := email record; user_name := name record;
     user_password := password record; user_publicKey := publicKey record;
     user_createdAt := new_Date (createdAt record) |}.

(** One turn of the loop of [initializeDemoUsers]. *)
Definition demo_user (email' name' password' : jsstring) (draw : Draw) (disk : Disk)
    : Disk :=
  let (existing, disk') := findUserByEmail email' disk in
  match existing with
  | Some _ => disk'
  | None =>
      let hashedPassword := hash password' (salt draw) in
      addUser {| id := uuid draw; email := email'; name := name';
                 password := hashedPassword; publicKey := None;
                 createdAt := toISOString (now draw) |} disk'
  end.

Definition initializeDemoUsers (draws : DemoDraws) (st : State) : State :=
  if demoUsersInitialized st then st
  else
    let disk1 := demo_user (lit "alice@example.com") (lit "Alice")
                   (lit "password123") (for_alice draws) (disk st) in
    let disk2 := demo_user (lit "bob@example.com") (lit "Bob")
                   (lit "password123") (for_bob draws) disk1 in
    let disk3 := demo_user (lit "charlie@example.com") (lit "Charlie")
                   (lit "password123") (for_charlie draws) disk2 in
    {| disk := disk3; demoUsersInitialized := true |}.

Definition getUserByEmail (email' : jsstring) (draws : DemoDraws) (st : State)
    : option StoredUser * State :=
  let st1 := initializeDemoUsers draws st in
  let (record, disk') := findUserByEmail email' (disk st1) in
  (option_map recordToUser record,
   {| disk := disk'; demoUsersInitialized := demoUsersInitialized st1 |}).

Definition getUserById (id' : jsstring) (draws : DemoDraws) (st : State)
    : option StoredUser * State :=
  let st1 := initializeDemoUsers draws st in
  let (record, disk') := findUserById id' (disk st1) in
  (option_map recordToUser record,
   {| disk := disk'; demoUsersInitialized := demoUsersInitialized st1 |}).

Definition createUser (email' name' password' : jsstring) (draws : DemoDraws)
    (draw : Draw) (st : State) : Result StoredUser * State :=
  let st1 := initializeDemoUsers draws st in
  let (existing, disk') := findUserByEmail email' (disk st1) in
  match existing with
  | Some _ =>
      (Throw (Error "User with this email already exists"),
       {| disk := disk'; demoUsersInitialized := demoUsersInitialized st1 |})
  | None =>
      let hashedPassword := hash password' (salt draw) in
      let id' := uuid draw in
      let createdAt' := now draw in
      let record := {| id := id'; email := email'; name := name';
                       password := hashedPassword; publicKey := None;
                       createdAt := toISOString createdAt' |} in
      (Ok {| user_id := id'; user_email := email'; user_name := name';
             user_password := hashedPassword; user_publicKey := None;
             user_createdAt := createdAt' |},
       {| disk := addUser record disk';
          demoUsersInitialized := demoUsersInitialized st1 |})
  end.

Definition updateUserPublicKey (userId publicKey' : jsstring) (draws : DemoDraws)
    (st : State) : option StoredUser * State :=
  let st1 := initializeDemoUsers draws st in
  let (updated, disk') :=
    updateUser userId
      {| with_id := None; with_email := None; with_name := None;
         with_password := None; with_publicKey := Some (Some publicKey');
         with_createdAt := None |} (disk st1) in
  (option_map recordToUser updated,
   {| disk := disk'; demoUsersInitialized := demoUsersInitialized st1 |}).

Definition listed (record : UserRecord) : ListedUser :=
  {| listed_id := id record; listed_email := email record;
     listed_name := name record; listed_publicKey := publicKey record;
     listed_createdAt := new_Date (createdAt record) |}.

Definition getAllUsers (draws : DemoDraws) (st : State) : list ListedUser * State :=
  let st1 := initializeDemoUsers draws st in
  let (records, disk') := getUsers (disk st1) in
  (map listed records,
   {| disk := disk'; demoUsersInitialized := demoUsersInitialized st1 |}).

Definition getUsersExcept (excludeId : jsstring) (draws : DemoDraws) (st : State)
    : list ListedUser * State :=
  let st1 := initializeDemoUsers draws st in
  let (records, disk') := getUsers (disk st1) in
  (map listed (List.filter (fun record => negb (bool_decide (id record = excludeId)))
                 records),
   {| disk := disk'; demoUsersInitialized := demoUsersInitialized st1 |}).

Definition deleteUserById (userId : jsstring) (st : State) : bool * State :=
  let (deleted, disk') := deleteUser userId (disk st) in
  (deleted, {| disk := disk'; demoUsersInitialized := demoUsersInitialized st |}).

Definition updateUserPassword (userId newPassword : jsstring) (salt' : Salt)
    (st : State) : bool * State :=
  let hashedPassword := hash newPassword salt' in
  let (updated, disk') :=
    updateUser userId
      {| with_id := None; with_email := None; with_name := None;
         with_password := Some hashedPassword; with_publicKey := None;
         with_createdAt := None |} (disk st) in
  (bool_decide (is_Some updated),
   {| disk := disk'; demoUsersInitialized := demoUsersInitialized st |}).

(** The calls of the store, one after the other. *)
Inductive Call : Type :=
  | GetUserByEmail (email' : jsstring) (draws : DemoDraws)
  | GetUserById (id' : jsstring) (draws : DemoDraws)
  | CreateUser (email' name' password' : jsstring) (draws : DemoDraws) (draw : Draw)
  | UpdateUserPublicKey (userId publicKey' : jsstring) (draws : DemoDraws)
  | GetAllUsers (draws : DemoDraws)
  | GetUsersExcept (excludeId : jsstring) (draws : DemoDraws)
  | DeleteUserById (userId : jsstring)
  | UpdateUserPassword (userId newPassword : jsstring) (salt' : Salt).

Definition call (st : State) (c : Call) : State :=
  match c with
  | GetUserByEmail email' draws => snd (getUserByEmail email' draws st)
  | GetUserById id' draws => snd (getUserById id' draws st)
  | CreateUser email' name' password' draws draw =>
      snd (createUser email' name' password' draws draw st)
  | UpdateUserPublicKey userId publicKey' draws =>
      snd (updateUserPublicKey userId publicKey' draws st)
  | GetAllUsers draws => snd (getAllUsers draws st)
  | GetUsersExcept excludeId draws => snd (getUsersExcept excludeId draws st)
  | DeleteUserById userId => snd (deleteUserById userId st)
  | UpdateUserPassword userId newPassword salt' =>
      snd (updateUserPassword userId newPassword salt' st)
  end.

Definition calls (st : State) (l : list Call) : State := fold_left call l st.

End Platform.

End Users.

(** ** src/lib/auth.ts: the credentials provider *)

Module Auth.

Section Platform.

Variable Date : Type.
Variable toISOString : Date -> jsstring.
Variable new_Date : jsstring -> Date.
Variable Salt : Type.
Variable hash : jsstring -> Salt -> jsstring.
(** bcrypt's [compare(password, hash)]. *)
Variable compare : jsstring -> jsstring -> bool.

Record Credentials : Type := {
  email : option jsstring;
  password : option jsstring
}.

Record User : Type := {
  id : jsstring;
  user_email : jsstring;
  name : jsstring;
  publicKey : option jsstring
}.

Definition authorize (credentials : option Credentials)
    (draws : Users.DemoDraws Date Salt) (st : Users.State)
    : Result User * Users.State :=
  let email' := match credentials with Some c => email c | None => None end in
  let password' := match credentials with Some c => password c | None => None end in
  if negb (truthy email') || negb (truthy password') then
    (Throw (Error "Email and password are required"), st)
  else
    let (user, st') :=
      Users.getUserByEmail Date toISOString new_Date Salt hash
        (default [] email') draws st in
    match user with
    | None => (Throw (Error "No user found with this email"), st')
    | Some user =>
        let isPasswordValid := compare (default [] password') (Users.user_password _ user) in
        if negb isPasswordValid then (Throw (Error "Invalid password"), st')
        else
          (Ok {| id := Users.user_id _ user; user_email := Users.user_email _ user;
                 name := Users.user_name _ user;
                 publicKey := Users.user_publicKey _ user |},
           st')
    end.

End Platform.

End Auth.

(** ** What the statements below speak of *)

Section StoreVocabulary.

Import Messages.

(** Every room is stored under its own id. *)
Definition store_ok (chatRooms : Store) : Prop :=
  forall k room, chatRooms !! k = Some room -> room_id room = k.

(** The stores the program can be in: the module starts with an empty map,
    and only its exported functions change it. *)
Inductive reachable : Store -> Prop :=
  | reach_empty : reachable ∅
  | reach_getOrCreateRoom : forall now userId1 userId2 chatRooms,
      reachable chatRooms ->
      reachable (snd (getOrCreateRoom now userId1 userId2 chatRooms))
  | reach_addMessage : forall uuid now roomId sender sname receiver content
                              chatRooms message chatRooms',
      reachable chatRooms ->
      addMessage uuid now roomId sender sname receiver content chatRooms
      = Ok (message, chatRooms') ->
      reachable chatRooms'
  | reach_markMessagesAsRead : forall roomId userId chatRooms,
      reachable chatRooms ->
      reachable (markMessagesAsRead roomId userId chatRooms).

(** Two messages that differ at most in [isRead]. *)
Definition same_but_isRead (m m' : Message) : Prop :=
  id m' = id m /\ senderId m' = senderId m /\ senderName m' = senderName m
  /\ receiverId m' = receiverId m /\ encryptedContent m' = encryptedContent m
  /\ timestamp m' = timestamp m.

(** A message that counts as unread for [userId]. *)
Definition unread_for (userId : jsstring) (msg : Message) : bool :=
  bool_decide (receiverId msg = userId) && negb (isRead msg).

End StoreVocabulary.

Section HandlerVocabulary.

Import Route.

(** The reply to a request without a user id. *)
Definition unauthorized : Response :=
  {| body := JError "Unauthorized"; status := 401 |}.

End HandlerVocabulary.

Section ListVocabulary.

Import ChatWindow.

(** The number of entries of a list that carry the id [i]. *)
Definition copies (i : jsstring) (l : list Message) : nat :=
  length (List.filter (fun m => bool_decide (id m = i)) l).

(** The ids the component has met: in its list or under decryption. *)
Definition met (st : State) : list jsstring :=
  ids (messages st) ++ ids (decrypting st).

(** The list holds each id at most once, and what the component has met is
    within [seen]. *)
Definition reconciled (seen : list jsstring) (st : State) : Prop :=
  NoDup (ids (messages st)) /\ incl (met st) seen.

End ListVocabulary.

(** *** The worlds the REST handlers lead to *)

Section ServedVocabulary.

Import Route.

(** The worlds reached from an empty store by requests to [GET] and [POST],
    whatever the surroundings answer. *)
Inductive served : World -> Prop :=
  | served_start : served {| chatRooms := ∅; calls := [] |}
  | served_GET : forall env request w,
      served w -> served (snd (GET env request w))
  | served_POST : forall env request w,
      served w -> served (snd (POST env request w)).

(** Every room lies under the id of its two participants, and each of its
    messages runs between a sender and a receiver with that room id and is
    unread. *)
Definition routed (chatRooms : Messages.Store) : Prop :=
  forall k room, chatRooms !! k = Some room ->
    Messages.room_id room = k
    /\ (exists a b, Messages.participants room = [a; b] /\ Messages.getRoomId a b = k)
    /\ Forall (fun msg =>
                 Messages.getRoomId (Messages.senderId msg) (Messages.receiverId msg) = k
                 /\ Messages.isRead msg = false)
              (Messages.messages room).

(** The replies of the handlers to requests they do not serve. *)
Definition bad_request (error : string) : Response :=
  {| body := JError error; status := 400 |}.

Definition server_error (error : string) : Response :=
  {| body := JError error; status := 500 |}.

(** What [POST] leaves behind once the session and the body are in order:
    the four calls, as far as it got. *)
Definition post_calls (roomId userId receiver : jsstring) (n : nat) : list Call :=
  firstn n
    [CallGetOrCreateRoom userId receiver;
     CallAddMessage roomId userId receiver;
     CallPusherTrigger (lit "chat-" ++ roomId) (lit "new-message");
     CallPusherTrigger (lit "user-" ++ receiver) (lit "message-received")].

(** The messages of a room, none when the room is not stored. *)
Definition messages_of (roomId : jsstring) (chatRooms : Messages.Store)
    : list Messages.Message :=
  match chatRooms !! roomId with
  | Some room => Messages.messages room
  | None => []
  end.

End ServedVocabulary.

(** A byte and a 6-bit group, as numbers. *)
Definition is_byte (z : Z) : Prop := 0 <= z < 256.
Definition is_sextet (v : Z) : Prop := 0 <= v < 64.

(** A character of a base64 text: of the alphabet, or the padding ['=']. *)
Definition is_base64_char (c : Z) : Prop := is_Some (b64_value c) \/ c = 61.

(** A character no base64 text holds and [atob] does not skip. *)
Definition not_base64 (c : Z) : Prop :=
  ascii_whitespace c = false /\ c <> 61 /\ b64_value c = None.

(** A string without ['_']. *)
Definition no_underscore (s : jsstring) : Prop := ~ In 95 s.

(** A Unicode scalar value: a code point that is not a surrogate. *)
Definition is_scalar (c : Z) : Prop :=
  0 <= c < 0x110000 /\ ~ (0xD800 <= c <= 0xDFFF).

(** A string starts with a byte order mark. *)
Definition starts_with_bom (s : jsstring) : bool :=
  match s with
  | u :: _ => u =? 0xFEFF
  | [] => false
  end.

(** *** The typing events a client emits *)

(** No ['typing'] is emitted while the last typing event emitted is a
    ['typing']; [typing] tells which it was. *)
Fixpoint announced_once {Payload : Type} (typing : bool)
    (emits : list (SocketClient.Emit Payload)) : Prop :=
  match emits with
  | [] => True
  | SocketClient.Typing _ _ _ :: emits' => typing = false /\ announced_once true emits'
  | SocketClient.StopTyping _ _ :: emits' => announced_once false emits'
  | _ :: emits' => announced_once typing emits'
  end.

(** The timeout of the indicator is pending exactly while [isTyping], and it
    is the one of this conversation. *)
Definition timeout_pending (a b : jsstring) (st : ChatWindow.Indicator) : Prop :=
  ChatWindow.typingTimeout st
  = if ChatWindow.isTyping st then Some (ChatWindow.getRoomId a b, a) else None.

(** The socket is connected whenever the indicator is withdrawn. *)
Definition withdrawn_online (a : ChatWindow.Action) : Prop :=
  match a with
  | ChatWindow.Timeout connected => connected = true
  | ChatWindow.Submit connected _ _ _ => connected = true
  | _ => True
  end.

(** *** The users on the disk *)

Definition stored_users (disk : Database.Disk) : list Database.UserRecord :=
  match disk with
  | Database.Stored data => Database.users data
  | _ => []
  end.

Definition stored_emails (disk : Database.Disk) : list jsstring :=
  map Database.email (stored_users disk).

(** No two users on the disk have the same email. *)
Definition emails_distinct (disk : Database.Disk) : Prop :=
  NoDup (stored_emails disk).

(** bcrypt accepts a password for the hash it made of it. *)
Definition accepts_own {Salt : Type} (hash : jsstring -> Salt -> jsstring)
    (compare : jsstring -> jsstring -> bool) : Prop :=
  forall password salt, compare password (hash password salt) = true.

(** *** What is asked of the platform's cipher *)

Section Contracts.

Variable CryptoKey : Type.
Variable pbkdf2_sha256 : list Byte.byte -> list Byte.byte -> Z -> CryptoKey.
Variable aes_gcm_encrypt : CryptoKey -> list Byte.byte -> list Byte.byte -> list Byte.byte.
Variable aes_gcm_decrypt : CryptoKey -> list Byte.byte -> list Byte.byte -> option (list Byte.byte).

(** Decryption under the key and IV of the encryption returns the data. *)
Definition decrypts_own : Prop :=
  forall key iv data, aes_gcm_decrypt key iv (aes_gcm_encrypt key iv data) = Some data.

(** Decryption under another key rejects (the tag does not verify). *)
Definition rejects_other_keys : Prop :=
  forall key key' iv data,
    key <> key' -> aes_gcm_decrypt key' iv (aes_gcm_encrypt key iv data) = None.

(** Different passwords derive different keys. *)
Definition separates_passwords : Prop :=
  forall password password' salt iterations,
    pbkdf2_sha256 password salt iterations = pbkdf2_sha256 password' salt iterations ->
    password = password'.

(** C1 as the claim states it: for every plaintext, every pair of user ids
    and every IV of twelve bytes, decrypting the envelope in the same room
    returns the plaintext, and decrypting it in a room with another id
    throws. *)
Definition round_trip_for_every_string : Prop :=
  forall (iv : list Byte.byte) (m u1 u2 : jsstring),
    length iv = 12%nat ->
    exists envelope,
      Crypto.encryptForRoom CryptoKey pbkdf2_sha256 aes_gcm_encrypt iv m u1 u2
      = Ok envelope
      /\ Crypto.decryptFromRoom CryptoKey pbkdf2_sha256 aes_gcm_decrypt envelope u1 u2
         = Ok m
      /\ forall v1 v2,
           Crypto.getRoomId v1 v2 <> Crypto.getRoomId u1 u2 ->
           exists e,
             Crypto.decryptFromRoom CryptoKey pbkdf2_sha256 aes_gcm_decrypt
               envelope v1 v2 = Throw e.

End Contracts.

Arguments decrypts_own {CryptoKey} _ _.
Arguments rejects_other_keys {CryptoKey} _ _.
Arguments separates_passwords {CryptoKey} _.
Arguments round_trip_for_every_string {CryptoKey} _ _ _.

(** ** Concrete inputs

    A cipher that meets the three contracts: *)

Module Tagging.

(** The key is the password; a ciphertext is the key, each byte after a
    [01] and closed by a [00], followed by the data. *)
Definition pbkdf2_sha256 (password salt : list Byte.byte) (iterations : Z)
    : list Byte.byte := password.

Definition tag (key : list Byte.byte) : list Byte.byte :=
  flat_map (fun b => [Byte.x01; b]) key ++ [Byte.x00].

Definition encrypt (key iv data : list Byte.byte) : list Byte.byte :=
  tag key ++ data.

Fixpoint strip_prefix (p c : list Byte.byte) : option (list Byte.byte) :=
  match p, c with
  | [], _ => Some c
  | x :: p', y :: c' =>
      if byte_to_Z x =? byte_to_Z y then strip_prefix p' c' else None
  | _ :: _, [] => None
  end.

Definition decrypt (key iv data : list Byte.byte) : option (list Byte.byte) :=
  strip_prefix (tag key) data.

End Tagging.

(** An IV, a stored message, a cipher that rejects everything, a component
    with an empty list, and the same message delivered on both paths with
    each decryption ending later. *)
Definition iv0 : list Byte.byte := repeat Byte.x00 12.

Definition m1 : Messages.Message :=
  {| Messages.id := lit "m1"; Messages.senderId := lit "alice";
     Messages.senderName := lit "Alice"; Messages.receiverId := lit "bob";
     Messages.encryptedContent := lit "AAAA"; Messages.timestamp := 1;
     Messages.isRead := false |}.

Definition no_cipher (encryptedData myUserId otherUserId : jsstring)
    : Result jsstring := Throw OperationError.

Definition idle : ChatWindow.State :=
  {| ChatWindow.messages := []; ChatWindow.decrypting := [] |}.

Definition delivered_twice : list ChatWindow.Event :=
  [ChatWindow.NewMessage (ChatWindow.of_store m1);
   ChatWindow.NewMessage (ChatWindow.of_store m1);
   ChatWindow.Decrypted 0; ChatWindow.Decrypted 0].

Section HandlerInputs.

Import Route.

(** A request of a client that is not logged in, and a world with an empty
    store. *)
Definition no_session : Env :=
  {| getServerSession := Ok None; now_room := 0; uuidv4 := lit "m1";
     now_message := 0; trigger_room := Ok tt; trigger_user := Ok tt |}.

Definition post_hi : Request :=
  {| searchParams_otherUserId := Some (lit "bob");
     json := Ok {| receiverId := Some (lit "bob");
                   encryptedContent := Some (lit "aGk=") |} |}.

Definition empty_world : World := {| chatRooms := ∅; calls := [] |}.

End HandlerInputs.

(** A second message, and a store whose only room holds both. *)
Definition m2 : Messages.Message :=
  {| Messages.id := lit "m2"; Messages.senderId := lit "bob";
     Messages.senderName := lit "Bob"; Messages.receiverId := lit "alice";
     Messages.encryptedContent := lit "BBBB"; Messages.timestamp := 2;
     Messages.isRead := false |}.

Definition room_alice_bob : Messages.ChatRoom :=
  {| Messages.room_id := lit "room_alice_bob";
     Messages.participants := [lit "alice"; lit "bob"];
     Messages.messages := [m1; m2]; Messages.createdAt := 0 |}.

Definition store_alice_bob : Messages.Store :=
  <[lit "room_alice_bob" := room_alice_bob]> ∅.

Section MoreHandlerInputs.

Import Route.

(** Alice logged in, asking for her messages with Bob and posting to him;
    Pusher answering, and Pusher failing on the room channel. *)
Definition alice_session : option Session :=
  Some {| user := Some {| id := Some (lit "alice"); name := lit "Alice" |} |}.

Definition alice_env : Env :=
  {| getServerSession := Ok alice_session; now_room := 0; uuidv4 := lit "m1";
     now_message := 1; trigger_room := Ok tt; trigger_user := Ok tt |}.

Definition alice_env_pusher_down : Env :=
  {| getServerSession := Ok alice_session; now_room := 0; uuidv4 := lit "m1";
     now_message := 1; trigger_room := Throw (Error "pusher");
     trigger_user := Ok tt |}.

End MoreHandlerInputs.

(** The message ["hi"] of alice to bob as the store sends it to a client:
    its content is the envelope that [encryptForRoom] makes with the tagging
    cipher. *)
Definition sealed_hi : ChatWindow.Message :=
  {| ChatWindow.id := lit "m3"; ChatWindow.senderId := lit "alice";
     ChatWindow.senderName := lit "Alice"; ChatWindow.receiverId := lit "bob";
     ChatWindow.encryptedContent :=
       match Crypto.encryptForRoom _ Tagging.pbkdf2_sha256 Tagging.encrypt iv0
               (lit "hi") (lit "alice") (lit "bob") with
       | Ok envelope => envelope
       | Throw _ => []
       end;
     ChatWindow.decryptedContent := None;
     ChatWindow.timestamp := 3; ChatWindow.isRead := false;
     ChatWindow.decryptionFailed := None |}.

Definition alice_crypto : Crypto.CryptoManager := fst (Crypto.initializeCrypto (lit "alice") None).
Definition bob_crypto : Crypto.CryptoManager := fst (Crypto.initializeCrypto (lit "bob") None).

Section FetchInputs.

Import Route.

(** Bob logged in, asking for his messages with Alice; Alice posting the
    sealed ["hi"] while Pusher is down. *)
Definition bob_env : Env :=
  {| getServerSession :=
       Ok (Some {| user := Some {| id := Some (lit "bob"); name := lit "Bob" |} |});
     now_room := 5; uuidv4 := lit "m9"; now_message := 6;
     trigger_room := Ok tt; trigger_user := Ok tt |}.

Definition get_alice : Request :=
  {| searchParams_otherUserId := Some (lit "alice"); json := Throw (Error "no body") |}.

Definition post_sealed_hi : Request :=
  {| searchParams_otherUserId := None;
     json := Ok {| receiverId := Some (lit "bob");
                   encryptedContent := Some (ChatWindow.encryptedContent sealed_hi) |} |}.

End FetchInputs.

(** Two sockets of the same user, as two tabs of a browser open them. *)
Definition two_tabs : Server.State :=
  fst (Server.run (Payload := ChatWindow.Message) Server.start
         [Server.Connection (lit "tab1"); Server.Connection (lit "tab2");
          Server.Receive (lit "tab1") (SocketClient.Join (lit "alice"));
          Server.Receive (lit "tab2") (SocketClient.Join (lit "alice"))]).

(** Alice's socket and a socket that never said who it is. *)
Definition alice_and_stranger : Server.State :=
  fst (Server.run (Payload := ChatWindow.Message) Server.start
         [Server.Connection (lit "sa"); Server.Connection (lit "sx");
          Server.Receive (lit "sa") (SocketClient.Join (lit "alice"))]).

(** A toy bcrypt for the concrete inputs: the salt is one character, the
    hash is the salt followed by the password, and [compare] looks for the
    password after the salt. Dates are numbers. *)
Module ToyBcrypt.

Definition hash (password : jsstring) (salt : Z) : jsstring := salt :: password.

Definition compare (password hashed : jsstring) : bool :=
  bool_decide (tl hashed = password).

Definition toISOString (date : Z) : jsstring := [date].

Definition new_Date (text : jsstring) : Z := hd 0 text.

Definition draw (salt : Z) (uuid : jsstring) (now : Z) : Users.Draw Z Z :=
  {| Users.salt := salt; Users.uuid := uuid; Users.now := now |}.

Definition demo_draws : Users.DemoDraws Z Z :=
  {| Users.for_alice := draw 1 (lit "u-alice") 1;
     Users.for_bob := draw 2 (lit "u-bob") 2;
     Users.for_charlie := draw 3 (lit "u-charlie") 3 |}.

(** A new install. *)
Definition fresh : Users.State :=
  {| Users.disk := Database.Absent; Users.demoUsersInitialized := false |}.

(** Dora registers, Bob is deleted, Dora gets a public key and registers
    again. *)
Definition busy_day : list (Users.Call Z Z) :=
  [Users.CreateUser _ _ (lit "dora@example.com") (lit "Dora") (lit "secret")
     demo_draws (draw 4 (lit "u-dora") 4);
   Users.DeleteUserById _ _ (lit "u-bob");
   Users.UpdateUserPublicKey _ _ (lit "u-dora") (lit "pk") demo_draws;
   Users.CreateUser _ _ (lit "dora@example.com") (lit "Dora") (lit "other")
     demo_draws (draw 5 (lit "u-dora2") 5)].

End ToyBcrypt.

(** ** Tactics *)

(** Linear arithmetic with division and remainder by constants. *)
Ltac dlia := Z.div_mod_to_equations; lia.

(** Decides the comparisons of the goal whose outcome follows from the
    hypotheses by linear arithmetic with division by constants. *)
Ltac decide_cmp :=
  repeat match goal with
  | |- context [?a <=? ?b] =>
      first [ replace (a <=? b) with true by (symmetry; apply Z.leb_le; dlia)
            | replace (a <=? b) with false by (symmetry; apply Z.leb_gt; dlia) ]
  | |- context [?a <? ?b] =>
      first [ replace (a <? b) with true by (symmetry; apply Z.ltb_lt; dlia)
            | replace (a <? b) with false by (symmetry; apply Z.ltb_ge; dlia) ]
  | |- context [?a =? ?b] =>
      first [ replace (a =? b) with true by (symmetry; apply Z.eqb_eq; dlia)
            | replace (a =? b) with false by (symmetry; apply Z.eqb_neq; dlia) ]
  end.

(** One byte through the UTF-8 decoder, its comparisons decided. *)
Ltac utf8_unfold :=
  cbn [utf8_run app]; unfold utf8_step, utf8_lead;
  cbv beta iota zeta delta [bytes_needed bytes_seen code_point lower_boundary
                            upper_boundary utf8_start];
  decide_cmp;
  repeat match goal with
  | |- context [?a =? ?b] => destruct (Z.eqb_spec a b)
  end;
  cbv beta iota zeta delta [bytes_needed bytes_seen code_point lower_boundary
                            upper_boundary utf8_start andb negb app].

(** The cases of a code unit: high surrogate, low surrogate, neither. *)
Ltac surrogate_cases :=
  unfold is_high, is_low in *;
  repeat match goal with
  | |- context [?a <=? ?b] => destruct (Z.leb_spec a b)
  | H : context [?a <=? ?b] |- _ => destruct (Z.leb_spec a b)
  end;
  cbn [andb negb] in *.

(** ** Facts about string comparison *)

Lemma str_lt_lex a b : str_lt a b = true <-> lex_lt a b.
Proof.
  revert b. induction a as [|x a IH]; intros [|y b]; simpl.
  - split; [discriminate | inversion 1].
  - split; [constructor | reflexivity].
  - split; [discriminate | inversion 1].
  - destruct (Z.ltb_spec x y) as [Hxy|Hxy].
    + split; [intros _; now constructor | reflexivity].
    + destruct (Z.ltb_spec y x) as [Hyx|Hyx].
      * split; [discriminate |]. inversion 1; subst; lia.
      * assert (x = y) by lia. subst y. rewrite IH.
        split; [now constructor |]. inversion 1; subst; [lia | assumption].
Qed.

Lemma str_lt_irrefl a : str_lt a a = false.
Proof.
  induction a as [|x a IH]; simpl; [reflexivity |].
  now rewrite Z.ltb_irrefl.
Qed.

Lemma str_lt_asym a b : str_lt a b = true -> str_lt b a = false.
Proof.
  revert b. induction a as [|x a IH]; intros [|y b]; simpl; try easy.
  destruct (Z.ltb_spec x y), (Z.ltb_spec y x); try easy; try lia.
  apply IH.
Qed.

Lemma str_lt_total a b : str_lt a b = false -> str_lt b a = false -> a = b.
Proof.
  revert b. induction a as [|x a IH]; intros [|y b]; simpl; try easy.
  destruct (Z.ltb_spec x y), (Z.ltb_spec y x); try easy.
  intros Ha Hb. assert (x = y) by lia. subst. f_equal. now apply IH.
Qed.

Lemma sort_pair a b :
  sort [a; b] = [str_min a b; str_max a b].
Proof.
  unfold sort, str_min, str_max, SortCompare; simpl. unfold SortCompare.
  destruct (str_lt a b) eqn:Hab.
  - now rewrite (str_lt_asym _ _ Hab).
  - destruct (str_lt b a); reflexivity.
Qed.

Lemma str_min_comm a b : str_min a b = str_min b a.
Proof.
  unfold str_min. destruct (str_lt b a) eqn:Hba, (str_lt a b) eqn:Hab; trivial.
  - rewrite (str_lt_asym _ _ Hba) in Hab. discriminate.
  - symmetry. now apply str_lt_total.
Qed.

Lemma str_max_comm a b : str_max a b = str_max b a.
Proof.
  unfold str_max. destruct (str_lt b a) eqn:Hba, (str_lt a b) eqn:Hab; trivial.
  - rewrite (str_lt_asym _ _ Hba) in Hab. discriminate.
  - now apply str_lt_total.
Qed.

Lemma str_min_le_max a b : lex_le (str_min a b) (str_max a b).
Proof.
  unfold str_min, str_max, lex_le. destruct (str_lt b a) eqn:Hba.
  - right. now apply str_lt_lex.
  - destruct (str_lt a b) eqn:Hab.
    + right. now apply str_lt_lex.
    + left. now apply str_lt_total.
Qed.

Lemma str_min_max_cases a b :
  (str_min a b = a /\ str_max a b = b) \/ (str_min a b = b /\ str_max a b = a).
Proof. unfold str_min, str_max. destruct (str_lt b a); auto. Qed.

(** C3. Both [getRoomId] functions (crypto module and message store) are
    symmetric in their arguments, and their value is ["room_" + min + "_" + max],
    where [min] and [max] are the two ids in lexicographic order of their code
    units. *)
Theorem getRoomId_commutative_sorted (a b : jsstring) :
  Crypto.getRoomId a b = Crypto.getRoomId b a
  /\ Messages.getRoomId a b = Messages.getRoomId b a
  /\ Crypto.getRoomId a b = lit "room_" ++ str_min a b ++ lit "_" ++ str_max a b
  /\ Messages.getRoomId a b = lit "room_" ++ str_min a b ++ lit "_" ++ str_max a b
  /\ lex_le (str_min a b) (str_max a b)
  /\ ((str_min a b = a /\ str_max a b = b) \/ (str_min a b = b /\ str_max a b = a)).
Proof.
  unfold Crypto.getRoomId, Messages.getRoomId. cbv zeta.
  rewrite !sort_pair. cbn [index nth].
  rewrite (str_min_comm b a), (str_max_comm b a).
  repeat split; auto using str_min_le_max, str_min_max_cases.
Qed.


Lemma join_pair sep a b : join sep [a; b] = a ++ sep ++ b.
Proof. reflexivity. Qed.

Lemma app_prefix_neq {A} (p l : list A) : p <> [] -> l <> p ++ l.
Proof.
  intros Hp Heq. apply (f_equal (@length A)) in Heq.
  rewrite length_app in Heq. destruct p; [congruence | simpl in Heq; lia].
Qed.

(** C4, as the code has it. The crypto module and the message store compute
    the same room id for a pair, in either order of the two ids. The chat
    window's room id for the direct path is the same sorted pair joined by
    ["_"], symmetric as well, but without the ["room_"] prefix: the store's id
    is ["room_"] followed by the chat window's, and the two are never equal. *)
Theorem room_ids_agree_up_to_prefix (a b : jsstring) :
  Crypto.getRoomId a b = Messages.getRoomId a b
  /\ Crypto.getRoomId a b = Messages.getRoomId b a
  /\ ChatWindow.getRoomId a b = ChatWindow.getRoomId b a
  /\ Messages.getRoomId a b = lit "room_" ++ ChatWindow.getRoomId a b
  /\ ChatWindow.getRoomId a b <> Messages.getRoomId a b.
Proof.
  unfold Crypto.getRoomId, Messages.getRoomId, ChatWindow.getRoomId. cbv zeta.
  rewrite !sort_pair, !join_pair. cbn [index nth].
  rewrite (str_min_comm b a), (str_max_comm b a).
  repeat split. apply app_prefix_neq. discriminate.
Qed.

(** C4, as the claim states it, fails for the users ["alice"] and ["bob"]: the
    chat window joins and sends on ["alice_bob"], the crypto module and the
    store compute ["room_alice_bob"]. *)
Lemma chat_window_room_id_differs :
  ChatWindow.getRoomId (lit "alice") (lit "bob") = lit "alice_bob"
  /\ Crypto.getRoomId (lit "alice") (lit "bob") = lit "room_alice_bob"
  /\ Messages.getRoomId (lit "alice") (lit "bob") = lit "room_alice_bob"
  /\ ChatWindow.getRoomId (lit "alice") (lit "bob")
     <> Messages.getRoomId (lit "alice") (lit "bob").
Proof. repeat split. discriminate. Qed.

(** ** The message store *)

Section Store.

Import Messages.

Lemma mark_read_not_unread userId msg :
  unread_for userId (mark_read userId msg) = false.
Proof.
  unfold mark_read, unread_for.
  destruct (bool_decide (receiverId msg = userId)) eqn:Hr; simpl.
  - destruct (isRead msg) eqn:Hi; simpl; rewrite ?Hr, ?Hi; reflexivity.
  - now rewrite Hr.
Qed.

Lemma filter_unread_mark_read userId l :
  List.filter (unread_for userId) (map (mark_read userId) l) = [].
Proof.
  induction l as [|m l IH]; simpl; [reflexivity |].
  now rewrite mark_read_not_unread.
Qed.

Lemma mark_read_same userId msg :
  same_but_isRead msg (mark_read userId msg)
  /\ (receiverId msg <> userId -> mark_read userId msg = msg)
  /\ (isRead msg = true -> mark_read userId msg = msg).
Proof.
  unfold mark_read, same_but_isRead.
  destruct (bool_decide_reflect (receiverId msg = userId)) as [Hr|Hr]; simpl.
  - destruct (isRead msg); simpl; repeat split; congruence.
  - repeat split.
Qed.

(** C7. After [markMessagesAsRead(roomId, u)] the unread count of [u] in that
    room is 0; other rooms are as before; in the room itself the messages are
    the same in number and order, each differing from its former self at most
    in [isRead], and a message whose receiver is not [u] (or that was read
    already) is unchanged. *)
Theorem markMessagesAsRead_clears_unread (roomId u : jsstring) (chatRooms : Store) :
  getUnreadCount roomId u (markMessagesAsRead roomId u chatRooms) = 0%nat
  /\ (forall k, k <> roomId ->
        markMessagesAsRead roomId u chatRooms !! k = chatRooms !! k)
  /\ match chatRooms !! roomId with
     | None => markMessagesAsRead roomId u chatRooms = chatRooms
     | Some room =>
         exists room',
           markMessagesAsRead roomId u chatRooms !! roomId = Some room'
           /\ room_id room' = room_id room
           /\ participants room' = participants room
           /\ createdAt room' = createdAt room
           /\ Forall2 (fun m m' =>
                         same_but_isRead m m'
                         /\ (receiverId m <> u -> m' = m)
                         /\ (isRead m = true -> m' = m))
                      (messages room) (messages room')
     end.
Proof.
  unfold getUnreadCount, markMessagesAsRead.
  destruct (chatRooms !! roomId) as [room|] eqn:Hroom.
  - rewrite lookup_insert_eq. cbn [messages].
    fold (unread_for u). rewrite filter_unread_mark_read.
    split; [reflexivity |]. split.
    + intros k Hk. now rewrite lookup_insert_ne.
    + eexists. split; [reflexivity |]. cbn. repeat split.
      induction (messages room) as [|m l IH]; constructor; auto.
      apply mark_read_same.
  - rewrite Hroom. repeat split.
Qed.

(** C10. For a [roomId] with no stored room, [getMessages] returns the empty
    list whatever the limit, [getUnreadCount] returns 0, and
    [markMessagesAsRead] leaves the store as it is. *)
Theorem absent_room_reads_as_empty (roomId userId : jsstring) (limit : option Z)
    (chatRooms : Store) :
  chatRooms !! roomId = None ->
  getMessages roomId limit chatRooms = []
  /\ getUnreadCount roomId userId chatRooms = 0%nat
  /\ markMessagesAsRead roomId userId chatRooms = chatRooms.
Proof.
  intros Habsent. unfold getMessages, getUnreadCount, markMessagesAsRead.
  rewrite Habsent. repeat split.
Qed.

Lemma absent_room_reads_as_empty_witness :
  getMessages (lit "room_alice_bob") (Some 10) (∅ : Store) = []
  /\ getUnreadCount (lit "room_alice_bob") (lit "bob") (∅ : Store) = 0%nat
  /\ markMessagesAsRead (lit "room_alice_bob") (lit "bob") (∅ : Store) = ∅.
Proof.
  apply (absent_room_reads_as_empty (lit "room_alice_bob") (lit "bob") (Some 10) ∅).
  apply lookup_empty.
Defined.


Lemma addMessage_store_ok (uuid : jsstring) (now : Z)
    (roomId sender sname receiver content : jsstring)
    (chatRooms chatRooms' : Store) (message : Message) :
  store_ok chatRooms ->
  addMessage uuid now roomId sender sname receiver content chatRooms
  = Ok (message, chatRooms') ->
  store_ok chatRooms'.
Proof.
  unfold addMessage, store_ok. intros Hok.
  destruct (chatRooms !! roomId) as [room|] eqn:Hroom; [| discriminate].
  intros [= <- <-] k r. rewrite lookup_insert. case_decide as Hk.
  - intros [= <-]. cbn. subst k. now apply Hok.
  - apply Hok.
Qed.

Lemma markMessagesAsRead_store_ok (roomId userId : jsstring) (chatRooms : Store) :
  store_ok chatRooms -> store_ok (markMessagesAsRead roomId userId chatRooms).
Proof.
  unfold markMessagesAsRead, store_ok. intros Hok.
  destruct (chatRooms !! roomId) as [room|] eqn:Hroom; [| assumption].
  intros k r. rewrite lookup_insert. case_decide as Hk.
  - intros [= <-]. cbn. subst k. now apply Hok.
  - apply Hok.
Qed.

Lemma getRoomId_swap (a b : jsstring) : getRoomId a b = getRoomId b a.
Proof.
  unfold getRoomId. cbv zeta. rewrite !sort_pair. cbn [index nth].
  now rewrite (str_min_comm b a), (str_max_comm b a).
Qed.

Lemma getOrCreateRoom_store_ok (now : Z) (u1 u2 : jsstring) (chatRooms : Store) :
  store_ok chatRooms -> store_ok (snd (getOrCreateRoom now u1 u2 chatRooms)).
Proof.
  unfold getOrCreateRoom, store_ok. cbv zeta. intros Hok.
  destruct (chatRooms !! getRoomId u1 u2) as [room|] eqn:Hroom; cbn [snd];
    [assumption |].
  intros k r. rewrite lookup_insert. case_decide as Hk.
  - intros [= <-]. now subst.
  - apply Hok.
Qed.

(** Every store the program can be in keeps each room under its own id. *)
Lemma reachable_store_ok (chatRooms : Store) :
  reachable chatRooms -> store_ok chatRooms.
Proof.
  induction 1 as [| now u1 u2 s _ IH | uuid now rid sd sn rc ct s m s' _ IH Hadd
                  | rid u s _ IH].
  - intros k r Hk. rewrite lookup_empty in Hk. discriminate.
  - now apply getOrCreateRoom_store_ok.
  - eapply addMessage_store_ok; eauto.
  - now apply markMessagesAsRead_store_ok.
Qed.

(** C8. In a store that keeps every room under its own id,
    [getOrCreateRoom(u1,u2)] returns a room whose id is [getRoomId(u1,u2)],
    the id [getOrCreateRoom(u2,u1)] would use, and the store then holds that
    room under that id. The room is added (with no message) only when none
    was stored; a stored room is returned as it is, messages included, with
    the ids in either order, and the store is left unchanged. A later call in
    either order returns the same room and changes nothing, other rooms are
    never touched, and no other entry of the store has the id of the pair. *)
Theorem getOrCreateRoom_one_room_per_pair (now later : Z) (u1 u2 : jsstring)
    (chatRooms : Store) :
  store_ok chatRooms ->
  exists room chatRooms',
    getOrCreateRoom now u1 u2 chatRooms = (room, chatRooms')
    /\ room_id room = getRoomId u1 u2
    /\ room_id (fst (getOrCreateRoom now u2 u1 chatRooms)) = getRoomId u1 u2
    /\ chatRooms' !! getRoomId u1 u2 = Some room
    /\ (chatRooms !! getRoomId u1 u2 = None ->
        chatRooms' = <[getRoomId u1 u2 := room]> chatRooms
        /\ messages room = [])
    /\ (forall room0, chatRooms !! getRoomId u1 u2 = Some room0 ->
        getOrCreateRoom now u1 u2 chatRooms = (room0, chatRooms)
        /\ getOrCreateRoom now u2 u1 chatRooms = (room0, chatRooms))
    /\ (forall k, k <> getRoomId u1 u2 -> chatRooms' !! k = chatRooms !! k)
    /\ getOrCreateRoom later u1 u2 chatRooms' = (room, chatRooms')
    /\ getOrCreateRoom later u2 u1 chatRooms' = (room, chatRooms')
    /\ store_ok chatRooms'
    /\ (forall k r, chatRooms' !! k = Some r -> room_id r = getRoomId u1 u2 ->
        k = getRoomId u1 u2 /\ r = room).
Proof.
  intros Hok. unfold getOrCreateRoom. cbv zeta.
  rewrite (getRoomId_swap u2 u1). generalize (getRoomId u1 u2). intros rid.
  destruct (chatRooms !! rid) as [room0|] eqn:Hroom.
  - exists room0, chatRooms. rewrite Hroom.
    split_and!; try done.
    + now apply Hok.
    + now apply Hok.
    + now intros room1 [= <-].
    + intros k r Hk Hid. pose proof (Hok _ _ Hk) as Hk'.
      assert (Hkr : k = rid) by congruence. rewrite Hkr in Hk |- *.
      split; [reflexivity | congruence].
  - eexists. eexists. split; [reflexivity |].
    rewrite !lookup_insert_eq. cbn [room_id messages fst].
    assert (Hok' : store_ok
      (<[rid := {| room_id := rid; participants := [u1; u2]; messages := [];
                   createdAt := now |}]> chatRooms)).
    { intros k r. rewrite lookup_insert. case_decide as Hk.
      - intros [= <-]. now subst.
      - apply Hok. }
    split_and!; try done.
    + intros k Hk. now rewrite lookup_insert_ne.
    + intros k r Hk Hid. pose proof (Hok' _ _ Hk) as Hk'.
      assert (Hkr : k = rid) by congruence. rewrite Hkr in Hk |- *.
      rewrite lookup_insert_eq in Hk. split; [reflexivity | congruence].
Qed.

Lemma getOrCreateRoom_one_room_per_pair_witness :
  exists room chatRooms',
    getOrCreateRoom 0 (lit "bob") (lit "alice") (∅ : Store) = (room, chatRooms')
    /\ room_id room = getRoomId (lit "bob") (lit "alice")
    /\ room_id (fst (getOrCreateRoom 0 (lit "alice") (lit "bob") (∅ : Store)))
       = getRoomId (lit "bob") (lit "alice")
    /\ chatRooms' !! getRoomId (lit "bob") (lit "alice") = Some room
    /\ ((∅ : Store) !! getRoomId (lit "bob") (lit "alice") = None ->
        chatRooms' = <[getRoomId (lit "bob") (lit "alice") := room]> ∅
        /\ messages room = [])
    /\ (forall room0, (∅ : Store) !! getRoomId (lit "bob") (lit "alice") = Some room0 ->
        getOrCreateRoom 0 (lit "bob") (lit "alice") ∅ = (room0, ∅)
        /\ getOrCreateRoom 0 (lit "alice") (lit "bob") ∅ = (room0, ∅))
    /\ (forall k, k <> getRoomId (lit "bob") (lit "alice") ->
        chatRooms' !! k = (∅ : Store) !! k)
    /\ getOrCreateRoom 1 (lit "bob") (lit "alice") chatRooms' = (room, chatRooms')
    /\ getOrCreateRoom 1 (lit "alice") (lit "bob") chatRooms' = (room, chatRooms')
    /\ store_ok chatRooms'
    /\ (forall k r, chatRooms' !! k = Some r ->
        room_id r = getRoomId (lit "bob") (lit "alice") ->
        k = getRoomId (lit "bob") (lit "alice") /\ r = room).
Proof.
  apply (getOrCreateRoom_one_room_per_pair 0 1 (lit "bob") (lit "alice") ∅).
  intros k r Hk. rewrite lookup_empty in Hk. discriminate.
Defined.

(** *** [getMessages] and [slice] *)

Lemma slice_from_end {A} (l : list A) (n : Z) :
  1 <= n ->
  slice l (- n) None = skipn (length l - Z.to_nat n) l.
Proof.
  intros Hn. unfold slice.
  destruct (Z.ltb_spec (- n) 0) as [_|]; [| lia].
  rewrite firstn_all2 by (rewrite length_skipn; lia).
  f_equal. lia.
Qed.

Lemma slice_minus_zero {A} (l : list A) : slice l (- 0) None = l.
Proof.
  unfold slice. simpl. rewrite Z.min_l by lia. simpl.
  apply firstn_all2. lia.
Qed.

(** For a limit of at least 1 the claim of C5 holds: at most [n] messages,
    the last ones of the room, in the order of the room. *)
Lemma getMessages_positive_limit (roomId : jsstring) (n : Z) (chatRooms : Store)
    (room : ChatRoom) :
  1 <= n -> chatRooms !! roomId = Some room ->
  getMessages roomId (Some n) chatRooms
  = skipn (length (messages room) - Z.to_nat n) (messages room)
  /\ Z.of_nat (length (getMessages roomId (Some n) chatRooms)) <= n
  /\ exists older, messages room = older ++ getMessages roomId (Some n) chatRooms.
Proof.
  intros Hn Hroom. unfold getMessages. rewrite Hroom, slice_from_end by assumption.
  split; [reflexivity |]. split.
  - rewrite length_skipn. lia.
  - exists (firstn (length (messages room) - Z.to_nat n) (messages room)).
    symmetry. apply firstn_skipn.
Qed.

(** C5 at the limit 0: [slice(-0)] is [slice(0)], so [getMessages(roomId, 0)]
    returns every message of the room, where the claim (and the comment
    "Return last 'limit' messages") asks for none. *)
Theorem getMessages_limit_zero_returns_all (roomId : jsstring) (chatRooms : Store) :
  getMessages roomId (Some 0) chatRooms
  = match chatRooms !! roomId with
    | Some room => messages room
    | None => []
    end.
Proof.
  unfold getMessages. destruct (chatRooms !! roomId); [| reflexivity].
  apply slice_minus_zero.
Qed.

End Store.

(** ** The REST handlers *)

Section Handlers.

Import Route.

(** C9. When the session lookup answers a session without a user id (no
    session, no user, no id or an empty id), [GET] and [POST] answer 401
    Unauthorized and leave the world as it was: the store is unchanged and no
    call to [getMessages], [getOrCreateRoom], [addMessage] or Pusher was
    made. *)
Theorem unauthorized_request_touches_nothing (env : Env) (request : Request)
    (w : World) (session : option Session) :
  getServerSession env = Ok session ->
  truthy (session_user_id session) = false ->
  GET env request w = (Ok unauthorized, w)
  /\ POST env request w = (Ok unauthorized, w)
  /\ chatRooms (snd (GET env request w)) = chatRooms w
  /\ calls (snd (GET env request w)) = calls w
  /\ chatRooms (snd (POST env request w)) = chatRooms w
  /\ calls (snd (POST env request w)) = calls w.
Proof.
  intros Hsession Hid.
  assert (HG : GET env request w = (Ok unauthorized, w)).
  { unfold GET, try_catch, mbind, lift. now rewrite Hsession, Hid. }
  assert (HP : POST env request w = (Ok unauthorized, w)).
  { unfold POST, try_catch, mbind, lift. now rewrite Hsession, Hid. }
  rewrite HG, HP. repeat split.
Qed.

Lemma unauthorized_request_touches_nothing_witness :
  GET no_session post_hi empty_world = (Ok unauthorized, empty_world)
  /\ POST no_session post_hi empty_world = (Ok unauthorized, empty_world)
  /\ chatRooms (snd (GET no_session post_hi empty_world)) = chatRooms empty_world
  /\ calls (snd (GET no_session post_hi empty_world)) = calls empty_world
  /\ chatRooms (snd (POST no_session post_hi empty_world)) = chatRooms empty_world
  /\ calls (snd (POST no_session post_hi empty_world)) = calls empty_world.
Proof.
  apply (unauthorized_request_touches_nothing no_session post_hi empty_world None);
    reflexivity.
Defined.

(** With a user id in the session the handlers do reach the store, and the
    calls are recorded: the record is not empty by construction. *)
Lemma authorized_GET_reads (env : Env) (request : Request) (w : World)
    (session : option Session) :
  getServerSession env = Ok session ->
  truthy (session_user_id session) = true ->
  truthy (searchParams_otherUserId request) = true ->
  let roomId := Messages.getRoomId (default [] (session_user_id session))
                  (default [] (searchParams_otherUserId request)) in
  GET env request w
  = (Ok {| body := JMessages (Messages.getMessages roomId None (chatRooms w)) roomId;
           status := 200 |},
     {| chatRooms := chatRooms w; calls := calls w ++ [CallGetMessages roomId] |}).
Proof.
  intros Hsession Hid Hother. cbv zeta.
  unfold GET, try_catch, mbind, lift, call_getMessages, record_call, mbind, ret.
  now rewrite Hsession, Hid, Hother.
Qed.

Lemma authorized_POST_stores (env : Env) (request : Request) (w : World)
    (session : option Session) (b : Body) :
  getServerSession env = Ok session ->
  truthy (session_user_id session) = true ->
  json request = Ok b ->
  truthy (receiverId b) = true -> truthy (encryptedContent b) = true ->
  exists room rest,
    calls (snd (POST env request w))
    = calls w ++ CallGetOrCreateRoom (default [] (session_user_id session))
                   (default [] (receiverId b))
                 :: CallAddMessage (Messages.room_id room)
                      (default [] (session_user_id session))
                      (default [] (receiverId b))
                 :: rest.
Proof.
  intros Hsession Hid Hjson Hr Hc.
  unfold POST, try_catch, mbind, lift, call_getOrCreateRoom, call_addMessage,
    call_pusher_trigger, record_call, mbind, lift, ret.
  rewrite Hsession, Hid, Hjson, Hr, Hc. cbn [negb orb chatRooms calls].
  destruct (Messages.getOrCreateRoom _ _ _ _) as [room rooms] eqn:Hroom.
  cbn [chatRooms calls].
  exists room.
  destruct (Messages.addMessage _ _ _ _ _ _ _ _) as [[message rooms']|e];
    cbn [chatRooms calls snd].
  - destruct (trigger_room env), (trigger_user env); cbn [snd calls chatRooms];
      rewrite <- ?app_assoc; cbn [app]; eexists; reflexivity.
  - rewrite <- ?app_assoc. cbn [app]. eexists. reflexivity.
Qed.

End Handlers.

(** ** The client's message list *)

Section Reconciler.

Import ChatWindow.

Variable currentUser_id : jsstring.
Variable decryptFromRoom : jsstring -> jsstring -> jsstring -> Result jsstring.

Local Abbreviation decryptMessage := (ChatWindow.decryptMessage currentUser_id decryptFromRoom).
Local Abbreviation step := (ChatWindow.step currentUser_id decryptFromRoom).
Local Abbreviation run := (ChatWindow.run currentUser_id decryptFromRoom).

Lemma decryptMessage_id (msg : Message) : id (decryptMessage msg) = id msg.
Proof.
  unfold ChatWindow.decryptMessage.
  destruct (truthy (decryptedContent msg)); [reflexivity |].
  destruct (decryptFromRoom _ _ _); reflexivity.
Qed.

Lemma some_id_In (l : list Message) (i : jsstring) :
  some_id l i = true <-> In i (ids l).
Proof.
  unfold some_id, ids. rewrite existsb_exists, in_map_iff.
  split; intros [m [H1 H2]]; exists m.
  - apply bool_decide_eq_true in H2. auto.
  - rewrite bool_decide_eq_true. auto.
Qed.

Lemma some_id_not_In (l : list Message) (i : jsstring) :
  some_id l i = false <-> ~ In i (ids l).
Proof.
  rewrite <- some_id_In. destruct (some_id l i); split; congruence.
Qed.

Lemma ids_app (l1 l2 : list Message) : ids (l1 ++ l2) = ids l1 ++ ids l2.
Proof. apply map_app. Qed.

Lemma NoDup_ids_snoc (l : list Message) (m : Message) :
  NoDup (ids l) -> ~ In (id m) (ids l) -> NoDup (ids (l ++ [m])).
Proof.
  intros Hnd Hnew. rewrite ids_app. apply NoDup_app. split; [assumption |].
  split; [| apply NoDup_singleton].
  intros x Hx [<-|[]]%list_elem_of_In. apply Hnew. now apply list_elem_of_In.
Qed.

Lemma In_ids_delete (l : list Message) (k : nat) (i : jsstring) :
  In i (ids (delete k l)) -> In i (ids l).
Proof.
  revert k. induction l as [|m l IH]; intros [|k]; simpl; auto.
  intros [H|H]; eauto.
Qed.

Lemma In_ids_lookup (l : list Message) (k : nat) (d : Message) :
  l !! k = Some d -> In (id d) (ids l).
Proof.
  revert k. induction l as [|m l IH]; intros [|k]; simpl; try discriminate.
  - intros [= ->]. now left.
  - intros H. right. eauto.
Qed.

Lemma In_ids_delete_or (l : list Message) (k : nat) (d : Message) (i : jsstring) :
  l !! k = Some d -> In i (ids l) -> i = id d \/ In i (ids (delete k l)).
Proof.
  revert k. induction l as [|m l IH]; intros [|k]; simpl; try discriminate.
  - intros [= ->] [H|H]; auto.
  - intros Hk [H|H]; auto. destruct (IH _ Hk H); auto.
Qed.

Lemma step_reconciled (seen : list jsstring) (st : State) (ev : Event)
    (evs : list Event) :
  reconciled seen st -> sends_are_first seen (ev :: evs) ->
  exists seen', reconciled seen' (step st ev) /\ sends_are_first seen' evs.
Proof.
  intros [Hnd Hseen] Hfirst. unfold met in Hseen.
  destruct ev as [message|k|newMessage reply]; simpl in Hfirst |- *.
  - exists (id message :: seen). split; [| assumption].
    unfold handleNewMessage, reconciled, met. cbv zeta.
    destruct (some_id (messages st) (id message)); simpl.
    + split; [assumption |]. now apply incl_tl.
    + split; [assumption |]. rewrite ids_app. simpl.
      rewrite decryptMessage_id.
      intros x [Hx|[Hx|[<-|[]]]%in_app_or]%in_app_or.
      * right. apply Hseen, in_or_app. auto.
      * right. apply Hseen, in_or_app. auto.
      * now left.
  - exists seen. split; [| assumption].
    unfold then_decrypted, reconciled, met.
    destruct (decrypting st !! k) as [d|] eqn:Hk; [| now split].
    cbv zeta. simpl.
    assert (Hd : In (id d) seen).
    { apply Hseen, in_or_app. right. eapply In_ids_lookup; eauto. }
    destruct (some_id (messages st) (id d)) eqn:Hex.
    + split; [assumption |].
      intros x [Hx|Hx]%in_app_or; apply Hseen, in_or_app; auto.
      right. eapply In_ids_delete; eauto.
    + apply some_id_not_In in Hex. split; [now apply NoDup_ids_snoc |].
      rewrite ids_app. simpl.
      intros x [[Hx|[<-|[]]]%in_app_or|Hx]%in_app_or; auto.
      * apply Hseen, in_or_app. auto.
      * apply Hseen, in_or_app. right. eapply In_ids_delete; eauto.
  - unfold sendMessage, sent_id in *.
    destruct (forallb is_trimmed newMessage).
    + exists seen. now split.
    + destruct reply as [data_message|e].
      * destruct Hfirst as [Hnew Hfirst].
        exists (Messages.id data_message :: seen). split; [| assumption].
        unfold reconciled, met. simpl. split.
        -- apply NoDup_ids_snoc; [assumption |]. simpl.
           intros Hin. apply Hnew, Hseen, in_or_app. auto.
        -- rewrite ids_app. simpl.
           intros x [[Hx|[<-|[]]]%in_app_or|Hx]%in_app_or.
           ++ right. apply Hseen, in_or_app. auto.
           ++ now left.
           ++ right. apply Hseen, in_or_app. auto.
      * exists seen. now split.
Qed.

Lemma run_reconciled (evs : list Event) :
  forall (seen : list jsstring) (st : State),
  reconciled seen st -> sends_are_first seen evs ->
  NoDup (ids (messages (run st evs))).
Proof.
  induction evs as [|ev evs IH]; intros seen st Hrec Hfirst.
  - apply Hrec.
  - destruct (step_reconciled seen st ev evs Hrec Hfirst) as [seen' [Hrec' Hfirst']].
    simpl. eapply IH; eauto.
Qed.

(** An id the component has met stays met: no step drops a message, and a
    decryption that ends leaves its id in the list. *)
Lemma step_keeps_met (st : State) (ev : Event) (i : jsstring) :
  In i (met st) -> In i (met (step st ev)).
Proof.
  unfold met. intros Hi.
  destruct ev as [message|k|newMessage reply]; simpl.
  - unfold handleNewMessage. cbv zeta.
    destruct (some_id (messages st) (id message)); [assumption |]. simpl.
    rewrite ids_app. apply in_app_or in Hi. apply in_or_app.
    destruct Hi; auto. right. apply in_or_app. auto.
  - unfold then_decrypted.
    destruct (decrypting st !! k) as [d|] eqn:Hk; [| assumption].
    cbv zeta. simpl. apply in_app_or in Hi. apply in_or_app.
    destruct (some_id (messages st) (id d)) eqn:Hex.
    + destruct Hi as [Hi|Hi]; auto.
      destruct (In_ids_delete_or _ _ _ _ Hk Hi) as [->|Hi']; auto.
      left. now apply some_id_In.
    + rewrite ids_app. destruct Hi as [Hi|Hi].
      * left. apply in_or_app. auto.
      * destruct (In_ids_delete_or _ _ _ _ Hk Hi) as [->|Hi']; auto.
        left. apply in_or_app. right. now left.
  - unfold sendMessage. destruct (forallb is_trimmed newMessage); [assumption |].
    destruct reply; [| assumption]. simpl. rewrite ids_app.
    apply in_app_or in Hi. apply in_or_app. destruct Hi; auto.
    left. apply in_or_app. auto.
Qed.

Lemma run_keeps_met (evs : list Event) :
  forall (st : State) (i : jsstring), In i (met st) -> In i (met (run st evs)).
Proof.
  induction evs as [|ev evs IH]; intros st i Hi; [assumption |].
  simpl. apply IH. now apply step_keeps_met.
Qed.

Lemma handleNewMessage_met (st : State) (message : Message) :
  In (id message) (met (handleNewMessage currentUser_id decryptFromRoom message st)).
Proof.
  unfold handleNewMessage, met. cbv zeta.
  destruct (some_id (messages st) (id message)) eqn:Hex.
  - apply in_or_app. left. now apply some_id_In.
  - simpl. apply in_or_app. right. rewrite ids_app. apply in_or_app. right.
    simpl. rewrite decryptMessage_id. now left.
Qed.

Lemma run_delivered_met (evs : list Event) :
  forall (st : State) (message : Message),
  In (NewMessage message) evs -> In (id message) (met (run st evs)).
Proof.
  induction evs as [|ev evs IH]; intros st message; [intros [] |].
  intros [->|Hin]; simpl.
  - apply run_keeps_met, handleNewMessage_met.
  - now apply IH.
Qed.

Lemma copies_NoDup (l : list Message) (i : jsstring) :
  NoDup (ids l) -> In i (ids l) -> copies i l = 1%nat.
Proof.
  unfold copies. induction l as [|m l IH]; simpl; [intros _ [] |].
  intros Hnd Hin. apply NoDup_cons in Hnd as [Hm Hnd].
  rewrite list_elem_of_In in Hm.
  destruct (bool_decide_reflect (id m = i)) as [Heq|Hne]; simpl.
  - subst i. f_equal. clear IH Hin Hnd.
    induction l as [|m' l IH]; simpl; [reflexivity |].
    simpl in Hm. destruct (bool_decide_reflect (id m' = id m)) as [Heq|Hne].
    + exfalso. apply Hm. now left.
    + apply IH. intros H. apply Hm. now right.
  - destruct Hin as [Hin|Hin]; [contradiction |]. now apply IH.
Qed.


End Reconciler.

(** ** Bytes, UTF-16 and UTF-8 *)

Lemma byte_to_Z_range (b : Byte.byte) : 0 <= byte_to_Z b < 256.
Proof.
  unfold byte_to_Z. pose proof (Byte.to_N_bounded b). lia.
Qed.

Lemma u8_byte_to_Z (b : Byte.byte) : u8 (byte_to_Z b) = b.
Proof.
  unfold u8. rewrite Z.mod_small by apply byte_to_Z_range.
  unfold byte_to_Z. now rewrite N2Z.id, Byte.of_to_N.
Qed.

Lemma byte_to_Z_u8 (z : Z) : 0 <= z < 256 -> byte_to_Z (u8 z) = z.
Proof.
  intros Hz. unfold u8, byte_to_Z. rewrite Z.mod_small by assumption.
  destruct (Byte.of_N (Z.to_N z)) as [b|] eqn:Hb.
  - apply Byte.to_of_N in Hb. rewrite Hb. lia.
  - apply Byte.of_N_None_iff in Hb. lia.
Qed.

Lemma map_u8_byte_to_Z (bs : list Byte.byte) : map u8 (map byte_to_Z bs) = bs.
Proof.
  induction bs as [|b bs IH]; simpl; [reflexivity |].
  now rewrite u8_byte_to_Z, IH.
Qed.

Lemma map_byte_to_Z_u8 (zs : list Z) :
  Forall is_byte zs -> map byte_to_Z (map u8 zs) = zs.
Proof.
  induction 1 as [|z zs Hz _ IH]; simpl; [reflexivity |].
  now rewrite byte_to_Z_u8, IH.
Qed.

Lemma Forall_is_byte_bytes (bs : list Byte.byte) : Forall is_byte (map byte_to_Z bs).
Proof.
  induction bs; simpl; constructor; auto. apply byte_to_Z_range.
Qed.

Lemma utf8_bytes_are_bytes (c : Z) : is_scalar c -> Forall is_byte (utf8_bytes c).
Proof.
  intros [Hc _]. unfold utf8_bytes, is_byte.
  destruct (Z.ltb_spec c 0x80); [repeat constructor; lia |].
  destruct (Z.ltb_spec c 0x800); [repeat constructor; dlia |].
  destruct (Z.ltb_spec c 0x10000); repeat constructor; dlia.
Qed.

(** The decoder reads back what the encoder wrote for a scalar value. *)
Lemma utf8_run_bytes (c : Z) (rest : list Z) :
  is_scalar c ->
  utf8_run utf8_start (utf8_bytes c ++ rest) = c :: utf8_run utf8_start rest.
Proof.
  intros [Hc Hs]. unfold utf8_bytes.
  destruct (Z.ltb_spec c 0x80).
  - utf8_unfold. reflexivity.
  - destruct (Z.ltb_spec c 0x800).
    + utf8_unfold; utf8_unfold; f_equal; dlia.
    + destruct (Z.ltb_spec c 0x10000).
      * utf8_unfold; utf8_unfold; utf8_unfold; f_equal; dlia.
      * utf8_unfold; utf8_unfold; utf8_unfold; utf8_unfold; f_equal; dlia.
Qed.

Lemma utf8_run_flat_map (cs : list Z) :
  Forall is_scalar cs -> utf8_run utf8_start (flat_map utf8_bytes cs) = cs.
Proof.
  induction 1 as [|c cs Hc _ IH]; [reflexivity |].
  cbn [flat_map]. now rewrite utf8_run_bytes, IH.
Qed.

Lemma flat_map_utf8_bytes_are_bytes (cs : list Z) :
  Forall is_scalar cs -> Forall is_byte (flat_map utf8_bytes cs).
Proof.
  induction 1 as [|c cs Hc _ IH]; [constructor |].
  cbn [flat_map]. apply Forall_app. split; [now apply utf8_bytes_are_bytes | assumption].
Qed.

(** Induction on lists that may step over two elements at once. *)
Lemma list_pair_ind {A} (P : list A -> Prop) :
  P [] -> (forall x, P [x]) ->
  (forall x y l, P l -> P (y :: l) -> P (x :: y :: l)) ->
  forall l, P l.
Proof.
  intros Hnil Hone Hstep l.
  assert (H : P l /\ forall x, P (x :: l)); [| apply H].
  induction l as [|y l [IH1 IH2]]; split; auto.
Qed.

Lemma to_scalars_are_scalars (s : jsstring) :
  well_formed s = true -> Forall is_scalar (to_scalars s).
Proof.
  induction s as [| u | u l s IH1 IH2] using list_pair_ind.
  - constructor.
  - cbn [well_formed to_scalars]. unfold is_scalar.
    surrogate_cases; try discriminate; intros _; repeat constructor; lia.
  - cbn [well_formed to_scalars].
    destruct (is_high u) eqn:Hu.
    + destruct (is_low l) eqn:Hl; [| discriminate].
      intros Hs. constructor; [| now apply IH1].
      unfold is_scalar. surrogate_cases; try discriminate. lia.
    + destruct (is_low u) eqn:Hlu; [discriminate |]. cbn [negb andb].
      intros Hs. apply andb_prop in Hs as [Hs1 Hs].
      apply andb_prop in Hs1 as [Hs0 Hs1].
      constructor; [| now apply IH2].
      unfold is_scalar. surrogate_cases; try discriminate; lia.
Qed.

Lemma to_scalars_cons (u : Z) (rest : jsstring) :
  to_scalars (u :: rest)
  = if is_high u then
      match rest with
      | l :: rest' =>
          if is_low l
          then (0x10000 + (u - 0xD800) * 0x400 + (l - 0xDC00)) :: to_scalars rest'
          else 0xFFFD :: to_scalars rest
      | [] => [0xFFFD]
      end
    else if is_low u then 0xFFFD :: to_scalars rest
    else u :: to_scalars rest.
Proof. reflexivity. Qed.

Lemma well_formed_cons (u : Z) (rest : jsstring) :
  well_formed (u :: rest)
  = if is_high u then
      match rest with
      | l :: rest' => is_low l && well_formed rest'
      | [] => false
      end
    else negb (is_low u) && (0 <=? u) && (u <=? 0xFFFF) && well_formed rest.
Proof. reflexivity. Qed.

Lemma from_scalars_to_scalars (s : jsstring) :
  well_formed s = true -> from_scalars (to_scalars s) = s.
Proof.
  unfold from_scalars.
  induction s as [| u | u l s IH1 IH2] using list_pair_ind.
  - reflexivity.
  - cbn [well_formed to_scalars].
    surrogate_cases; try discriminate; intros _; cbn [flat_map app];
      unfold units_of_scalar; decide_cmp; reflexivity.
  - rewrite well_formed_cons, to_scalars_cons.
    destruct (is_high u) eqn:Hu.
    + destruct (is_low l) eqn:Hl; [| discriminate].
      intros Hs. cbn [flat_map]. rewrite (IH1 Hs). unfold units_of_scalar.
      surrogate_cases; try discriminate. decide_cmp. cbn [app].
      f_equal; [dlia |]. f_equal. dlia.
    + destruct (is_low u) eqn:Hlu; [discriminate |]. cbn [negb andb].
      intros Hs. apply andb_prop in Hs as [Hs1 Hs].
      apply andb_prop in Hs1 as [Hs0 Hs1].
      cbn [flat_map]. rewrite (IH2 Hs). unfold units_of_scalar.
      apply Z.leb_le in Hs1. decide_cmp. reflexivity.
Qed.

Lemma strip_bom_to_scalars (s : jsstring) :
  starts_with_bom s = false -> strip_bom (to_scalars s) = to_scalars s.
Proof.
  destruct s as [|u s]; [reflexivity |]. cbn [starts_with_bom to_scalars].
  intros Hu. apply Z.eqb_neq in Hu.
  destruct (is_high u) eqn:Hh.
  - destruct s as [|l s]; [reflexivity |].
    destruct (is_low l) eqn:Hl; [| reflexivity].
    cbn [strip_bom]. surrogate_cases; try discriminate. decide_cmp. reflexivity.
  - destruct (is_low u); cbn [strip_bom]; [reflexivity |].
    decide_cmp. reflexivity.
Qed.

(** Decoding what [TextEncoder] wrote gives the string back, when the string
    has no surrogate on its own and does not start with U+FEFF. *)
Lemma TextDecoder_decode_encode (s : jsstring) :
  well_formed s = true -> starts_with_bom s = false ->
  TextDecoder_decode (TextEncoder_encode s) = s.
Proof.
  intros Hwf Hbom. unfold TextDecoder_decode, TextEncoder_encode.
  pose proof (to_scalars_are_scalars s Hwf) as Hsc.
  rewrite map_byte_to_Z_u8 by now apply flat_map_utf8_bytes_are_bytes.
  rewrite utf8_run_flat_map by assumption.
  rewrite strip_bom_to_scalars by assumption.
  now apply from_scalars_to_scalars.
Qed.

(** A leading U+FEFF is lost. *)
Lemma TextDecoder_decode_encode_bom (s : jsstring) :
  well_formed s = true ->
  TextDecoder_decode (TextEncoder_encode (0xFEFF :: s)) = s.
Proof.
  intros Hwf. unfold TextDecoder_decode, TextEncoder_encode.
  assert (Hwf' : well_formed (0xFEFF :: s) = true) by (cbn; assumption).
  pose proof (to_scalars_are_scalars _ Hwf') as Hsc.
  rewrite map_byte_to_Z_u8 by now apply flat_map_utf8_bytes_are_bytes.
  rewrite utf8_run_flat_map by assumption.
  change (to_scalars (0xFEFF :: s)) with (0xFEFF :: to_scalars s).
  cbn [strip_bom]. change (0xFEFF =? 0xFEFF) with true. cbv iota.
  now apply from_scalars_to_scalars.
Qed.

(** On strings with no surrogate on its own, [TextEncoder] is injective. *)
Lemma TextEncoder_encode_inj (s t : jsstring) :
  well_formed s = true -> well_formed t = true ->
  TextEncoder_encode s = TextEncoder_encode t -> s = t.
Proof.
  intros Hs Ht Heq. unfold TextEncoder_encode in Heq.
  pose proof (to_scalars_are_scalars s Hs) as Hss.
  pose proof (to_scalars_are_scalars t Ht) as Hst.
  apply (f_equal (map byte_to_Z)) in Heq.
  rewrite !map_byte_to_Z_u8 in Heq by now apply flat_map_utf8_bytes_are_bytes.
  apply (f_equal (utf8_run utf8_start)) in Heq.
  rewrite !utf8_run_flat_map in Heq by assumption.
  apply (f_equal from_scalars) in Heq.
  now rewrite !from_scalars_to_scalars in Heq.
Qed.

Lemma well_formed_app (s t : jsstring) :
  well_formed s = true -> well_formed t = true -> well_formed (s ++ t) = true.
Proof.
  intros Hs Ht. revert Hs.
  induction s as [| u | u l s IH1 IH2] using list_pair_ind.
  - trivial.
  - change ([u] ++ t) with (u :: t). rewrite !well_formed_cons.
    destruct (is_high u); [discriminate |].
    rewrite Ht. cbn [well_formed]. now rewrite !andb_true_r.
  - change ((u :: l :: s) ++ t) with (u :: l :: (s ++ t)).
    rewrite !well_formed_cons. destruct (is_high u).
    + intros [Hl Hs]%andb_prop. rewrite Hl. now apply IH1.
    + intros [Hu Hs]%andb_prop. rewrite Hu. now apply IH2.
Qed.

(** ** Base64 *)

(** Induction on lists three elements at a time. *)
Lemma list_triple_ind {A} (P : list A -> Prop) :
  P [] -> (forall a, P [a]) -> (forall a b, P [a; b]) ->
  (forall a b c l, P l -> P (a :: b :: c :: l)) ->
  forall l, P l.
Proof.
  intros H0 H1 H2 H3 l.
  assert (H : P l /\ (forall a, P (a :: l)) /\ (forall a b, P (a :: b :: l)));
    [| apply H].
  induction l as [|c l (IH0 & IH1 & IH2)]; repeat split; auto.
Qed.

Lemma sextets_are_sextets (bs : list Z) :
  Forall is_byte bs -> Forall is_sextet (sextets bs).
Proof.
  unfold is_byte, is_sextet.
  induction bs as [| a | a b | a b c bs IH] using list_triple_ind; cbn [sextets].
  - constructor.
  - intros Ha. inversion_clear Ha. repeat constructor; dlia.
  - intros Ha. inversion_clear Ha as [|? ? ? Hb]. inversion_clear Hb.
    repeat constructor; dlia.
  - intros Ha. inversion_clear Ha as [|? ? ? Hb]. inversion_clear Hb as [|? ? ? Hc].
    inversion_clear Hc. repeat constructor; try dlia. auto.
Qed.

Lemma unsextets_sextets (bs : list Z) :
  Forall is_byte bs -> unsextets (sextets bs) = bs.
Proof.
  unfold is_byte.
  induction bs as [| a | a b | a b c bs IH] using list_triple_ind;
    cbn [sextets unsextets].
  - reflexivity.
  - intros Ha. inversion_clear Ha. f_equal. dlia.
  - intros Ha. inversion_clear Ha as [|? ? ? Hb]. inversion_clear Hb.
    f_equal; [dlia |]. f_equal. dlia.
  - intros Ha. inversion_clear Ha as [|? ? ? Hb]. inversion_clear Hb as [|? ? ? Hc].
    inversion_clear Hc. rewrite IH by assumption.
    f_equal; [dlia |]. f_equal; [dlia |]. f_equal. dlia.
Qed.

Lemma b64_char_facts (v : Z) :
  is_sextet v ->
  b64_value (b64_char v) = Some v
  /\ ascii_whitespace (b64_char v) = false
  /\ (b64_char v =? 61) = false.
Proof.
  unfold is_sextet, b64_value, b64_char, ascii_whitespace. intros Hv.
  destruct (Z.ltb_spec v 26); [decide_cmp; repeat split; f_equal; lia |].
  destruct (Z.ltb_spec v 52); [decide_cmp; repeat split; f_equal; lia |].
  destruct (Z.ltb_spec v 62); [decide_cmp; repeat split; f_equal; lia |].
  destruct (Z.eqb_spec v 62); decide_cmp; repeat split; f_equal; lia.
Qed.

Lemma b64_values_chars (vs : list Z) :
  Forall is_sextet vs -> b64_values (map b64_char vs) = Some vs.
Proof.
  induction 1 as [|v vs Hv _ IH]; cbn [map b64_values]; [reflexivity |].
  destruct (b64_char_facts v Hv) as (-> & _ & _). now rewrite IH.
Qed.

Lemma padding_cases (n : nat) :
  padding n = [] \/ padding n = [61] \/ padding n = [61; 61].
Proof.
  unfold padding. destruct (n mod 3)%nat as [|[|[|k]]]; auto.
Qed.

Lemma filter_whitespace_encoded (vs : list Z) (n : nat) :
  Forall is_sextet vs ->
  List.filter (fun c => negb (ascii_whitespace c)) (map b64_char vs ++ padding n)
  = map b64_char vs ++ padding n.
Proof.
  intros Hvs. rewrite List.filter_app. f_equal.
  - induction Hvs as [|v vs Hv _ IH]; cbn [map List.filter]; [reflexivity |].
    destruct (b64_char_facts v Hv) as (_ & -> & _). cbn [negb]. now rewrite IH.
  - destruct (padding_cases n) as [-> | [-> | ->]]; reflexivity.
Qed.

Lemma strip_padding_encoded (vs : list Z) (n : nat) :
  Forall is_sextet vs ->
  strip_padding (map b64_char vs ++ padding n) = map b64_char vs.
Proof.
  intros Hvs. unfold strip_padding.
  assert (Hlast : match rev (map b64_char vs) with
                  | c :: _ => (c =? 61) = false
                  | [] => True
                  end).
  { destruct (rev (map b64_char vs)) as [|c r] eqn:Hrev; [exact I |].
    assert (Hin : In c (map b64_char vs)).
    { apply in_rev. rewrite Hrev. now left. }
    apply in_map_iff in Hin as (v & <- & Hv).
    rewrite Forall_forall in Hvs. apply list_elem_of_In in Hv.
    now destruct (b64_char_facts v (Hvs v Hv)) as (_ & _ & ->). }
  destruct (padding_cases n) as [-> | [-> | ->]]; rewrite ?app_nil_r, ?rev_app_distr;
    cbn [rev app].
  - destruct (rev (map b64_char vs)) as [|c r]; [reflexivity |]. now rewrite Hlast.
  - change (61 =? 61) with true. cbv iota.
    destruct (rev (map b64_char vs)) as [|c r] eqn:Hrev.
    + apply (f_equal (@rev Z)) in Hrev. now rewrite rev_involutive in Hrev.
    + rewrite Hlast, <- Hrev. apply rev_involutive.
  - change (61 =? 61) with true. cbv iota. apply rev_involutive.
Qed.

Lemma mod3_step (n : nat) : (S (S (S n)) mod 3 = n mod 3)%nat.
Proof.
  replace (S (S (S n))) with (n + 1 * 3)%nat by lia. apply Nat.Div0.mod_add.
Qed.

Lemma mod4_step (n : nat) : (S (S (S (S n))) mod 4 = n mod 4)%nat.
Proof.
  replace (S (S (S (S n)))) with (n + 1 * 4)%nat by lia. apply Nat.Div0.mod_add.
Qed.

(** The encoding without its padding is never one character past a multiple
    of four, and with its padding it is a multiple of four. *)
Lemma encoded_length (bs : list Z) :
  (length (sextets bs) mod 4 <> 1)%nat
  /\ ((length (sextets bs) + length (padding (length bs))) mod 4 = 0)%nat.
Proof.
  induction bs as [| a | a b | a b c bs IH] using list_triple_ind.
  - split; [discriminate | reflexivity].
  - split; [discriminate | reflexivity].
  - split; [discriminate | reflexivity].
  - cbn [sextets length]. unfold padding in *. cbn [length] in IH.
    rewrite mod3_step, mod4_step. split; [apply IH |].
    rewrite !Nat.add_succ_l, mod4_step. apply IH.
Qed.

(** [atob] reads back what [btoa] wrote for a string of bytes. *)
Lemma atob_btoa (bs : list Z) :
  Forall is_byte bs -> exists s, btoa bs = Ok s /\ atob s = Ok bs.
Proof.
  intros Hbs. pose proof (sextets_are_sextets bs Hbs) as Hvs.
  exists (map b64_char (sextets bs) ++ padding (length bs)). split.
  - unfold btoa.
    replace (forallb (fun u => u <=? 255) bs) with true; [reflexivity |].
    symmetry. apply forallb_forall. intros u Hu.
    rewrite Forall_forall in Hbs. apply list_elem_of_In in Hu.
    apply Hbs in Hu. apply Z.leb_le. unfold is_byte in Hu. lia.
  - unfold atob. cbv zeta. rewrite filter_whitespace_encoded by assumption.
    destruct (encoded_length bs) as [Hne1 Hmul].
    rewrite length_app, length_map, Hmul. cbn [Nat.eqb].
    rewrite strip_padding_encoded by assumption.
    rewrite length_map.
    destruct (Nat.eqb_spec (length (sextets bs) mod 4) 1) as [Heq|_];
      [contradiction |].
    rewrite b64_values_chars by assumption.
    now rewrite unsextets_sextets.
Qed.

(** ** The room cipher *)

Lemma strip_prefix_app (p d : list Byte.byte) :
  Tagging.strip_prefix p (p ++ d) = Some d.
Proof.
  induction p as [|x p IH]; cbn [Tagging.strip_prefix app].
  - now destruct d.
  - now rewrite Z.eqb_refl.
Qed.

Lemma byte_to_Z_inj (x y : Byte.byte) : byte_to_Z x = byte_to_Z y -> x = y.
Proof.
  intros H. rewrite <- (u8_byte_to_Z x), <- (u8_byte_to_Z y). now rewrite H.
Qed.

Lemma strip_prefix_other_tag (key key' d : list Byte.byte) :
  key <> key' ->
  Tagging.strip_prefix (Tagging.tag key') (Tagging.tag key ++ d) = None.
Proof.
  unfold Tagging.tag. revert key.
  induction key' as [|b' key' IH]; intros [|b key] Hne;
    cbn [flat_map app Tagging.strip_prefix]; try congruence; try reflexivity.
  change (byte_to_Z Byte.x01 =? byte_to_Z Byte.x01) with true. cbv iota.
  destruct (Z.eqb_spec (byte_to_Z b') (byte_to_Z b)) as [Heq|_]; [| reflexivity].
  apply byte_to_Z_inj in Heq. subst b'. apply IH. congruence.
Qed.

Lemma tagging_decrypts_own : decrypts_own Tagging.encrypt Tagging.decrypt.
Proof. intros key iv data. apply strip_prefix_app. Qed.

Lemma tagging_rejects_other_keys : rejects_other_keys Tagging.encrypt Tagging.decrypt.
Proof. intros key key' iv data Hne. now apply strip_prefix_other_tag. Qed.

Lemma tagging_separates_passwords : separates_passwords Tagging.pbkdf2_sha256.
Proof. intros p p' salt n H. exact H. Qed.

(** *** The envelope *)

Lemma binary_of_buffer (buffer : list Byte.byte) (acc : jsstring) :
  fold_left (fun binary b => binary ++ [byte_to_Z b]) buffer acc
  = acc ++ map byte_to_Z buffer.
Proof.
  revert acc. induction buffer as [|b buffer IH]; intros acc; cbn [fold_left map].
  - now rewrite app_nil_r.
  - rewrite IH, <- app_assoc. reflexivity.
Qed.

(** [base64ToArrayBuffer] reads back what [arrayBufferToBase64] wrote. *)
Lemma base64ToArrayBuffer_arrayBufferToBase64 (buffer : list Byte.byte) :
  exists base64,
    Crypto.arrayBufferToBase64 buffer = Ok base64
    /\ Crypto.base64ToArrayBuffer base64 = Ok buffer.
Proof.
  unfold Crypto.arrayBufferToBase64, Crypto.base64ToArrayBuffer. cbv zeta.
  rewrite binary_of_buffer. cbn [app].
  destruct (atob_btoa (map byte_to_Z buffer) (Forall_is_byte_bytes buffer))
    as (base64 & Hbtoa & Hatob).
  exists base64. split; [assumption |].
  rewrite Hatob. cbn [bind]. now rewrite map_u8_byte_to_Z.
Qed.

Lemma slice_iv {A} (iv rest : list A) :
  length iv = 12%nat -> slice (iv ++ rest) 0 (Some 12) = iv.
Proof.
  intros Hiv. unfold slice. rewrite length_app, Hiv.
  change (0 <? 0) with false. change (12 <? 0) with false. cbv iota.
  rewrite Z.min_l, Z.min_l by lia. change (Z.to_nat 0) with 0%nat.
  change (Z.to_nat (12 - 0)) with 12%nat. cbn [skipn].
  rewrite <- Hiv. apply take_app_length.
Qed.

Lemma slice_after_iv {A} (iv rest : list A) :
  length iv = 12%nat -> slice (iv ++ rest) 12 None = rest.
Proof.
  intros Hiv. unfold slice. rewrite length_app, Hiv.
  change (12 <? 0) with false. cbv iota. rewrite Z.min_l by lia.
  change (Z.to_nat 12) with 12%nat. rewrite <- Hiv at 2.
  rewrite drop_app_length. apply firstn_all2. lia.
Qed.

Lemma getRoomId_well_formed (a b : jsstring) :
  well_formed a = true -> well_formed b = true ->
  well_formed (Crypto.getRoomId a b) = true.
Proof.
  intros Ha Hb. unfold Crypto.getRoomId. cbv zeta. rewrite sort_pair.
  cbn [index nth].
  destruct (str_min_max_cases a b) as [[-> ->] | [-> ->]];
    repeat apply well_formed_app; auto.
Qed.

Lemma getRoomId_symmetric (a b : jsstring) : Crypto.getRoomId a b = Crypto.getRoomId b a.
Proof.
  unfold Crypto.getRoomId. cbv zeta. rewrite !sort_pair. cbn [index nth].
  now rewrite (str_min_comm b a), (str_max_comm b a).
Qed.

Section RoomCipher.

Variable CryptoKey : Type.
Variable pbkdf2_sha256 : list Byte.byte -> list Byte.byte -> Z -> CryptoKey.
Variable aes_gcm_encrypt : CryptoKey -> list Byte.byte -> list Byte.byte -> list Byte.byte.
Variable aes_gcm_decrypt : CryptoKey -> list Byte.byte -> list Byte.byte -> option (list Byte.byte).

Local Abbreviation deriveKeyFromRoom := (Crypto.deriveKeyFromRoom CryptoKey pbkdf2_sha256).
Local Abbreviation encryptForRoom :=
  (Crypto.encryptForRoom CryptoKey pbkdf2_sha256 aes_gcm_encrypt).
Local Abbreviation decryptFromRoom :=
  (Crypto.decryptFromRoom CryptoKey pbkdf2_sha256 aes_gcm_decrypt).

(** What the code adds to the platform's cipher: the envelope carries the IV
    and the ciphertext through base64 unharmed, so decrypting an envelope is
    decrypting its ciphertext under the key of the decrypting room, and a
    rejection by the platform is thrown on. *)
Lemma decryptFromRoom_encryptForRoom (iv : list Byte.byte) (m u1 u2 v1 v2 : jsstring) :
  length iv = 12%nat ->
  exists envelope,
    encryptForRoom iv m u1 u2 = Ok envelope
    /\ decryptFromRoom envelope v1 v2
       = match aes_gcm_decrypt (deriveKeyFromRoom (Crypto.getRoomId v1 v2)) iv
                 (aes_gcm_encrypt (deriveKeyFromRoom (Crypto.getRoomId u1 u2)) iv
                    (TextEncoder_encode m)) with
         | Some decrypted => Ok (TextDecoder_decode decrypted)
         | None => Throw OperationError
         end.
Proof.
  intros Hiv. unfold Crypto.encryptForRoom, Crypto.decryptFromRoom. cbv zeta.
  destruct (base64ToArrayBuffer_arrayBufferToBase64
              (iv ++ aes_gcm_encrypt (deriveKeyFromRoom (Crypto.getRoomId u1 u2)) iv
                       (Crypto.stringToArrayBuffer m)))
    as (envelope & Henc & Hdec).
  exists envelope. split; [assumption |].
  rewrite Hdec. cbn [bind].
  now rewrite slice_iv, slice_after_iv by assumption.
Qed.

Lemma deriveKeyFromRoom_inj (r r' : jsstring) :
  separates_passwords pbkdf2_sha256 ->
  well_formed r = true -> well_formed r' = true ->
  deriveKeyFromRoom r = deriveKeyFromRoom r' -> r = r'.
Proof.
  intros Hsep Hr Hr' Hkey. unfold Crypto.deriveKeyFromRoom in Hkey. cbv zeta in Hkey.
  apply Hsep in Hkey. now apply TextEncoder_encode_inj.
Qed.


(** Under any cipher that decrypts its own ciphertexts, a plaintext that
    starts with U+FEFF comes back without it. *)
Lemma leading_bom_is_lost (iv : list Byte.byte) (m u1 u2 : jsstring) :
  decrypts_own aes_gcm_encrypt aes_gcm_decrypt ->
  length iv = 12%nat -> well_formed m = true ->
  exists envelope,
    encryptForRoom iv (0xFEFF :: m) u1 u2 = Ok envelope
    /\ decryptFromRoom envelope u1 u2 = Ok m.
Proof.
  intros Hown Hiv Hwf.
  destruct (decryptFromRoom_encryptForRoom iv (0xFEFF :: m) u1 u2 u1 u2 Hiv)
    as (envelope & Henc & Hdec).
  exists envelope. split; [assumption |].
  rewrite Hdec, Hown. now rewrite TextDecoder_decode_encode_bom.
Qed.

End RoomCipher.

(** *** The theorem at a cipher, and where the claim fails *)


(** At that cipher, the envelope of "alice" and "bob" in the room of "alice"
    and "carol": rejected. *)
Example other_room_rejects_computed :
  bind (Crypto.encryptForRoom _ Tagging.pbkdf2_sha256 Tagging.encrypt iv0
          (lit "hi") (lit "alice") (lit "bob"))
       (fun envelope =>
          Crypto.decryptFromRoom _ Tagging.pbkdf2_sha256 Tagging.decrypt envelope
            (lit "alice") (lit "carol"))
  = Throw OperationError.
Proof. vm_compute. reflexivity. Qed.

(** The round trip on a plaintext that starts with U+FEFF, computed. *)
Example bom_round_trip_computed :
  bind (Crypto.encryptForRoom _ Tagging.pbkdf2_sha256 Tagging.encrypt iv0
          (0xFEFF :: lit "hi") (lit "alice") (lit "bob"))
       (fun envelope =>
          Crypto.decryptFromRoom _ Tagging.pbkdf2_sha256 Tagging.decrypt envelope
            (lit "alice") (lit "bob"))
  = Ok (lit "hi").
Proof. vm_compute. reflexivity. Qed.

(** A surrogate on its own comes back as U+FFFD. *)
Example lone_surrogate_round_trip_computed :
  bind (Crypto.encryptForRoom _ Tagging.pbkdf2_sha256 Tagging.encrypt iv0
          [0xD800] (lit "alice") (lit "bob"))
       (fun envelope =>
          Crypto.decryptFromRoom _ Tagging.pbkdf2_sha256 Tagging.decrypt envelope
            (lit "alice") (lit "bob"))
  = Ok [0xFFFD].
Proof. vm_compute. reflexivity. Qed.

(** Two rooms whose ids differ only in a surrogate on its own have the same
    key material, whatever the key derivation: the envelope of one decrypts
    in the other. *)
Example lone_surrogate_rooms_share_key_material :
  Crypto.getRoomId (lit "alice") [0xD800] <> Crypto.getRoomId (lit "alice") [0xD801]
  /\ Crypto.stringToArrayBuffer (Crypto.getRoomId (lit "alice") [0xD800])
     = Crypto.stringToArrayBuffer (Crypto.getRoomId (lit "alice") [0xD801]).
Proof. split; [discriminate | vm_compute; reflexivity]. Qed.


(** *** The message list at concrete events *)



(** C5 at a room of two messages: a limit of 0 returns both. *)
Example getMessages_limit_zero_computed :
  let m2 := {| Messages.id := lit "m2"; Messages.senderId := lit "bob";
               Messages.senderName := lit "Bob"; Messages.receiverId := lit "alice";
               Messages.encryptedContent := lit "BBBB"; Messages.timestamp := 2;
               Messages.isRead := false |} in
  let room := {| Messages.room_id := lit "room_alice_bob";
                 Messages.participants := [lit "alice"; lit "bob"];
                 Messages.messages := [m1; m2]; Messages.createdAt := 0 |} in
  Messages.getMessages (lit "room_alice_bob") (Some 0)
    (<[lit "room_alice_bob" := room]> ∅)
  = [m1; m2].
Proof.
  cbv zeta. unfold Messages.getMessages. rewrite lookup_insert_eq.
  apply slice_minus_zero.
Qed.

(** ** More on the message store *)

Section StoreComposition.

Import Messages.

(** X1. For a stored room and a limit of at least 1, [getMessages] returns
    the last [limit] messages of the room (all of them when there are fewer),
    in the order of the room: never more than [limit], and what it leaves out
    are the oldest. *)
Theorem getMessages_returns_latest (roomId : jsstring) (n : Z) (chatRooms : Store)
    (room : ChatRoom) :
  1 <= n -> chatRooms !! roomId = Some room ->
  exists older,
    messages room = older ++ getMessages roomId (Some n) chatRooms
    /\ length (getMessages roomId (Some n) chatRooms)
       = Nat.min (Z.to_nat n) (length (messages room)).
Proof.
  intros Hn Hroom. unfold getMessages. rewrite Hroom, slice_from_end by assumption.
  exists (firstn (length (messages room) - Z.to_nat n) (messages room)). split.
  - symmetry. apply firstn_skipn.
  - rewrite length_skipn. lia.
Qed.

Lemma getMessages_returns_latest_witness :
  exists older,
    messages room_alice_bob
    = older ++ getMessages (lit "room_alice_bob") (Some 1) store_alice_bob
    /\ length (getMessages (lit "room_alice_bob") (Some 1) store_alice_bob)
       = Nat.min (Z.to_nat 1) (length (messages room_alice_bob)).
Proof.
  apply (getMessages_returns_latest (lit "room_alice_bob") 1 store_alice_bob
           room_alice_bob).
  - lia.
  - apply lookup_insert_eq.
Defined.

Lemma filter_unread_snoc (u : jsstring) (l : list Message) (m : Message) :
  length (List.filter (unread_for u) (l ++ [m]))
  = (length (List.filter (unread_for u) l)
     + if unread_for u m then 1 else 0)%nat.
Proof.
  rewrite List.filter_app, length_app. cbn [List.filter].
  destruct (unread_for u m); reflexivity.
Qed.

(** X2. After [addMessage] has returned a message, that message is the last
    one [getMessages] returns for the room, for every limit of at least 1 and
    for the default limit; the unread count of its receiver in the room has
    grown by one, and the unread count of every other user, and of every
    user in any other room, is as before. *)
Theorem addMessage_then_reads (uuid : jsstring) (now : Z)
    (roomId sender sname receiver content : jsstring)
    (chatRooms chatRooms' : Store) (message : Message) :
  addMessage uuid now roomId sender sname receiver content chatRooms
  = Ok (message, chatRooms') ->
  (forall n, 1 <= n -> last (getMessages roomId (Some n) chatRooms') = Some message)
  /\ last (getMessages roomId None chatRooms') = Some message
  /\ getUnreadCount roomId receiver chatRooms'
     = S (getUnreadCount roomId receiver chatRooms)
  /\ (forall u, u <> receiver ->
      getUnreadCount roomId u chatRooms' = getUnreadCount roomId u chatRooms)
  /\ (forall k u, k <> roomId ->
      getUnreadCount k u chatRooms' = getUnreadCount k u chatRooms
      /\ forall limit, getMessages k limit chatRooms' = getMessages k limit chatRooms).
Proof.
  unfold addMessage. destruct (chatRooms !! roomId) as [room|] eqn:Hroom;
    [| discriminate].
  intros [= <- <-].
  assert (Hlast : forall n, 1 <= n ->
            last (getMessages roomId (Some n)
                    (<[roomId := {| room_id := room_id room;
                                    participants := participants room;
                                    messages := messages room ++
                                      [{| id := uuid; senderId := sender;
                                          senderName := sname; receiverId := receiver;
                                          encryptedContent := content;
                                          timestamp := now; isRead := false |}];
                                    createdAt := createdAt room |}]> chatRooms))
            = Some {| id := uuid; senderId := sender; senderName := sname;
                      receiverId := receiver; encryptedContent := content;
                      timestamp := now; isRead := false |}).
  { intros n Hn. unfold getMessages. rewrite lookup_insert_eq. cbn [messages].
    rewrite slice_from_end by assumption.
    rewrite length_app. cbn [length].
    replace (length (messages room) + 1 - Z.to_nat n)%nat
      with (length (messages room) - (Z.to_nat n - 1))%nat by lia.
    rewrite drop_app_le by lia. apply last_snoc. }
  split; [exact Hlast |]. split; [apply (Hlast 50); lia |].
  unfold getUnreadCount. rewrite lookup_insert_eq, Hroom. cbn [messages].
  fold (unread_for receiver). split; [| split].
  - rewrite filter_unread_snoc. unfold unread_for at 2. cbn [receiverId isRead].
    rewrite bool_decide_eq_true_2 by reflexivity. cbn. lia.
  - intros u Hu. fold (unread_for u). rewrite filter_unread_snoc.
    unfold unread_for at 2. cbn [receiverId isRead].
    rewrite bool_decide_eq_false_2 by congruence. cbn. lia.
  - intros k u Hk. unfold getMessages. rewrite lookup_insert_ne by congruence.
    split; reflexivity.
Qed.

Lemma addMessage_then_reads_witness :
  (forall n, 1 <= n ->
     last (getMessages (lit "room_alice_bob") (Some n)
             (<[lit "room_alice_bob" :=
                  {| room_id := lit "room_alice_bob";
                     participants := [lit "alice"; lit "bob"];
                     messages := [m1; m2] ++ [m1];
                     createdAt := 0 |}]> store_alice_bob)) = Some m1)
  /\ last (getMessages (lit "room_alice_bob") None
             (<[lit "room_alice_bob" :=
                  {| room_id := lit "room_alice_bob";
                     participants := [lit "alice"; lit "bob"];
                     messages := [m1; m2] ++ [m1];
                     createdAt := 0 |}]> store_alice_bob)) = Some m1
  /\ getUnreadCount (lit "room_alice_bob") (lit "bob")
       (<[lit "room_alice_bob" :=
            {| room_id := lit "room_alice_bob";
               participants := [lit "alice"; lit "bob"];
               messages := [m1; m2] ++ [m1];
               createdAt := 0 |}]> store_alice_bob)
     = S (getUnreadCount (lit "room_alice_bob") (lit "bob") store_alice_bob)
  /\ (forall u, u <> lit "bob" ->
      getUnreadCount (lit "room_alice_bob") u
        (<[lit "room_alice_bob" :=
             {| room_id := lit "room_alice_bob";
                participants := [lit "alice"; lit "bob"];
                messages := [m1; m2] ++ [m1];
                createdAt := 0 |}]> store_alice_bob)
      = getUnreadCount (lit "room_alice_bob") u store_alice_bob)
  /\ (forall k u, k <> lit "room_alice_bob" ->
      getUnreadCount k u
        (<[lit "room_alice_bob" :=
             {| room_id := lit "room_alice_bob";
                participants := [lit "alice"; lit "bob"];
                messages := [m1; m2] ++ [m1];
                createdAt := 0 |}]> store_alice_bob)
      = getUnreadCount k u store_alice_bob
      /\ forall limit,
           getMessages k limit
             (<[lit "room_alice_bob" :=
                  {| room_id := lit "room_alice_bob";
                     participants := [lit "alice"; lit "bob"];
                     messages := [m1; m2] ++ [m1];
                     createdAt := 0 |}]> store_alice_bob)
           = getMessages k limit store_alice_bob).
Proof.
  apply (addMessage_then_reads (lit "m1") 1 (lit "room_alice_bob") (lit "alice")
           (lit "Alice") (lit "bob") (lit "AAAA") store_alice_bob).
  unfold addMessage, store_alice_bob. rewrite lookup_insert_eq. reflexivity.
Defined.

Lemma mark_read_idempotent (u : jsstring) (msg : Message) :
  mark_read u (mark_read u msg) = mark_read u msg.
Proof.
  unfold mark_read.
  destruct (bool_decide (receiverId msg = u)) eqn:Hr; cbn [andb].
  - destruct (isRead msg) eqn:Hi; cbn [negb receiverId isRead];
      rewrite ?Hr, ?Hi; reflexivity.
  - now rewrite Hr.
Qed.

Lemma mark_read_unread_other (u u' : jsstring) (msg : Message) :
  u' <> u -> unread_for u' (mark_read u msg) = unread_for u' msg.
Proof.
  intros Hne. unfold mark_read, unread_for.
  destruct (bool_decide_reflect (receiverId msg = u)) as [Hr|Hr]; cbn [andb];
    [| reflexivity].
  destruct (isRead msg) eqn:Hi; cbn [negb receiverId isRead]; rewrite ?Hi;
    [reflexivity |].
  rewrite bool_decide_eq_false_2 by congruence. reflexivity.
Qed.

(** X3. [markMessagesAsRead] is idempotent, keeps the ids of the messages
    [getMessages] returns, and changes the unread count of no other user:
    marking for [u] leaves the count of every [u'] other than [u] as it was,
    in every room. *)
Theorem markMessagesAsRead_idempotent_and_private (roomId u : jsstring)
    (chatRooms : Store) :
  markMessagesAsRead roomId u (markMessagesAsRead roomId u chatRooms)
  = markMessagesAsRead roomId u chatRooms
  /\ (forall k u', u' <> u ->
      getUnreadCount k u' (markMessagesAsRead roomId u chatRooms)
      = getUnreadCount k u' chatRooms)
  /\ (forall k limit,
      map id (getMessages k limit (markMessagesAsRead roomId u chatRooms))
      = map id (getMessages k limit chatRooms)).
Proof.
  unfold markMessagesAsRead.
  destruct (chatRooms !! roomId) as [room|] eqn:Hroom.
  - split; [| split].
    + rewrite lookup_insert_eq. cbn [room_id participants messages createdAt].
      rewrite insert_insert_eq. do 2 f_equal.
      rewrite map_map. apply map_ext. intros m. apply mark_read_idempotent.
    + intros k u' Hne. unfold getUnreadCount.
      destruct (decide (k = roomId)) as [->|Hk].
      * rewrite lookup_insert_eq, Hroom. cbn [messages].
        fold (unread_for u').
        induction (messages room) as [|m l IH]; cbn [map List.filter];
          [reflexivity |].
        rewrite mark_read_unread_other by assumption.
        destruct (unread_for u' m); cbn [length]; [f_equal |]; apply IH.
      * now rewrite lookup_insert_ne by congruence.
    + intros k limit. unfold getMessages.
      destruct (decide (k = roomId)) as [->|Hk].
      * rewrite lookup_insert_eq, Hroom. cbn [messages]. unfold slice.
        rewrite length_map, <- !firstn_map, <- !skipn_map, map_map.
        do 2 f_equal. apply map_ext. intros m. apply mark_read_same.
      * now rewrite lookup_insert_ne by congruence.
  - rewrite Hroom. repeat split.
Qed.

End StoreComposition.

(** ** More on the REST handlers *)

Section HandlerComposition.

Import Route.

(** [GET], branch by branch. *)
Lemma GET_unfold (env : Env) (request : Request) (w : World) :
  GET env request w
  = match getServerSession env with
    | Throw _ => (Ok (server_error "Failed to fetch messages"), w)
    | Ok session =>
        if negb (truthy (session_user_id session)) then (Ok unauthorized, w)
        else if negb (truthy (searchParams_otherUserId request)) then
          (Ok (bad_request "Other user ID is required"), w)
        else
          let roomId :=
            Messages.getRoomId (default [] (session_user_id session))
              (default [] (searchParams_otherUserId request)) in
          (Ok {| body := JMessages (Messages.getMessages roomId None (chatRooms w))
                           roomId;
                 status := 200 |},
           {| chatRooms := chatRooms w;
              calls := calls w ++ [CallGetMessages roomId] |})
    end.
Proof.
  unfold GET, try_catch, mbind, lift, call_getMessages, record_call, mbind, ret.
  destruct (getServerSession env) as [session|e]; [| reflexivity].
  destruct (truthy (session_user_id session)); [| reflexivity].
  destruct (truthy (searchParams_otherUserId request)); reflexivity.
Qed.

(** X4. [GET] is read-only, whatever the request and the session: the store
    after it is the store before it (no room is created for a pair that has
    none), and it makes no call but, at most, one to [getMessages]. *)
Theorem GET_never_changes_the_store (env : Env) (request : Request) (w : World) :
  chatRooms (snd (GET env request w)) = chatRooms w
  /\ (calls (snd (GET env request w)) = calls w
      \/ exists roomId,
           calls (snd (GET env request w)) = calls w ++ [CallGetMessages roomId]).
Proof.
  rewrite GET_unfold.
  destruct (getServerSession env) as [session|e]; [| split; [reflexivity | now left]].
  destruct (truthy (session_user_id session)); [| split; [reflexivity | now left]].
  destruct (truthy (searchParams_otherUserId request));
    [| split; [reflexivity | now left]].
  cbn. split; [reflexivity |]. right. eexists. reflexivity.
Qed.

(** X5. For a session with a user id and a request that names another user,
    [GET] answers 200 with the id of the room of the two and the last 50
    messages of that room in the order of the room: all of them when the room
    holds at most 50, and none (still 200, and no room created) when the pair
    has no room. *)
Theorem GET_returns_the_last_fifty (env : Env) (request : Request) (w : World)
    (session : option Session) (userId otherUserId : jsstring) :
  getServerSession env = Ok session ->
  session_user_id session = Some userId -> userId <> [] ->
  searchParams_otherUserId request = Some otherUserId -> otherUserId <> [] ->
  exists messages,
    fst (GET env request w)
    = Ok {| body := JMessages messages (Messages.getRoomId userId otherUserId);
            status := 200 |}
    /\ messages
       = skipn (length (messages_of (Messages.getRoomId userId otherUserId) (chatRooms w))
                - 50)
           (messages_of (Messages.getRoomId userId otherUserId) (chatRooms w))
    /\ (length messages <= 50)%nat
    /\ chatRooms (snd (GET env request w)) = chatRooms w.
Proof.
  intros Hsession Hid Hne Hother Hne'. rewrite GET_unfold, Hsession, Hid, Hother.
  destruct userId as [|c userId]; [congruence |].
  destruct otherUserId as [|c' otherUserId]; [congruence |].
  cbn [truthy negb default fst snd chatRooms]. eexists. split; [reflexivity |].
  unfold Messages.getMessages, messages_of.
  destruct (chatRooms w !! _) as [room|]; [| repeat split; cbn; lia].
  rewrite (slice_from_end _ 50) by lia.
  change (Z.to_nat 50) with 50%nat. split; [reflexivity |].
  split; [rewrite length_skipn; lia | reflexivity].
Qed.

Lemma GET_returns_the_last_fifty_witness :
  exists messages,
    fst (GET alice_env post_hi {| chatRooms := store_alice_bob; calls := [] |})
    = Ok {| body := JMessages messages (Messages.getRoomId (lit "alice") (lit "bob"));
            status := 200 |}
    /\ messages
       = skipn (length (messages_of (Messages.getRoomId (lit "alice") (lit "bob"))
                          (chatRooms {| chatRooms := store_alice_bob; calls := [] |}))
                - 50)
           (messages_of (Messages.getRoomId (lit "alice") (lit "bob"))
              (chatRooms {| chatRooms := store_alice_bob; calls := [] |}))
    /\ (length messages <= 50)%nat
    /\ chatRooms (snd (GET alice_env post_hi
                         {| chatRooms := store_alice_bob; calls := [] |}))
       = chatRooms {| chatRooms := store_alice_bob; calls := [] |}.
Proof.
  apply (GET_returns_the_last_fifty alice_env post_hi
           {| chatRooms := store_alice_bob; calls := [] |} alice_session
           (lit "alice") (lit "bob")); try reflexivity; discriminate.
Defined.

(** [POST], branch by branch. *)
Lemma POST_unfold (env : Env) (request : Request) (w : World) :
  POST env request w
  = match getServerSession env with
    | Throw _ => (Ok (server_error "Failed to send message"), w)
    | Ok session =>
        if negb (truthy (session_user_id session)) then (Ok unauthorized, w)
        else
          match json request with
          | Throw _ => (Ok (server_error "Failed to send message"), w)
          | Ok b =>
              if negb (truthy (receiverId b)) || negb (truthy (encryptedContent b))
              then (Ok (bad_request "Receiver ID and encrypted content are required"), w)
              else
                let userId := default [] (session_user_id session) in
                let receiver := default [] (receiverId b) in
                let room :=
                  fst (Messages.getOrCreateRoom (now_room env) userId receiver
                         (chatRooms w)) in
                let rooms :=
                  snd (Messages.getOrCreateRoom (now_room env) userId receiver
                         (chatRooms w)) in
                match Messages.addMessage (uuidv4 env) (now_message env)
                        (Messages.room_id room) userId (session_user_name session)
                        receiver (default [] (encryptedContent b)) rooms with
                | Throw _ =>
                    (Ok (server_error "Failed to send message"),
                     {| chatRooms := rooms;
                        calls := calls w
                                 ++ post_calls (Messages.room_id room) userId receiver 2 |})
                | Ok (message, rooms') =>
                    match trigger_room env, trigger_user env with
                    | Throw _, _ =>
                        (Ok (server_error "Failed to send message"),
                         {| chatRooms := rooms';
                            calls := calls w
                                     ++ post_calls (Messages.room_id room) userId
                                          receiver 3 |})
                    | Ok _, Throw _ =>
                        (Ok (server_error "Failed to send message"),
                         {| chatRooms := rooms';
                            calls := calls w
                                     ++ post_calls (Messages.room_id room) userId
                                          receiver 4 |})
                    | Ok _, Ok _ =>
                        (Ok {| body := JMessage message; status := 200 |},
                         {| chatRooms := rooms';
                            calls := calls w
                                     ++ post_calls (Messages.room_id room) userId
                                          receiver 4 |})
                    end
                end
          end
    end.
Proof.
  unfold POST, try_catch, mbind, lift, call_getOrCreateRoom, call_addMessage,
    call_pusher_trigger, record_call, mbind, lift, ret, post_calls.
  destruct (getServerSession env) as [session|e]; [| reflexivity].
  destruct (truthy (session_user_id session)); [| reflexivity]. cbn [negb].
  destruct (json request) as [b|e]; [| reflexivity].
  destruct (negb (truthy (receiverId b)) || negb (truthy (encryptedContent b)));
    [reflexivity |].
  cbv zeta. cbn [chatRooms calls].
  destruct (Messages.getOrCreateRoom _ _ _ _) as [room rooms]. cbn [fst snd chatRooms calls].
  destruct (Messages.addMessage _ _ _ _ _ _ _ _) as [[message rooms']|e];
    cbn [chatRooms calls firstn]; rewrite <- ?app_assoc; cbn [app];
    [| reflexivity].
  destruct (trigger_room env), (trigger_user env); cbn [chatRooms calls];
    rewrite <- ?app_assoc; reflexivity.
Qed.

(** In a store that keeps rooms under their ids, storing a message for a pair
    never throws: the room of the pair is there after [getOrCreateRoom], and
    the message goes to its end. *)
Lemma getOrCreateRoom_then_addMessage (now1 now2 : Z)
    (uuid a b sname content : jsstring) (chatRooms : Messages.Store) :
  store_ok chatRooms ->
  let message :=
    {| Messages.id := uuid; Messages.senderId := a; Messages.senderName := sname;
       Messages.receiverId := b; Messages.encryptedContent := content;
       Messages.timestamp := now2; Messages.isRead := false |} in
  Messages.room_id (fst (Messages.getOrCreateRoom now1 a b chatRooms))
  = Messages.getRoomId a b
  /\ exists room',
       Messages.addMessage uuid now2 (Messages.getRoomId a b) a sname b content
         (snd (Messages.getOrCreateRoom now1 a b chatRooms))
       = Ok (message, <[Messages.getRoomId a b := room']> chatRooms)
       /\ Messages.room_id room' = Messages.getRoomId a b
       /\ Messages.messages room'
          = messages_of (Messages.getRoomId a b) chatRooms ++ [message]
       /\ Messages.participants room'
          = match chatRooms !! Messages.getRoomId a b with
            | Some room => Messages.participants room
            | None => [a; b]
            end.
Proof.
  intros Hok. cbv zeta.
  unfold Messages.getOrCreateRoom, Messages.addMessage, messages_of. cbv zeta.
  generalize (Messages.getRoomId a b). intros rid.
  destruct (chatRooms !! rid) as [room|] eqn:Hroom; cbn [fst snd].
  - split; [now apply Hok |]. rewrite Hroom. eexists. split; [reflexivity |].
    cbn. split; [now apply Hok | split; reflexivity].
  - split; [reflexivity |]. rewrite lookup_insert_eq. cbn [Messages.room_id
      Messages.participants Messages.messages Messages.createdAt].
    rewrite insert_insert_eq. eexists. split; [reflexivity |]. cbn. repeat split.
Qed.

(** X6. Let the store keep every room under its own id. For a session with a
    user id and a body with a receiver and a content, when both Pusher
    triggers succeed, [POST] answers 200 with the new message: its id is the
    uuid drawn, its sender and sender name are the session's (the body cannot
    choose them), its receiver and content are the body's, and it is unread.
    The store then holds the room of sender and receiver with that message
    after the messages it had (none if the room is new), every other room is
    as before, and the calls made are [getOrCreateRoom], [addMessage], the
    trigger on ["chat-" + room id] and the trigger on ["user-" + receiver],
    in this order. *)
Theorem POST_stores_and_announces (env : Env) (request : Request) (w : World)
    (session : option Session) (b : Body) (userId receiver content : jsstring) :
  store_ok (chatRooms w) ->
  getServerSession env = Ok session ->
  session_user_id session = Some userId -> userId <> [] ->
  json request = Ok b ->
  receiverId b = Some receiver -> receiver <> [] ->
  encryptedContent b = Some content -> content <> [] ->
  trigger_room env = Ok tt -> trigger_user env = Ok tt ->
  let roomId := Messages.getRoomId userId receiver in
  let message :=
    {| Messages.id := uuidv4 env; Messages.senderId := userId;
       Messages.senderName := session_user_name session;
       Messages.receiverId := receiver; Messages.encryptedContent := content;
       Messages.timestamp := now_message env; Messages.isRead := false |} in
  fst (POST env request w) = Ok {| body := JMessage message; status := 200 |}
  /\ messages_of roomId (chatRooms (snd (POST env request w)))
     = messages_of roomId (chatRooms w) ++ [message]
  /\ (forall k, k <> roomId ->
      chatRooms (snd (POST env request w)) !! k = chatRooms w !! k)
  /\ calls (snd (POST env request w))
     = calls w ++ [CallGetOrCreateRoom userId receiver;
                   CallAddMessage roomId userId receiver;
                   CallPusherTrigger (lit "chat-" ++ roomId) (lit "new-message");
                   CallPusherTrigger (lit "user-" ++ receiver) (lit "message-received")].
Proof.
  intros Hok Hsession Hid Hne Hjson Hr Hner Hc Hnec Ht1 Ht2. cbv zeta.
  rewrite POST_unfold, Hsession, Hid, Hjson, Hr, Hc, Ht1, Ht2.
  destruct userId as [|c0 userId]; [congruence |].
  destruct receiver as [|c1 receiver]; [congruence |].
  destruct content as [|c2 content]; [congruence |].
  cbn [truthy negb orb from_option]. unfold Datatypes.id. cbv zeta.
  destruct (getOrCreateRoom_then_addMessage (now_room env) (now_message env)
              (uuidv4 env) (c0 :: userId) (c1 :: receiver)
              (session_user_name session) (c2 :: content) (chatRooms w) Hok)
    as (Hrid & room' & Hadd & Hrid' & Hmsgs & _).
  rewrite Hrid, Hadd. cbn [fst snd chatRooms calls].
  split; [reflexivity |]. split; [| split].
  - unfold messages_of at 1. now rewrite lookup_insert_eq.
  - intros k Hk. now rewrite lookup_insert_ne by congruence.
  - reflexivity.
Qed.

Lemma POST_stores_and_announces_witness :
  let roomId := Messages.getRoomId (lit "alice") (lit "bob") in
  let message :=
    {| Messages.id := uuidv4 alice_env; Messages.senderId := lit "alice";
       Messages.senderName := session_user_name alice_session;
       Messages.receiverId := lit "bob"; Messages.encryptedContent := lit "aGk=";
       Messages.timestamp := now_message alice_env; Messages.isRead := false |} in
  fst (POST alice_env post_hi empty_world)
  = Ok {| body := JMessage message; status := 200 |}
  /\ messages_of roomId (chatRooms (snd (POST alice_env post_hi empty_world)))
     = messages_of roomId (chatRooms empty_world) ++ [message]
  /\ (forall k, k <> roomId ->
      chatRooms (snd (POST alice_env post_hi empty_world)) !! k
      = chatRooms empty_world !! k)
  /\ calls (snd (POST alice_env post_hi empty_world))
     = calls empty_world
       ++ [CallGetOrCreateRoom (lit "alice") (lit "bob");
           CallAddMessage roomId (lit "alice") (lit "bob");
           CallPusherTrigger (lit "chat-" ++ roomId) (lit "new-message");
           CallPusherTrigger (lit "user-" ++ lit "bob") (lit "message-received")].
Proof.
  apply (POST_stores_and_announces alice_env post_hi empty_world alice_session
           {| receiverId := Some (lit "bob"); encryptedContent := Some (lit "aGk=") |}
           (lit "alice") (lit "bob") (lit "aGk=")); try reflexivity; discriminate.
Defined.

(** X7. When a Pusher trigger throws, [POST] answers 500 "Failed to send
    message", and the message is in the store all the same: it was added
    before the trigger, and nothing takes it out again. *)
Theorem POST_keeps_the_message_when_Pusher_fails (env : Env) (request : Request)
    (w : World) (session : option Session) (b : Body)
    (userId receiver content : jsstring) :
  store_ok (chatRooms w) ->
  getServerSession env = Ok session ->
  session_user_id session = Some userId -> userId <> [] ->
  json request = Ok b ->
  receiverId b = Some receiver -> receiver <> [] ->
  encryptedContent b = Some content -> content <> [] ->
  (exists e, trigger_room env = Throw e)
  \/ (exists e, trigger_user env = Throw e) ->
  let roomId := Messages.getRoomId userId receiver in
  let message :=
    {| Messages.id := uuidv4 env; Messages.senderId := userId;
       Messages.senderName := session_user_name session;
       Messages.receiverId := receiver; Messages.encryptedContent := content;
       Messages.timestamp := now_message env; Messages.isRead := false |} in
  fst (POST env request w) = Ok (server_error "Failed to send message")
  /\ messages_of roomId (chatRooms (snd (POST env request w)))
     = messages_of roomId (chatRooms w) ++ [message].
Proof.
  intros Hok Hsession Hid Hne Hjson Hr Hner Hc Hnec Hfail. cbv zeta.
  rewrite POST_unfold, Hsession, Hid, Hjson, Hr, Hc.
  destruct userId as [|c0 userId]; [congruence |].
  destruct receiver as [|c1 receiver]; [congruence |].
  destruct content as [|c2 content]; [congruence |].
  cbn [truthy negb orb from_option]. unfold Datatypes.id. cbv zeta.
  destruct (getOrCreateRoom_then_addMessage (now_room env) (now_message env)
              (uuidv4 env) (c0 :: userId) (c1 :: receiver)
              (session_user_name session) (c2 :: content) (chatRooms w) Hok)
    as (Hrid & room' & Hadd & Hrid' & Hmsgs & _).
  rewrite Hrid, Hadd.
  assert (Hstored : messages_of (Messages.getRoomId (c0 :: userId) (c1 :: receiver))
                      (<[Messages.getRoomId (c0 :: userId) (c1 :: receiver) := room']>
                         (chatRooms w))
                    = messages_of (Messages.getRoomId (c0 :: userId) (c1 :: receiver))
                        (chatRooms w)
                      ++ [{| Messages.id := uuidv4 env;
                             Messages.senderId := c0 :: userId;
                             Messages.senderName := session_user_name session;
                             Messages.receiverId := c1 :: receiver;
                             Messages.encryptedContent := c2 :: content;
                             Messages.timestamp := now_message env;
                             Messages.isRead := false |}]).
  { unfold messages_of at 1. now rewrite lookup_insert_eq. }
  destruct Hfail as [[e He] | [e He]]; rewrite He.
  - cbn [fst snd chatRooms]. now split.
  - destruct (trigger_room env); cbn [fst snd chatRooms]; now split.
Qed.

Lemma POST_keeps_the_message_when_Pusher_fails_witness :
  let roomId := Messages.getRoomId (lit "alice") (lit "bob") in
  let message :=
    {| Messages.id := uuidv4 alice_env_pusher_down; Messages.senderId := lit "alice";
       Messages.senderName := session_user_name alice_session;
       Messages.receiverId := lit "bob"; Messages.encryptedContent := lit "aGk=";
       Messages.timestamp := now_message alice_env_pusher_down;
       Messages.isRead := false |} in
  fst (POST alice_env_pusher_down post_hi empty_world)
  = Ok (server_error "Failed to send message")
  /\ messages_of roomId (chatRooms (snd (POST alice_env_pusher_down post_hi empty_world)))
     = messages_of roomId (chatRooms empty_world) ++ [message].
Proof.
  apply (POST_keeps_the_message_when_Pusher_fails alice_env_pusher_down post_hi
           empty_world alice_session
           {| receiverId := Some (lit "bob"); encryptedContent := Some (lit "aGk=") |}
           (lit "alice") (lit "bob") (lit "aGk=")); try reflexivity; try discriminate.
  left. eexists. reflexivity.
Defined.

(** X8. Requests the handlers do not serve leave the world as it was. When
    the session lookup throws, both answer 500; with a user id in the
    session, [GET] without the other user's id answers 400, [POST] whose body
    cannot be read answers 500, and [POST] without a receiver or without a
    content (absent or empty) answers 400; in none of these cases is the
    store read or changed or Pusher triggered. *)
Theorem unserved_requests_touch_nothing (env : Env) (request : Request) (w : World) :
  (forall e, getServerSession env = Throw e ->
     GET env request w = (Ok (server_error "Failed to fetch messages"), w)
     /\ POST env request w = (Ok (server_error "Failed to send message"), w))
  /\ (forall session,
        getServerSession env = Ok session ->
        truthy (session_user_id session) = true ->
        (truthy (searchParams_otherUserId request) = false ->
         GET env request w = (Ok (bad_request "Other user ID is required"), w))
        /\ (forall e, json request = Throw e ->
            POST env request w = (Ok (server_error "Failed to send message"), w))
        /\ (forall b, json request = Ok b ->
            truthy (receiverId b) = false \/ truthy (encryptedContent b) = false ->
            POST env request w
            = (Ok (bad_request "Receiver ID and encrypted content are required"), w))).
Proof.
  split.
  - intros e He. rewrite GET_unfold, POST_unfold, He. split; reflexivity.
  - intros session Hsession Hid. rewrite GET_unfold, POST_unfold, Hsession, Hid.
    cbn [negb]. split; [| split].
    + intros ->. reflexivity.
    + intros e ->. reflexivity.
    + intros b -> [-> | ->]; cbn [negb orb]; rewrite ?orb_true_r; reflexivity.
Qed.

Lemma GET_chatRooms (env : Env) (request : Request) (w : World) :
  chatRooms (snd (GET env request w)) = chatRooms w.
Proof.
  rewrite GET_unfold.
  destruct (getServerSession env) as [session|e]; [| reflexivity].
  destruct (truthy (session_user_id session)); [| reflexivity].
  destruct (truthy (searchParams_otherUserId request)); reflexivity.
Qed.

Lemma routed_store_ok (chatRooms : Messages.Store) :
  routed chatRooms -> store_ok chatRooms.
Proof. intros Hr k room Hk. now apply Hr. Qed.

Lemma getOrCreateRoom_routed (now : Z) (a b : jsstring) (chatRooms : Messages.Store) :
  routed chatRooms -> routed (snd (Messages.getOrCreateRoom now a b chatRooms)).
Proof.
  intros Hr. unfold Messages.getOrCreateRoom. cbv zeta.
  destruct (chatRooms !! Messages.getRoomId a b) as [room|] eqn:Hroom; cbn [snd];
    [assumption |].
  intros k r. rewrite lookup_insert. case_decide as Hk; [| apply Hr].
  intros [= <-]. cbn. subst k. split; [reflexivity |]. split; [| constructor].
  exists a, b. now split.
Qed.

Lemma addMessage_routed (uuid : jsstring) (now : Z) (a b sname content : jsstring)
    (chatRooms chatRooms' : Messages.Store) (message : Messages.Message) :
  routed chatRooms ->
  Messages.addMessage uuid now (Messages.getRoomId a b) a sname b content chatRooms
  = Ok (message, chatRooms') ->
  routed chatRooms'.
Proof.
  intros Hr. unfold Messages.addMessage.
  destruct (chatRooms !! Messages.getRoomId a b) as [room|] eqn:Hroom;
    [| discriminate].
  intros [= <- <-] k r. rewrite lookup_insert. case_decide as Hk; [| apply Hr].
  intros [= <-]. cbn. subst k. destruct (Hr _ _ Hroom) as (Hid & Hp & Hm).
  split; [assumption |]. split; [assumption |].
  apply Forall_app. split; [assumption |]. constructor; [| constructor].
  cbn. now split.
Qed.



End HandlerComposition.

(** ** More on room ids *)

Lemma split_at_separator (x : Z) (l l' r r' : list Z) :
  ~ In x l -> ~ In x l' -> l ++ x :: r = l' ++ x :: r' -> l = l' /\ r = r'.
Proof.
  revert l'. induction l as [|a l IH]; intros [|a' l'] Hl Hl'; cbn [app].
  - intros [= ->]. now split.
  - intros [= <- _]. exfalso. apply Hl'. now left.
  - intros [= -> _]. exfalso. apply Hl. now left.
  - intros [= -> Heq]. destruct (IH l') as [-> ->]; auto.
    + intros H. apply Hl. now right.
    + intros H. apply Hl'. now right.
Qed.

(** X13. For user ids without ['_'] (such as the uuids the program gives its
    users), the room id determines the pair: two pairs with the same room id
    are the same pair, in one order or the other. So no two different pairs
    share a room, a room key or a Pusher channel. *)
Theorem getRoomId_determines_the_pair (a b c d : jsstring) :
  no_underscore a -> no_underscore b -> no_underscore c -> no_underscore d ->
  Crypto.getRoomId a b = Crypto.getRoomId c d
  \/ Messages.getRoomId a b = Messages.getRoomId c d ->
  (a = c /\ b = d) \/ (a = d /\ b = c).
Proof.
  intros Ha Hb Hc Hd Heq.
  assert (Heq' : lit "room_" ++ str_min a b ++ lit "_" ++ str_max a b
                 = lit "room_" ++ str_min c d ++ lit "_" ++ str_max c d).
  { destruct Heq as [Heq|Heq];
      unfold Crypto.getRoomId, Messages.getRoomId in Heq; cbv zeta in Heq;
      rewrite !sort_pair in Heq; exact Heq. }
  apply app_inv_head in Heq'. change (lit "_") with [95] in Heq'. cbn [app] in Heq'.
  assert (Hmin : forall x y, no_underscore x -> no_underscore y ->
                             no_underscore (str_min x y)).
  { intros x y Hx Hy. unfold str_min. now destruct (str_lt y x). }
  apply split_at_separator in Heq' as [Hlo Hhi]; [| now apply Hmin | now apply Hmin].
  destruct (str_min_max_cases a b) as [[Ha1 Ha2] | [Ha1 Ha2]],
           (str_min_max_cases c d) as [[Hc1 Hc2] | [Hc1 Hc2]];
    rewrite Ha1, Hc1 in Hlo; rewrite Ha2, Hc2 in Hhi; subst; auto.
Qed.

Lemma getRoomId_determines_the_pair_witness :
  (lit "bob" = lit "alice" /\ lit "alice" = lit "bob")
  \/ (lit "bob" = lit "bob" /\ lit "alice" = lit "alice").
Proof.
  apply (getRoomId_determines_the_pair (lit "bob") (lit "alice") (lit "alice")
           (lit "bob")).
  - unfold no_underscore. cbn. intuition discriminate.
  - unfold no_underscore. cbn. intuition discriminate.
  - unfold no_underscore. cbn. intuition discriminate.
  - unfold no_underscore. cbn. intuition discriminate.
  - left. reflexivity.
Defined.

(** With ['_'] in an id the room id no longer tells the pairs apart. *)
Example underscore_ids_share_a_room :
  Messages.getRoomId (lit "a_b") (lit "c") = Messages.getRoomId (lit "a") (lit "b_c").
Proof. reflexivity. Qed.

(** ** More on base64 and the envelope *)

Lemma encoded_length_exact (bs : list Z) :
  (length (sextets bs) + length (padding (length bs))
   = 4 * ((length bs + 2) / 3))%nat.
Proof.
  induction bs as [| a | a b | a b c bs IH] using list_triple_ind.
  - reflexivity.
  - reflexivity.
  - reflexivity.
  - cbn [sextets length]. unfold padding in *. rewrite mod3_step.
    replace (S (S (S (length bs))) + 2)%nat with (length bs + 2 + 1 * 3)%nat by lia.
    rewrite Nat.div_add by lia. lia.
Qed.

Lemma encoded_chars (bs : list Z) :
  Forall is_byte bs ->
  Forall is_base64_char (map b64_char (sextets bs) ++ padding (length bs)).
Proof.
  intros Hbs. apply Forall_app. split.
  - pose proof (sextets_are_sextets bs Hbs) as Hvs.
    induction Hvs as [|v vs Hv _ IH]; constructor; [| assumption].
    left. destruct (b64_char_facts v Hv) as (-> & _). now eexists.
  - destruct (padding_cases (length bs)) as [-> | [-> | ->]];
      repeat constructor; now right.
Qed.

(** X10. For every buffer, [arrayBufferToBase64] returns (it never throws) a
    text of four characters for every three bytes begun, made of the base64
    alphabet and ['='] only, and [base64ToArrayBuffer] turns that text back
    into the same buffer. *)
Theorem buffer_base64_round_trip (buffer : list Byte.byte) :
  exists base64,
    Crypto.arrayBufferToBase64 buffer = Ok base64
    /\ Crypto.base64ToArrayBuffer base64 = Ok buffer
    /\ length base64 = (4 * ((length buffer + 2) / 3))%nat
    /\ Forall is_base64_char base64.
Proof.
  destruct (base64ToArrayBuffer_arrayBufferToBase64 buffer) as (base64 & Henc & Hdec).
  exists base64. split; [assumption |]. split; [assumption |].
  unfold Crypto.arrayBufferToBase64 in Henc. cbv zeta in Henc.
  rewrite binary_of_buffer in Henc. cbn [app] in Henc.
  unfold btoa in Henc.
  destruct (forallb _ _); [| discriminate]. injection Henc as <-. split.
  - rewrite length_app, length_map, encoded_length_exact. now rewrite length_map.
  - apply encoded_chars, Forall_is_byte_bytes.
Qed.

Lemma In_strip_padding (c : Z) (s : jsstring) :
  In c s -> c <> 61 -> In c (strip_padding s).
Proof.
  intros Hin Hc. unfold strip_padding.
  destruct (rev s) as [|c1 r] eqn:Hrev; [assumption |].
  destruct (Z.eqb_spec c1 61) as [-> | _]; [| assumption].
  assert (Hs : s = rev r ++ [61]).
  { rewrite <- (rev_involutive s), Hrev. reflexivity. }
  assert (Hr : In c (rev r)).
  { rewrite Hs in Hin. apply in_app_or in Hin as [H | [H | []]]; congruence. }
  destruct r as [|c2 r']; [assumption |].
  destruct (Z.eqb_spec c2 61) as [-> | _]; [| assumption].
  cbn [rev] in Hr. apply in_app_or in Hr as [H | [H | []]]; congruence.
Qed.

Lemma b64_values_None (c : Z) (s : jsstring) :
  In c s -> b64_value c = None -> b64_values s = None.
Proof.
  induction s as [|x s IH]; [intros [] |].
  intros [-> | Hin] Hc; cbn [b64_values].
  - now rewrite Hc.
  - rewrite (IH Hin Hc). now destruct (b64_value x).
Qed.

(** [atob] throws on a text that holds a character outside base64. *)
Lemma atob_rejects (data : jsstring) (c : Z) :
  In c data -> not_base64 c -> atob data = Throw InvalidCharacterError.
Proof.
  intros Hin (Hws & H61 & Hval). unfold atob. cbv zeta.
  set (d1 := List.filter (fun c => negb (ascii_whitespace c)) data).
  assert (H1 : In c d1).
  { apply filter_In. split; [assumption | now rewrite Hws]. }
  set (d2 := if (length d1 mod 4 =? 0)%nat then strip_padding d1 else d1).
  assert (H2 : In c d2).
  { unfold d2. destruct (length d1 mod 4 =? 0)%nat; [| assumption].
    now apply In_strip_padding. }
  destruct (length d2 mod 4 =? 1)%nat; [reflexivity |].
  now rewrite (b64_values_None c d2 H2 Hval).
Qed.

Section CipherComposition.

Variable CryptoKey : Type.
Variable pbkdf2_sha256 : list Byte.byte -> list Byte.byte -> Z -> CryptoKey.
Variable aes_gcm_encrypt : CryptoKey -> list Byte.byte -> list Byte.byte -> list Byte.byte.
Variable aes_gcm_decrypt : CryptoKey -> list Byte.byte -> list Byte.byte -> option (list Byte.byte).

Local Abbreviation deriveKeyFromRoom := (Crypto.deriveKeyFromRoom CryptoKey pbkdf2_sha256).
Local Abbreviation encryptForRoom :=
  (Crypto.encryptForRoom CryptoKey pbkdf2_sha256 aes_gcm_encrypt).
Local Abbreviation decryptFromRoom :=
  (Crypto.decryptFromRoom CryptoKey pbkdf2_sha256 aes_gcm_decrypt).
Local Abbreviation encryptFor :=
  (Crypto.encryptFor CryptoKey pbkdf2_sha256 aes_gcm_encrypt).
Local Abbreviation decryptFrom :=
  (Crypto.decryptFrom CryptoKey pbkdf2_sha256 aes_gcm_decrypt).
Local Abbreviation decryptMessage :=
  (fun currentUser_id => ChatWindow.decryptMessage currentUser_id decryptFromRoom).

(** X11. An envelope that holds a character outside base64 (not of the
    alphabet, not ['='], not white space) makes [decryptFromRoom] throw an
    InvalidCharacterError, whatever the cipher and the user ids, and a
    message with such an envelope and no decrypted content comes out of the
    chat window's [decryptMessage] marked [decryptionFailed], its other
    fields untouched: it is shown as undecryptable, nothing is thrown on. *)
Theorem decryptFromRoom_rejects_non_base64 (encryptedData u1 u2 : jsstring) (c : Z) :
  In c encryptedData -> not_base64 c ->
  decryptFromRoom encryptedData u1 u2 = Throw InvalidCharacterError
  /\ forall currentUser_id msg,
       ChatWindow.encryptedContent msg = encryptedData ->
       truthy (ChatWindow.decryptedContent msg) = false ->
       ChatWindow.decryptionFailed (decryptMessage currentUser_id msg) = Some true
       /\ ChatWindow.decryptedContent (decryptMessage currentUser_id msg)
          = ChatWindow.decryptedContent msg
       /\ ChatWindow.id (decryptMessage currentUser_id msg) = ChatWindow.id msg
       /\ ChatWindow.encryptedContent (decryptMessage currentUser_id msg)
          = ChatWindow.encryptedContent msg.
Proof.
  intros Hin Hc.
  assert (Hthrow : forall v1 v2,
            decryptFromRoom encryptedData v1 v2 = Throw InvalidCharacterError).
  { intros v1 v2. unfold Crypto.decryptFromRoom, Crypto.base64ToArrayBuffer.
    cbv zeta. now rewrite (atob_rejects encryptedData c Hin Hc). }
  split; [apply Hthrow |].
  intros currentUser_id msg Henv Hnone. unfold ChatWindow.decryptMessage.
  rewrite Hnone, Henv, Hthrow. cbn. repeat split.
Qed.

(** X12. [encryptForRoom] never throws: for every IV, plaintext and pair of
    ids it returns an envelope, and the envelope decodes to the IV followed
    by the platform's ciphertext of the UTF-8 plaintext under the key derived
    from the room id. The order of the two ids does not matter: both
    participants build the same envelope from the same IV. *)
Theorem encryptForRoom_envelope (iv : list Byte.byte) (m u1 u2 : jsstring) :
  exists envelope,
    encryptForRoom iv m u1 u2 = Ok envelope
    /\ encryptForRoom iv m u2 u1 = Ok envelope
    /\ Crypto.base64ToArrayBuffer envelope
       = Ok (iv ++ aes_gcm_encrypt (deriveKeyFromRoom (Crypto.getRoomId u1 u2)) iv
                     (Crypto.stringToArrayBuffer m)).
Proof.
  unfold Crypto.encryptForRoom. cbv zeta. rewrite (getRoomId_symmetric u2 u1).
  destruct (base64ToArrayBuffer_arrayBufferToBase64
              (iv ++ aes_gcm_encrypt (deriveKeyFromRoom (Crypto.getRoomId u1 u2)) iv
                       (Crypto.stringToArrayBuffer m)))
    as (envelope & Henc & Hdec).
  exists envelope. now repeat split.
Qed.

(** X14. Let the cipher decrypt what it encrypted. A stored message whose
    content is the envelope the sender made with [encryptForRoom] for the
    receiver (plaintext without a surrogate on its own and without a leading
    U+FEFF, IV of twelve bytes) is decrypted by the chat window's
    [decryptMessage] to that plaintext both for the sender and for the
    receiver: each picks the other participant as the second id of the room
    and gets the same room. The message keeps its id and is not marked
    failed. *)
Theorem decryptMessage_reads_for_both (iv : list Byte.byte)
    (m envelope : jsstring) (msg : ChatWindow.Message) :
  decrypts_own aes_gcm_encrypt aes_gcm_decrypt ->
  length iv = 12%nat ->
  well_formed m = true -> starts_with_bom m = false ->
  encryptForRoom iv m (ChatWindow.senderId msg) (ChatWindow.receiverId msg)
  = Ok envelope ->
  ChatWindow.encryptedContent msg = envelope ->
  truthy (ChatWindow.decryptedContent msg) = false ->
  forall currentUser_id,
    currentUser_id = ChatWindow.senderId msg
    \/ currentUser_id = ChatWindow.receiverId msg ->
    ChatWindow.decryptedContent (decryptMessage currentUser_id msg) = Some m
    /\ ChatWindow.decryptionFailed (decryptMessage currentUser_id msg)
       = ChatWindow.decryptionFailed msg
    /\ ChatWindow.id (decryptMessage currentUser_id msg) = ChatWindow.id msg.
Proof.
  intros Hown Hiv Hwf Hbom Henc Henv Hnone currentUser_id Hwho.
  set (sender := ChatWindow.senderId msg) in *.
  set (receiver := ChatWindow.receiverId msg) in *.
  assert (Hdec : decryptFromRoom envelope sender receiver = Ok m
                 /\ decryptFromRoom envelope receiver sender = Ok m).
  { destruct (decryptFromRoom_encryptForRoom _ pbkdf2_sha256 aes_gcm_encrypt
                aes_gcm_decrypt iv m sender receiver sender receiver Hiv)
      as (envelope' & Henc' & Hdec').
    assert (envelope' = envelope) by congruence. subst envelope'.
    rewrite Hown, TextDecoder_decode_encode in Hdec' by assumption.
    split; [assumption |].
    unfold Crypto.decryptFromRoom in *. cbv zeta in *.
    now rewrite (getRoomId_symmetric receiver sender). }
  destruct Hdec as [Hs Hr].
  unfold ChatWindow.decryptMessage. rewrite Hnone, Henv.
  fold sender receiver.
  destruct (bool_decide_reflect (sender = currentUser_id)) as [Heq | Hne].
  - subst currentUser_id. rewrite Hs. cbn. repeat split.
  - destruct Hwho as [-> | ->]; [congruence |]. rewrite Hr. cbn. repeat split.
Qed.

(** X15. Let the cipher decrypt what it encrypted. What the [CryptoManager]
    of one user encrypts for another (plaintext without a surrogate on its
    own and without a leading U+FEFF, IV of twelve bytes), the
    [CryptoManager] of that other user decrypts, naming the first as sender,
    to the plaintext; and so does the manager that encrypted it. *)
Theorem CryptoManager_round_trip (iv : list Byte.byte) (m : jsstring)
    (alice bob : Crypto.CryptoManager) :
  decrypts_own aes_gcm_encrypt aes_gcm_decrypt ->
  length iv = 12%nat ->
  well_formed m = true -> starts_with_bom m = false ->
  exists envelope,
    encryptFor alice iv m (Crypto.userId bob) = Ok envelope
    /\ decryptFrom bob envelope (Crypto.userId alice) = Ok m
    /\ decryptFrom alice envelope (Crypto.userId bob) = Ok m.
Proof.
  intros Hown Hiv Hwf Hbom. unfold Crypto.encryptFor, Crypto.decryptFrom.
  destruct (decryptFromRoom_encryptForRoom _ pbkdf2_sha256 aes_gcm_encrypt
              aes_gcm_decrypt iv m (Crypto.userId alice) (Crypto.userId bob)
              (Crypto.userId alice) (Crypto.userId bob) Hiv)
    as (envelope & Henc & Hdec).
  rewrite Hown, TextDecoder_decode_encode in Hdec by assumption.
  exists envelope. split; [assumption |]. split; [| assumption].
  unfold Crypto.decryptFromRoom in *. cbv zeta in *.
  now rewrite (getRoomId_symmetric (Crypto.userId bob) (Crypto.userId alice)).
Qed.

End CipherComposition.

Lemma decryptFromRoom_rejects_non_base64_witness :
  Crypto.decryptFromRoom _ Tagging.pbkdf2_sha256 Tagging.decrypt (lit "not*base64")
    (lit "bob") (lit "alice") = Throw InvalidCharacterError
  /\ forall currentUser_id msg,
       ChatWindow.encryptedContent msg = lit "not*base64" ->
       truthy (ChatWindow.decryptedContent msg) = false ->
       ChatWindow.decryptionFailed
         (ChatWindow.decryptMessage currentUser_id
            (Crypto.decryptFromRoom _ Tagging.pbkdf2_sha256 Tagging.decrypt) msg)
       = Some true
       /\ ChatWindow.decryptedContent
            (ChatWindow.decryptMessage currentUser_id
               (Crypto.decryptFromRoom _ Tagging.pbkdf2_sha256 Tagging.decrypt) msg)
          = ChatWindow.decryptedContent msg
       /\ ChatWindow.id
            (ChatWindow.decryptMessage currentUser_id
               (Crypto.decryptFromRoom _ Tagging.pbkdf2_sha256 Tagging.decrypt) msg)
          = ChatWindow.id msg
       /\ ChatWindow.encryptedContent
            (ChatWindow.decryptMessage currentUser_id
               (Crypto.decryptFromRoom _ Tagging.pbkdf2_sha256 Tagging.decrypt) msg)
          = ChatWindow.encryptedContent msg.
Proof.
  apply (decryptFromRoom_rejects_non_base64 _ Tagging.pbkdf2_sha256 Tagging.decrypt
           (lit "not*base64") (lit "bob") (lit "alice") 42).
  - cbn. tauto.
  - repeat split. discriminate.
Defined.

Lemma decryptMessage_reads_for_both_witness :
  ChatWindow.decryptedContent
    (ChatWindow.decryptMessage (lit "bob")
       (Crypto.decryptFromRoom _ Tagging.pbkdf2_sha256 Tagging.decrypt) sealed_hi)
  = Some (lit "hi")
  /\ ChatWindow.decryptionFailed
       (ChatWindow.decryptMessage (lit "bob")
          (Crypto.decryptFromRoom _ Tagging.pbkdf2_sha256 Tagging.decrypt) sealed_hi)
     = ChatWindow.decryptionFailed sealed_hi
  /\ ChatWindow.id
       (ChatWindow.decryptMessage (lit "bob")
          (Crypto.decryptFromRoom _ Tagging.pbkdf2_sha256 Tagging.decrypt) sealed_hi)
     = ChatWindow.id sealed_hi.
Proof.
  apply (decryptMessage_reads_for_both _ Tagging.pbkdf2_sha256 Tagging.encrypt
           Tagging.decrypt iv0 (lit "hi") (ChatWindow.encryptedContent sealed_hi)
           sealed_hi tagging_decrypts_own);
    try reflexivity.
  right. reflexivity.
Defined.

Lemma CryptoManager_round_trip_witness :
  exists envelope,
    Crypto.encryptFor _ Tagging.pbkdf2_sha256 Tagging.encrypt alice_crypto iv0
      (lit "hi") (Crypto.userId bob_crypto) = Ok envelope
    /\ Crypto.decryptFrom _ Tagging.pbkdf2_sha256 Tagging.decrypt bob_crypto envelope
         (Crypto.userId alice_crypto) = Ok (lit "hi")
    /\ Crypto.decryptFrom _ Tagging.pbkdf2_sha256 Tagging.decrypt alice_crypto envelope
         (Crypto.userId bob_crypto) = Ok (lit "hi").
Proof.
  apply (CryptoManager_round_trip _ Tagging.pbkdf2_sha256 Tagging.encrypt
           Tagging.decrypt iv0 (lit "hi") alice_crypto bob_crypto
           tagging_decrypts_own);
    reflexivity.
Defined.

(** ** From the sender's text to the receiver's list *)

Lemma arrayBufferToBase64_length (buffer : list Byte.byte) (base64 : jsstring) :
  Crypto.arrayBufferToBase64 buffer = Ok base64 ->
  length base64 = (4 * ((length buffer + 2) / 3))%nat.
Proof.
  unfold Crypto.arrayBufferToBase64. cbv zeta. rewrite binary_of_buffer. cbn [app].
  unfold btoa. destruct (forallb _ _); [| discriminate]. intros [= <-].
  rewrite length_app, length_map, encoded_length_exact. now rewrite length_map.
Qed.

Lemma POST_appends (env : Route.Env) (request : Route.Request) (w : Route.World)
    (session : option Route.Session) (userId receiver content : jsstring) :
  store_ok (Route.chatRooms w) ->
  Route.getServerSession env = Ok session ->
  Route.session_user_id session = Some userId -> userId <> [] ->
  Route.json request
  = Ok {| Route.receiverId := Some receiver; Route.encryptedContent := Some content |} ->
  receiver <> [] -> content <> [] ->
  messages_of (Messages.getRoomId userId receiver)
    (Route.chatRooms (snd (Route.POST env request w)))
  = messages_of (Messages.getRoomId userId receiver) (Route.chatRooms w)
    ++ [{| Messages.id := Route.uuidv4 env; Messages.senderId := userId;
           Messages.senderName := Route.session_user_name session;
           Messages.receiverId := receiver; Messages.encryptedContent := content;
           Messages.timestamp := Route.now_message env; Messages.isRead := false |}].
Proof.
  intros Hok Hsession Hid Hne Hjson Hner Hnec.
  rewrite POST_unfold, Hsession, Hid, Hjson.
  destruct userId as [|c0 userId]; [congruence |].
  destruct receiver as [|c1 receiver]; [congruence |].
  destruct content as [|c2 content]; [congruence |].
  cbn [truthy negb orb from_option Route.receiverId Route.encryptedContent].
  unfold Datatypes.id. cbv zeta.
  destruct (getOrCreateRoom_then_addMessage (Route.now_room env) (Route.now_message env)
              (Route.uuidv4 env) (c0 :: userId) (c1 :: receiver)
              (Route.session_user_name session) (c2 :: content) (Route.chatRooms w) Hok)
    as (Hrid & room' & Hadd & Hrid' & Hmsgs & _).
  rewrite Hrid, Hadd.
  assert (Hstored : messages_of (Messages.getRoomId (c0 :: userId) (c1 :: receiver))
                      (<[Messages.getRoomId (c0 :: userId) (c1 :: receiver) := room']>
                         (Route.chatRooms w))
                    = Messages.messages room').
  { unfold messages_of. now rewrite lookup_insert_eq. }
  destruct (Route.trigger_room env), (Route.trigger_user env);
    cbn [fst snd Route.chatRooms]; now rewrite Hstored, Hmsgs.
Qed.

Lemma getMessages_default_last (roomId : jsstring) (chatRooms : Messages.Store)
    (older : list Messages.Message) (message : Messages.Message) :
  messages_of roomId chatRooms = older ++ [message] ->
  exists older',
    Messages.getMessages roomId None chatRooms = older' ++ [message].
Proof.
  unfold messages_of, Messages.getMessages.
  destruct (chatRooms !! roomId) as [room|]; [| now destruct older].
  intros ->. cbn [default from_option]. 
  rewrite (slice_from_end _ 50) by lia. rewrite length_app. cbn [length].
  change (Z.to_nat 50) with 50%nat.
  replace (length older + 1 - 50)%nat with (length older - 49)%nat by lia.
  rewrite drop_app_le by lia. now eexists.
Qed.

Section EndToEnd.

Variable CryptoKey : Type.
Variable pbkdf2_sha256 : list Byte.byte -> list Byte.byte -> Z -> CryptoKey.
Variable aes_gcm_encrypt : CryptoKey -> list Byte.byte -> list Byte.byte -> list Byte.byte.
Variable aes_gcm_decrypt : CryptoKey -> list Byte.byte -> list Byte.byte -> option (list Byte.byte).

Local Abbreviation encryptForRoom :=
  (Crypto.encryptForRoom CryptoKey pbkdf2_sha256 aes_gcm_encrypt).
Local Abbreviation decryptFromRoom :=
  (Crypto.decryptFromRoom CryptoKey pbkdf2_sha256 aes_gcm_decrypt).

Lemma encryptForRoom_read_by_both (iv : list Byte.byte) (text a b envelope : jsstring) :
  decrypts_own aes_gcm_encrypt aes_gcm_decrypt ->
  length iv = 12%nat -> well_formed text = true -> starts_with_bom text = false ->
  encryptForRoom iv text a b = Ok envelope ->
  decryptFromRoom envelope a b = Ok text
  /\ decryptFromRoom envelope b a = Ok text
  /\ envelope <> [].
Proof.
  intros Hown Hiv Hwf Hbom Henc.
  destruct (decryptFromRoom_encryptForRoom _ pbkdf2_sha256 aes_gcm_encrypt
              aes_gcm_decrypt iv text a b a b Hiv) as (envelope' & Henc' & Hdec').
  assert (envelope' = envelope) by congruence. subst envelope'.
  rewrite Hown, TextDecoder_decode_encode in Hdec' by assumption.
  split; [assumption |]. split.
  - unfold Crypto.decryptFromRoom in *. cbv zeta in *.
    now rewrite (getRoomId_symmetric b a).
  - unfold Crypto.encryptForRoom in Henc. cbv zeta in Henc.
    apply arrayBufferToBase64_length in Henc. rewrite length_app, Hiv in Henc.
    intros ->. cbn [length] in Henc.
    assert (1 <= (12 + length (aes_gcm_encrypt
                                 (Crypto.deriveKeyFromRoom CryptoKey pbkdf2_sha256
                                    (Crypto.getRoomId a b)) iv
                                 (Crypto.stringToArrayBuffer text)) + 2) / 3)%nat.
    { apply Nat.div_le_lower_bound; lia. }
    lia.
Qed.

(** X20. Let the cipher decrypt what it encrypted. A user seals a text
    (without a surrogate on its own and without a leading U+FEFF, IV of
    twelve bytes) with [encryptForRoom] for a receiver and posts the envelope;
    whether or not Pusher fails then, a GET of the receiver for the
    conversation with the sender answers 200 with the messages of their room,
    and [fetchMessages] of the receiver's chat window puts them in its list,
    the last one being the posted message, with the id the server gave it,
    decrypted to the text and not marked failed. *)
Theorem posted_text_is_read_by_the_receiver
    (iv : list Byte.byte) (text envelope a b : jsstring)
    (env_a env_b : Route.Env) (post get : Route.Request) (w : Route.World)
    (session_a session_b : option Route.Session) (st : ChatWindow.State) :
  decrypts_own aes_gcm_encrypt aes_gcm_decrypt ->
  length iv = 12%nat -> well_formed text = true -> starts_with_bom text = false ->
  encryptForRoom iv text a b = Ok envelope ->
  store_ok (Route.chatRooms w) ->
  Route.getServerSession env_a = Ok session_a ->
  Route.session_user_id session_a = Some a -> a <> [] ->
  Route.json post
  = Ok {| Route.receiverId := Some b; Route.encryptedContent := Some envelope |} ->
  Route.getServerSession env_b = Ok session_b ->
  Route.session_user_id session_b = Some b -> b <> [] ->
  Route.searchParams_otherUserId get = Some a ->
  exists data_messages,
    fst (Route.GET env_b get (snd (Route.POST env_a post w)))
    = Ok {| Route.body := Route.JMessages data_messages (Messages.getRoomId a b);
            Route.status := 200 |}
    /\ exists shown m,
         ChatWindow.messages
           (ChatWindow.fetchMessages b decryptFromRoom
              (Ok (Route.JMessages data_messages (Messages.getRoomId a b))) st)
         = shown ++ [m]
         /\ length shown = (length data_messages - 1)%nat
         /\ ChatWindow.id m = Route.uuidv4 env_a
         /\ ChatWindow.senderId m = a
         /\ ChatWindow.encryptedContent m = envelope
         /\ ChatWindow.decryptedContent m = Some text
         /\ ChatWindow.decryptionFailed m = None.
Proof.
  intros Hown Hiv Hwf Hbom Henc Hok Hsa Hida Hnea Hjson Hsb Hidb Hneb Hget.
  destruct (encryptForRoom_read_by_both iv text a b envelope Hown Hiv Hwf Hbom Henc)
    as (Hab & Hba & Hnee).
  pose proof (POST_appends env_a post w session_a a b envelope Hok Hsa Hida Hnea
                Hjson Hneb Hnee) as Hposted.
  apply getMessages_default_last in Hposted. destruct Hposted as [older Hread].
  rewrite GET_unfold, Hsb, Hidb, Hget.
  destruct a as [|c0 a]; [congruence |]. destruct b as [|c1 b]; [congruence |].
  cbn [truthy negb from_option]. unfold Datatypes.id. cbv zeta. cbn [fst].
  rewrite (getRoomId_swap (c1 :: b) (c0 :: a)), Hread.
  eexists. split; [reflexivity |].
  cbn [ChatWindow.fetchMessages ChatWindow.messages].
  unfold ChatWindow.decryptMessages. rewrite !map_app. cbn [map].
  eexists _, _. split; [reflexivity |].
  split; [rewrite !length_map, length_app; cbn [length]; lia |].
  unfold ChatWindow.decryptMessage.
  cbn [ChatWindow.of_store ChatWindow.decryptedContent truthy ChatWindow.senderId
       ChatWindow.receiverId ChatWindow.encryptedContent Messages.senderId
       Messages.receiverId Messages.encryptedContent Messages.id].
  destruct (bool_decide_reflect (c0 :: a = c1 :: b)) as [Heq | Hne].
  - rewrite Heq in Hba |- *. rewrite Hba. cbn. repeat split.
  - rewrite Hba. cbn. repeat split.
Qed.

End EndToEnd.

Lemma posted_text_is_read_by_the_receiver_witness :
  exists data_messages,
    fst (Route.GET bob_env get_alice
           (snd (Route.POST alice_env_pusher_down post_sealed_hi empty_world)))
    = Ok {| Route.body :=
              Route.JMessages data_messages
                (Messages.getRoomId (lit "alice") (lit "bob"));
            Route.status := 200 |}
    /\ exists shown m,
         ChatWindow.messages
           (ChatWindow.fetchMessages (lit "bob")
              (Crypto.decryptFromRoom _ Tagging.pbkdf2_sha256 Tagging.decrypt)
              (Ok (Route.JMessages data_messages
                     (Messages.getRoomId (lit "alice") (lit "bob"))))
              idle)
         = shown ++ [m]
         /\ length shown = (length data_messages - 1)%nat
         /\ ChatWindow.id m = Route.uuidv4 alice_env_pusher_down
         /\ ChatWindow.senderId m = lit "alice"
         /\ ChatWindow.encryptedContent m = ChatWindow.encryptedContent sealed_hi
         /\ ChatWindow.decryptedContent m = Some (lit "hi")
         /\ ChatWindow.decryptionFailed m = None.
Proof.
  apply (posted_text_is_read_by_the_receiver _ Tagging.pbkdf2_sha256 Tagging.encrypt
           Tagging.decrypt iv0 (lit "hi") (ChatWindow.encryptedContent sealed_hi)
           (lit "alice") (lit "bob") alice_env_pusher_down bob_env post_sealed_hi
           get_alice empty_world alice_session
           (Some {| Route.user := Some {| Route.id := Some (lit "bob");
                                          Route.name := lit "Bob" |} |})
           idle tagging_decrypts_own);
    try reflexivity; discriminate.
Defined.

(** ** The socket relay and the socket side of the chat window *)

Section Relay.

Import SocketClient Server.

Lemma elem_of_in_room (roomId s : jsstring) (st : State) :
  s ∈ in_room roomId st
  <-> exists socket, sockets st !! s = Some socket /\ roomId ∈ rooms socket.
Proof.
  unfold in_room. rewrite elem_of_dom. split.
  - intros [socket [H1 H2]%map_lookup_filter_Some]. now exists socket.
  - intros (socket & H1 & H2). exists socket. now apply map_lookup_filter_Some.
Qed.

Lemma ChatWindow_getRoomId_symmetric (a b : jsstring) :
  ChatWindow.getRoomId a b = ChatWindow.getRoomId b a.
Proof.
  unfold ChatWindow.getRoomId.
  now rewrite (sort_pair a b), (sort_pair b a), (str_min_comm a b), (str_max_comm a b).
Qed.

Lemma not_blank_truthy (newMessage : jsstring) :
  forallb ChatWindow.is_trimmed newMessage = false -> truthy (Some newMessage) = true.
Proof. now destruct newMessage. Qed.

(** X16. What [sendMessage] of the chat window hands to the socket is the
    message with the text typed in [decryptedContent]. Let any connected
    socket have emitted the ['join-room'] that the chat window of the other
    user emits (the server does not ask who the socket is). When the sender's
    socket is connected, the server takes the ['stop-typing'] and the
    ['send-message'] without changing its state and addresses a
    ['new-message'] with that same message, text included, to a set of
    sockets that holds the listener; and [decryptMessage] of any chat window
    returns this message as it is, whatever the cipher does. *)
Theorem sent_text_reaches_the_room_in_clear
    (a b newMessage sender listener : jsstring)
    (data_message : Messages.Message) (st : State) :
  forallb ChatWindow.is_trimmed newMessage = false ->
  is_Some (sockets st !! sender) ->
  is_Some (sockets st !! listener) ->
  let joined :=
    fst (run st (map (Receive listener) (ChatWindow.effect_joins b a true))) in
  let emits :=
    ChatWindow.sendMessage_emits a b true true newMessage (Ok data_message) in
  exists stopped recipients message,
    run joined (map (Receive sender) emits)
    = (joined, [stopped; {| to := recipients; event := NewMessage message |}])
    /\ listener ∈ recipients
    /\ ChatWindow.decryptedContent message = Some newMessage
    /\ ChatWindow.id message = Messages.id data_message
    /\ ChatWindow.encryptedContent message = Messages.encryptedContent data_message
    /\ forall c decryptFromRoom,
         ChatWindow.decryptMessage c decryptFromRoom message = message.
Proof.
  intros Hblank [ssock Hsender] [lsock Hlistener] joined emits.
  set (roomId := ChatWindow.getRoomId a b).
  set (message := ChatWindow.messageWithContent newMessage data_message).
  set (lsock' := {| userId := userId lsock; rooms := rooms lsock ∪ {[roomId]} |}).
  assert (Hjoined : joined = update_socket listener lsock' st).
  { unfold joined, ChatWindow.effect_joins, joinRoom.
    rewrite (ChatWindow_getRoomId_symmetric b a). fold roomId.
    cbn [map run step]. unfold receive. rewrite Hlistener. reflexivity. }
  assert (Hsender' : is_Some (sockets joined !! sender)).
  { rewrite Hjoined. unfold update_socket. cbn [sockets].
    destruct (decide (listener = sender)) as [-> | Hne].
    - rewrite lookup_insert_eq. now eexists.
    - rewrite lookup_insert_ne, Hsender by assumption. now eexists. }
  destruct Hsender' as [ssock' Hsender'].
  exists {| to := in_room roomId joined ∖ {[sender]}; event := UserStopTyping a |},
         (in_room roomId joined), message.
  split; [| split; [| split; [| split; [| split]]]].
  - unfold emits, ChatWindow.sendMessage_emits. rewrite Hblank.
    unfold emitStopTyping, sendMessage. cbn [app map run step].
    unfold receive. rewrite Hsender'. unfold on_stop_typing. cbv beta iota zeta.
    rewrite Hsender'. reflexivity.
  - apply elem_of_in_room. exists lsock'. split.
    + rewrite Hjoined. unfold update_socket. cbn [sockets]. apply lookup_insert_eq.
    + cbn [rooms lsock']. set_solver.
  - reflexivity.
  - reflexivity.
  - reflexivity.
  - intros c decryptFromRoom. unfold ChatWindow.decryptMessage.
    change (ChatWindow.decryptedContent message) with (Some newMessage).
    now rewrite (not_blank_truthy newMessage Hblank).
Qed.

(** X17. When a socket that joined under a non-empty user id disconnects,
    the server forgets the user in [onlineUsers] and tells every socket still
    connected that the user is offline, also when another socket that joined
    under the same user id is still connected: that socket stays, user id and
    rooms kept, and is itself told that its user is offline. *)
Theorem disconnect_of_one_session_marks_user_offline
    (Payload : Type) (st : State) (s1 s2 u : jsstring) (socket1 socket2 : Socket) :
  s1 <> s2 -> u <> [] ->
  sockets st !! s1 = Some socket1 -> userId socket1 = Some u ->
  sockets st !! s2 = Some socket2 -> userId socket2 = Some u ->
  exists st' recipients,
    step (Payload := Payload) st (Disconnect s1)
    = (st', [{| to := recipients; event := UserOnline u false |}])
    /\ sockets st' !! s1 = None
    /\ sockets st' !! s2 = Some socket2
    /\ s2 ∈ recipients
    /\ (s1 ∉ recipients)
    /\ onlineUsers st' !! u = None.
Proof.
  intros Hne Hu H1 Hu1 H2 Hu2. cbn [step]. rewrite H1. unfold on_disconnect.
  rewrite Hu1. cbn [default from_option]. destruct u as [|c u]; [contradiction |].
  cbn [truthy]. eexists _, _. split; [reflexivity |]. cbn [sockets onlineUsers].
  split_and!.
  - apply lookup_delete_eq.
  - now rewrite lookup_delete_ne.
  - unfold everyone. cbn [sockets]. apply elem_of_dom.
    rewrite lookup_delete_ne, H2 by assumption. now eexists.
  - unfold everyone. cbn [sockets]. rewrite elem_of_dom, lookup_delete_eq.
    now intros [x Hx].
  - apply lookup_delete_eq.
Qed.

Lemma acts_cons (a aname b : jsstring) (st : ChatWindow.Indicator)
    (x : ChatWindow.Action) (l : list ChatWindow.Action) :
  ChatWindow.acts a aname b st (x :: l)
  = ((ChatWindow.acts a aname b (ChatWindow.act a aname b st x).1 l).1,
     (ChatWindow.act a aname b st x).2
     ++ (ChatWindow.acts a aname b (ChatWindow.act a aname b st x).1 l).2).
Proof.
  cbn [ChatWindow.acts]. destruct (ChatWindow.act a aname b st x) as [st' emits].
  cbn [fst snd]. now destruct (ChatWindow.acts a aname b st' l).
Qed.

Lemma act_timeout_pending (a aname b : jsstring) (st : ChatWindow.Indicator)
    (x : ChatWindow.Action) :
  timeout_pending a b st -> timeout_pending a b (ChatWindow.act a aname b st x).1.
Proof.
  unfold timeout_pending. intros H.
  destruct x as [c | c | c c' newMessage reply | ev]; cbn [ChatWindow.act].
  - reflexivity.
  - unfold ChatWindow.typing_timeout.
    destruct (ChatWindow.typingTimeout st) as [[r u] |] eqn:Ht; [reflexivity |].
    cbn [fst]. now rewrite Ht.
  - cbn [fst]. unfold ChatWindow.sendMessage_indicator.
    destruct (forallb ChatWindow.is_trimmed newMessage); [assumption | reflexivity].
  - destruct ev as [u o | m | u n | u]; cbn [fst]; try assumption.
    + unfold ChatWindow.handleUserTyping. now destruct (bool_decide (u = b)).
    + unfold ChatWindow.handleUserStopTyping. now destruct (bool_decide (u = b)).
Qed.

Lemma acts_timeout_pending (a aname b : jsstring) (l : list ChatWindow.Action) :
  forall st, timeout_pending a b st ->
             timeout_pending a b (ChatWindow.acts a aname b st l).1.
Proof.
  induction l as [|x l IH]; intros st H; [assumption |].
  rewrite acts_cons. cbn [fst]. now apply IH, act_timeout_pending.
Qed.

Lemma announced_once_sent {Payload : Type} (typing : bool) (roomId : jsstring)
    (message : Payload) (connected : bool) (emits : list (Emit Payload)) :
  announced_once typing (sendMessage connected roomId message ++ emits)
  <-> announced_once typing emits.
Proof. now destruct connected. Qed.

Lemma acts_announced_once (a aname b : jsstring) (l : list ChatWindow.Action) :
  forall (st : ChatWindow.Indicator) (typing : bool),
    (typing = true -> ChatWindow.isTyping st = true) ->
    Forall withdrawn_online l ->
    announced_once typing (ChatWindow.acts a aname b st l).2.
Proof.
  induction l as [|x l IH]; intros st typing Hle Hl; [exact I |].
  rewrite acts_cons. cbn [snd]. inversion Hl as [|? ? Hx Hl']; subst.
  destruct x as [c | c | c c' newMessage reply | ev];
    cbn [ChatWindow.act withdrawn_online] in *.
  - unfold ChatWindow.handleTyping. cbn [fst snd].
    destruct (ChatWindow.isTyping st) eqn:Ht; cbn [negb app].
    + now apply IH.
    + assert (typing = false) as -> by (destruct typing; [now specialize (Hle eq_refl) | easy]).
      destruct c; cbn [emitTyping app announced_once].
      * split; [reflexivity |]. now apply IH.
      * apply IH; [discriminate | assumption].
  - subst c. unfold ChatWindow.typing_timeout.
    destruct (ChatWindow.typingTimeout st) as [[r u] |]; cbn [fst snd app].
    + cbn [emitStopTyping app announced_once]. apply IH; [discriminate | assumption].
    + now apply IH.
  - subst c. unfold ChatWindow.sendMessage_indicator, ChatWindow.sendMessage_emits.
    cbn [fst snd].
    destruct (forallb ChatWindow.is_trimmed newMessage); cbn [app].
    + now apply IH.
    + cbn [emitStopTyping app announced_once].
      destruct reply as [data_message | e]; cbn [app].
      * apply announced_once_sent. apply IH; [discriminate | assumption].
      * apply IH; [discriminate | assumption].
  - assert (Hsame : ChatWindow.isTyping
                      (ChatWindow.act a aname b st (ChatWindow.Heard ev)).1
                    = ChatWindow.isTyping st
                    /\ (ChatWindow.act a aname b st (ChatWindow.Heard ev)).2 = []).
    { destruct ev as [u o | m | u n | u]; cbn [ChatWindow.act fst snd];
        try (split; reflexivity).
      - unfold ChatWindow.handleUserTyping. now destruct (bool_decide (u = b)).
      - unfold ChatWindow.handleUserStopTyping. now destruct (bool_decide (u = b)). }
    destruct Hsame as [Hty Hem]. cbn [ChatWindow.act] in Hty, Hem.
    rewrite Hem. cbn [app]. apply IH; [| assumption]. now rewrite Hty.
Qed.

(** X18. The typing indicator of a chat window that stays with one
    conversation, from its first render on and whatever happens (keys, the
    timeout, submits, events of the server):
    the timeout is pending exactly while [isTyping] is set, so a set
    indicator is always withdrawn by its timeout, which then emits
    ['stop-typing'] for this room and user. If the socket is connected
    whenever the indicator is withdrawn, no ['typing'] is emitted twice
    without a ['stop-typing'] in between. *)
Theorem typing_is_announced_once_and_withdrawn
    (a aname b : jsstring) (l : list ChatWindow.Action) :
  let st := (ChatWindow.acts a aname b ChatWindow.quiet l).1 in
  let emits := (ChatWindow.acts a aname b ChatWindow.quiet l).2 in
  (ChatWindow.isTyping st = true <-> is_Some (ChatWindow.typingTimeout st))
  /\ (ChatWindow.isTyping st = true ->
      forall connected,
        ChatWindow.act a aname b st (ChatWindow.Timeout connected)
        = ({| ChatWindow.isTyping := false; ChatWindow.typingTimeout := None;
              ChatWindow.typingUser := ChatWindow.typingUser st |},
           emitStopTyping connected (ChatWindow.getRoomId a b) a))
  /\ (Forall withdrawn_online l -> announced_once false emits).
Proof.
  intros st emits.
  pose proof (acts_timeout_pending a aname b l ChatWindow.quiet eq_refl) as Hinv.
  fold st in Hinv. unfold timeout_pending in Hinv. split_and!.
  - rewrite Hinv. destruct (ChatWindow.isTyping st); split; intros H.
    + now eexists.
    + reflexivity.
    + discriminate.
    + now destruct H as [x Hx].
  - intros Hty connected. cbn [ChatWindow.act]. unfold ChatWindow.typing_timeout.
    now rewrite Hinv, Hty.
  - intros Hl. now apply acts_announced_once.
Qed.

(** X19. A key typed in a chat window whose indicator is not set, on a
    connected socket known to the server, makes the server address one
    ['user-typing'] with the typist's id and name to the sockets of the room
    except the typist's own, and leaves the server as it was. A chat window
    that hears the event shows the name if the typist is its selected user
    and keeps what it showed otherwise. *)
Theorem typing_reaches_the_others
    (a aname b sender : jsstring) (st : State) (ind : ChatWindow.Indicator) :
  is_Some (sockets st !! sender) ->
  ChatWindow.isTyping ind = false ->
  exists recipients,
    run st (map (Receive sender)
              (ChatWindow.act a aname b ind (ChatWindow.Key true)).2)
    = (st, [{| to := recipients; event := UserTyping a aname |}])
    /\ (sender ∉ recipients)
    /\ (forall s, s ∈ recipients
                  <-> s <> sender /\ s ∈ in_room (ChatWindow.getRoomId a b) st)
    /\ forall c cname selected heard,
         ChatWindow.typingUser
           (ChatWindow.act c cname selected heard
              (ChatWindow.Heard (UserTyping a aname))).1
         = if bool_decide (a = selected) then Some aname
           else ChatWindow.typingUser heard.
Proof.
  intros [socket Hsender] Hty.
  exists (in_room (ChatWindow.getRoomId a b) st ∖ {[sender]}). split_and!.
  - cbn [ChatWindow.act]. unfold ChatWindow.handleTyping. rewrite Hty.
    cbn [snd negb emitTyping map run step]. unfold receive. rewrite Hsender.
    reflexivity.
  - intros [_ H]%elem_of_difference. apply H. now apply elem_of_singleton.
  - intros s. rewrite elem_of_difference, elem_of_singleton. tauto.
  - intros c cname selected heard. cbn [ChatWindow.act fst].
    unfold ChatWindow.handleUserTyping. now destruct (bool_decide (a = selected)).
Qed.

End Relay.

(** *** The theorems at concrete sockets and actions *)

Lemma sent_text_reaches_the_room_in_clear_witness :
  exists stopped recipients message,
    Server.run
      (Server.run alice_and_stranger
         (map (Server.Receive (lit "sx"))
            (ChatWindow.effect_joins (lit "bob") (lit "alice") true))).1
      (map (Server.Receive (lit "sa"))
         (ChatWindow.sendMessage_emits (lit "alice") (lit "bob") true true
            (lit "hi") (Ok m1)))
    = ((Server.run alice_and_stranger
          (map (Server.Receive (lit "sx"))
             (ChatWindow.effect_joins (lit "bob") (lit "alice") true))).1,
       [stopped;
        {| Server.to := recipients; Server.event := Server.NewMessage message |}])
    /\ lit "sx" ∈ recipients
    /\ ChatWindow.decryptedContent message = Some (lit "hi")
    /\ ChatWindow.id message = Messages.id m1
    /\ ChatWindow.encryptedContent message = Messages.encryptedContent m1
    /\ forall c decryptFromRoom,
         ChatWindow.decryptMessage c decryptFromRoom message = message.
Proof.
  apply (sent_text_reaches_the_room_in_clear (lit "alice") (lit "bob") (lit "hi")
           (lit "sa") (lit "sx") m1 alice_and_stranger).
  - reflexivity.
  - eexists. vm_compute. reflexivity.
  - eexists. vm_compute. reflexivity.
Defined.

Lemma disconnect_of_one_session_marks_user_offline_witness :
  exists st' recipients,
    Server.step (Payload := ChatWindow.Message) two_tabs (Server.Disconnect (lit "tab1"))
    = (st', [{| Server.to := recipients;
                Server.event := Server.UserOnline (lit "alice") false |}])
    /\ Server.sockets st' !! lit "tab1" = None
    /\ Server.sockets st' !! lit "tab2"
       = Some {| Server.userId := Some (lit "alice"); Server.rooms := {[lit "tab2"]} |}
    /\ lit "tab2" ∈ recipients
    /\ (lit "tab1" ∉ recipients)
    /\ Server.onlineUsers st' !! lit "alice" = None.
Proof.
  apply (disconnect_of_one_session_marks_user_offline ChatWindow.Message two_tabs
           (lit "tab1") (lit "tab2") (lit "alice")
           {| Server.userId := Some (lit "alice"); Server.rooms := {[lit "tab1"]} |}
           {| Server.userId := Some (lit "alice"); Server.rooms := {[lit "tab2"]} |}).
  - discriminate.
  - discriminate.
  - vm_compute. reflexivity.
  - reflexivity.
  - vm_compute. reflexivity.
  - reflexivity.
Defined.

Lemma typing_is_announced_once_and_withdrawn_witness :
  Forall withdrawn_online
    [ChatWindow.Key true; ChatWindow.Key true; ChatWindow.Timeout true;
     ChatWindow.Key false; ChatWindow.Submit true true (lit "hi") (Ok m1)]
  /\ announced_once false
       (ChatWindow.acts (lit "alice") (lit "Alice") (lit "bob") ChatWindow.quiet
          [ChatWindow.Key true; ChatWindow.Key true; ChatWindow.Timeout true;
           ChatWindow.Key false; ChatWindow.Submit true true (lit "hi") (Ok m1)]).2.
Proof.
  assert (H : Forall withdrawn_online
                [ChatWindow.Key true; ChatWindow.Key true; ChatWindow.Timeout true;
                 ChatWindow.Key false; ChatWindow.Submit true true (lit "hi") (Ok m1)]).
  { repeat constructor. }
  split; [exact H |].
  exact (proj2 (proj2 (typing_is_announced_once_and_withdrawn (lit "alice")
                         (lit "Alice") (lit "bob") _)) H).
Defined.

Lemma typing_reaches_the_others_witness :
  exists recipients,
    Server.run alice_and_stranger
      (map (Server.Receive (lit "sa"))
         (ChatWindow.act (lit "alice") (lit "Alice") (lit "bob") ChatWindow.quiet
            (ChatWindow.Key true)).2)
    = (alice_and_stranger,
       [{| Server.to := recipients;
           Server.event := Server.UserTyping (lit "alice") (lit "Alice") |}])
    /\ (lit "sa" ∉ recipients)
    /\ (forall s, s ∈ recipients
                  <-> s <> lit "sa"
                      /\ s ∈ Server.in_room
                               (ChatWindow.getRoomId (lit "alice") (lit "bob"))
                               alice_and_stranger)
    /\ forall c cname selected heard,
         ChatWindow.typingUser
           (ChatWindow.act c cname selected heard
              (ChatWindow.Heard (Server.UserTyping (lit "alice") (lit "Alice")))).1
         = if bool_decide (lit "alice" = selected) then Some (lit "Alice")
           else ChatWindow.typingUser heard.
Proof.
  apply (typing_reaches_the_others (lit "alice") (lit "Alice") (lit "bob") (lit "sa")
           alice_and_stranger ChatWindow.quiet).
  - eexists. vm_compute. reflexivity.
  - reflexivity.
Defined.

(** ** The user store and the credentials provider *)

Section FileFacts.

Import Database.

Lemma getDatabase_users (disk : Disk) :
  users (fst (getDatabase disk)) = stored_users disk
  /\ stored_users (snd (getDatabase disk)) = stored_users disk.
Proof. destruct disk; split; reflexivity. Qed.

Lemma findUserByEmail_spec (email' : jsstring) (disk : Disk) :
  fst (findUserByEmail email' disk)
  = List.find (fun u => bool_decide (email u = email')) (stored_users disk)
  /\ stored_users (snd (findUserByEmail email' disk)) = stored_users disk.
Proof. destruct disk; split; reflexivity. Qed.

Lemma findUserById_spec (id' : jsstring) (disk : Disk) :
  fst (findUserById id' disk)
  = List.find (fun u => bool_decide (id u = id')) (stored_users disk)
  /\ stored_users (snd (findUserById id' disk)) = stored_users disk.
Proof. destruct disk; split; reflexivity. Qed.

Lemma addUser_users (user : UserRecord) (disk : Disk) :
  stored_users (addUser user disk) = stored_users disk ++ [user].
Proof. destruct disk; reflexivity. Qed.

Lemma find_email_None (email' : jsstring) (l : list UserRecord) :
  List.find (fun u => bool_decide (email u = email')) l = None
  <-> ~ In email' (map email l).
Proof.
  induction l as [|u l IH]; cbn [List.find map In]; [tauto |].
  destruct (bool_decide_reflect (email u = email')) as [Heq | Hne].
  - split; [discriminate | intros H; exfalso; apply H; now left].
  - rewrite IH. tauto.
Qed.

Lemma find_email_snoc (email' : jsstring) (l : list UserRecord) (user : UserRecord) :
  ~ In email' (map email l) -> email user = email' ->
  List.find (fun u => bool_decide (email u = email')) (l ++ [user]) = Some user.
Proof.
  intros Hnot Heq. induction l as [|u l IH]; cbn [app List.find].
  - now rewrite bool_decide_eq_true_2.
  - cbn [map In] in Hnot. rewrite bool_decide_eq_false_2 by tauto.
    apply IH. tauto.
Qed.

Lemma find_email_app (email' : jsstring) (l l' : list UserRecord) (user : UserRecord) :
  List.find (fun u => bool_decide (email u = email')) l = Some user ->
  List.find (fun u => bool_decide (email u = email')) (l ++ l') = Some user.
Proof.
  induction l as [|u l IH]; cbn [app List.find]; [discriminate |].
  now destruct (bool_decide (email u = email')).
Qed.

Lemma updateUser_emails (id' : jsstring) (updates : Partial) (disk : Disk) :
  with_email updates = None ->
  stored_emails (snd (updateUser id' updates disk)) = stored_emails disk.
Proof.
  intros Hup. unfold updateUser, stored_emails.
  destruct (getDatabase disk) as [db disk'] eqn:Hdb.
  pose proof (getDatabase_users disk) as [Hu Hs]. rewrite Hdb in Hu, Hs.
  cbn [fst snd] in Hu, Hs.
  destruct (list_find _ (users db)) as [[index user] |] eqn:Hfind; cbn [snd].
  - unfold saveDatabase. cbn [stored_users users]. rewrite <- Hu.
    apply list_find_Some in Hfind as (Hlook & _ & _).
    apply list_eq. intros i. rewrite !list_lookup_fmap.
    destruct (decide (i = index)) as [-> | Hne].
    + rewrite list_lookup_insert_eq by (now apply lookup_lt_Some in Hlook).
      rewrite Hlook. cbn. unfold spread. cbn [email]. now rewrite Hup.
    + now rewrite list_lookup_insert_ne by congruence.
  - now rewrite Hs.
Qed.

Lemma filter_same_length {A : Type} (p : A -> bool) (l : list A) :
  length (List.filter p l) = length l -> List.filter p l = l.
Proof.
  induction l as [|x l IH]; [reflexivity |]. cbn [List.filter].
  destruct (p x); cbn [length]; intros H.
  - f_equal. apply IH. lia.
  - pose proof (List.filter_length_le p l). lia.
Qed.

Lemma deleteUser_users (id' : jsstring) (disk : Disk) :
  stored_users (snd (deleteUser id' disk))
  = List.filter (fun u => negb (bool_decide (id u = id'))) (stored_users disk)
  /\ (fst (deleteUser id' disk) = true
      <-> exists u, In u (stored_users disk) /\ id u = id').
Proof.
  unfold deleteUser. destruct (getDatabase disk) as [db disk'] eqn:Hdb.
  pose proof (getDatabase_users disk) as [Hu Hs]. rewrite Hdb in Hu, Hs.
  cbn [fst snd] in Hu, Hs. cbv zeta. rewrite Hu.
  set (keep := fun u => negb (bool_decide (id u = id'))).
  destruct (Nat.eqb_spec (length (List.filter keep (stored_users disk)))
              (length (stored_users disk))) as [Hlen | Hlen]; cbn [negb fst snd].
  - apply filter_same_length in Hlen. rewrite Hlen, Hs. split; [reflexivity |].
    split; [discriminate |]. intros (u & Hin & Hid). exfalso.
    rewrite <- Hlen in Hin. apply filter_In in Hin as [_ Hk]. unfold keep in Hk.
    now rewrite bool_decide_eq_true_2 in Hk.
  - unfold saveDatabase. cbn [stored_users users]. split; [reflexivity |].
    split; [| reflexivity]. intros _.
    destruct (List.existsb (fun u => bool_decide (id u = id')) (stored_users disk))
      eqn:Hex.
    + apply existsb_exists in Hex as (u & Hin & Hid). exists u.
      split; [assumption |]. now apply bool_decide_eq_true_1 in Hid.
    + exfalso. apply Hlen. f_equal. 
      assert (Hall : forall l, List.existsb (fun u => bool_decide (id u = id')) l = false ->
                               List.filter keep l = l).
      { induction l as [|u l IH]; [reflexivity |]. cbn [List.existsb List.filter].
        unfold keep at 1. destruct (bool_decide (id u = id')); [discriminate |].
        cbn [orb negb]. intros H. now rewrite IH. }
      now apply Hall.
Qed.

Lemma NoDup_map_filter {A B : Type} (f : A -> B) (p : A -> bool) (l : list A) :
  NoDup (map f l) -> NoDup (map f (List.filter p l)).
Proof.
  induction l as [|x l IH]; cbn [map List.filter]; [trivial |].
  intros [Hnot Hnd]%NoDup_cons. destruct (p x); [| now apply IH].
  cbn [map]. apply NoDup_cons. split; [| now apply IH].
  intros Hin. apply Hnot. apply list_elem_of_In in Hin. apply list_elem_of_In.
  apply in_map_iff in Hin as (y & Hy & Hin). apply in_map_iff. exists y.
  split; [assumption |]. now apply filter_In in Hin as [Hin _].
Qed.

End FileFacts.

Section Accounts.

Import Database.

Variable Date : Type.
Variable toISOString : Date -> jsstring.
Variable new_Date : jsstring -> Date.
Variable Salt : Type.
Variable hash : jsstring -> Salt -> jsstring.
Variable compare : jsstring -> jsstring -> bool.

Local Abbreviation DemoDraws := (Users.DemoDraws Date Salt).
Local Abbreviation Draw := (Users.Draw Date Salt).
Local Abbreviation demo_user := (Users.demo_user Date toISOString Salt hash).
Local Abbreviation initializeDemoUsers :=
  (Users.initializeDemoUsers Date toISOString Salt hash).
Local Abbreviation getUserByEmail :=
  (Users.getUserByEmail Date toISOString new_Date Salt hash).
Local Abbreviation getUserById :=
  (Users.getUserById Date toISOString new_Date Salt hash).
Local Abbreviation createUser :=
  (Users.createUser Date toISOString Salt hash).
Local Abbreviation calls := (Users.calls Date toISOString new_Date Salt hash).
Local Abbreviation call := (Users.call Date toISOString new_Date Salt hash).
Local Abbreviation authorize :=
  (Auth.authorize Date toISOString new_Date Salt hash compare).

Lemma demo_user_users (email' name' password' : jsstring) (draw : Draw) (disk : Disk) :
  stored_users (demo_user email' name' password' draw disk)
  = if bool_decide (email' ∈ stored_emails disk) then stored_users disk
    else stored_users disk
         ++ [{| id := Users.uuid _ _ draw; email := email'; name := name';
                password := hash password' (Users.salt _ _ draw); publicKey := None;
                createdAt := toISOString (Users.now _ _ draw) |}].
Proof.
  unfold Users.demo_user.
  pose proof (findUserByEmail_spec email' disk) as [Hf Hs].
  destruct (findUserByEmail email' disk) as [existing disk'].
  cbn [fst snd] in Hf, Hs.
  destruct existing as [u|].
  - rewrite bool_decide_eq_true_2; [assumption |].
    symmetry in Hf. apply find_some in Hf as [Hin Heq].
    apply bool_decide_eq_true_1 in Heq.
    apply list_elem_of_In, in_map_iff. now exists u.
  - symmetry in Hf. apply find_email_None in Hf.
    rewrite bool_decide_eq_false_2 by (now rewrite list_elem_of_In).
    now rewrite addUser_users, Hs.
Qed.

Lemma demo_user_keeps_found (email' name' password' found : jsstring) (draw : Draw)
    (disk : Disk) (record : UserRecord) :
  List.find (fun u => bool_decide (email u = found)) (stored_users disk) = Some record ->
  List.find (fun u => bool_decide (email u = found))
    (stored_users (demo_user email' name' password' draw disk)) = Some record.
Proof.
  intros H. rewrite demo_user_users.
  destruct (bool_decide (email' ∈ stored_emails disk)); [assumption |].
  now apply find_email_app.
Qed.

Lemma demo_user_distinct (email' name' password' : jsstring) (draw : Draw) (disk : Disk) :
  emails_distinct disk ->
  emails_distinct (demo_user email' name' password' draw disk).
Proof.
  unfold emails_distinct, stored_emails. rewrite demo_user_users.
  destruct (bool_decide_reflect (email' ∈ stored_emails disk)) as [Hin | Hnot];
    [trivial |].
  intros Hnd. rewrite map_app. cbn [map email]. apply NoDup_app. split; [assumption |].
  split; [| apply NoDup_singleton].
  intros x Hx [->|[]]%list_elem_of_In. now apply Hnot.
Qed.

Lemma initializeDemoUsers_distinct (draws : DemoDraws) (st : Users.State) :
  emails_distinct (Users.disk st) ->
  emails_distinct (Users.disk (initializeDemoUsers draws st)).
Proof.
  intros H. unfold Users.initializeDemoUsers.
  destruct (Users.demoUsersInitialized st); [assumption |]. cbv zeta. cbn [Users.disk].
  now repeat apply demo_user_distinct.
Qed.

Lemma initializeDemoUsers_done (draws : DemoDraws) (st : Users.State) :
  Users.demoUsersInitialized (initializeDemoUsers draws st) = true.
Proof.
  unfold Users.initializeDemoUsers.
  now destruct (Users.demoUsersInitialized st) eqn:H.
Qed.

Lemma initializeDemoUsers_again (draws : DemoDraws) (st : Users.State) :
  Users.demoUsersInitialized st = true -> initializeDemoUsers draws st = st.
Proof. intros H. unfold Users.initializeDemoUsers. now rewrite H. Qed.

Lemma emails_distinct_same (disk disk' : Disk) :
  stored_users disk' = stored_users disk ->
  emails_distinct disk -> emails_distinct disk'.
Proof. unfold emails_distinct, stored_emails. now intros ->. Qed.

Lemma call_distinct (st : Users.State) (c : Users.Call Date Salt) :
  emails_distinct (Users.disk st) -> emails_distinct (Users.disk (call st c)).
Proof.
  intros H.
  destruct c as [e d | i d | e n pw d dr | u pk d | d | x d | u | u pw sl];
    cbn [Users.call].
  - unfold Users.getUserByEmail. cbv zeta.
    pose proof (initializeDemoUsers_distinct d st H) as H1.
    pose proof (findUserByEmail_spec e (Users.disk (initializeDemoUsers d st))) as [_ Hs].
    destruct (findUserByEmail e _) as [r disk']. cbn [snd Users.disk] in *.
    now apply (emails_distinct_same _ _ Hs).
  - unfold Users.getUserById. cbv zeta.
    pose proof (initializeDemoUsers_distinct d st H) as H1.
    pose proof (findUserById_spec i (Users.disk (initializeDemoUsers d st))) as [_ Hs].
    destruct (findUserById i _) as [r disk']. cbn [snd Users.disk] in *.
    now apply (emails_distinct_same _ _ Hs).
  - unfold Users.createUser. cbv zeta.
    pose proof (initializeDemoUsers_distinct d st H) as H1.
    pose proof (findUserByEmail_spec e (Users.disk (initializeDemoUsers d st))) as [Hf Hs].
    destruct (findUserByEmail e _) as [existing disk']. cbn [fst snd] in Hf, Hs.
    destruct existing as [u|]; cbn [snd Users.disk].
    + now apply (emails_distinct_same _ _ Hs).
    + symmetry in Hf. apply find_email_None in Hf.
      unfold emails_distinct, stored_emails in *. rewrite addUser_users, Hs, map_app.
      cbn [map email]. apply NoDup_app. split; [assumption |].
      split; [| apply NoDup_singleton].
      intros y Hy [->|[]]%list_elem_of_In. apply Hf. now apply list_elem_of_In.
  - unfold Users.updateUserPublicKey. cbv zeta.
    pose proof (initializeDemoUsers_distinct d st H) as H1.
    pose proof (updateUser_emails u
                  {| with_id := None; with_email := None; with_name := None;
                     with_password := None; with_publicKey := Some (Some pk);
                     with_createdAt := None |}
                  (Users.disk (initializeDemoUsers d st)) eq_refl) as He.
    destruct (updateUser u _ _) as [r disk']. cbn [snd Users.disk] in *.
    unfold emails_distinct. now rewrite He.
  - unfold Users.getAllUsers. cbv zeta.
    pose proof (initializeDemoUsers_distinct d st H) as H1.
    pose proof (getDatabase_users (Users.disk (initializeDemoUsers d st))) as [_ Hs].
    unfold getUsers. destruct (getDatabase _) as [db disk']. cbn [snd Users.disk] in *.
    now apply (emails_distinct_same _ _ Hs).
  - unfold Users.getUsersExcept. cbv zeta.
    pose proof (initializeDemoUsers_distinct d st H) as H1.
    pose proof (getDatabase_users (Users.disk (initializeDemoUsers d st))) as [_ Hs].
    unfold getUsers. destruct (getDatabase _) as [db disk']. cbn [snd Users.disk] in *.
    now apply (emails_distinct_same _ _ Hs).
  - unfold Users.deleteUserById.
    pose proof (deleteUser_users u (Users.disk st)) as [Hd _].
    destruct (deleteUser u (Users.disk st)) as [deleted disk']. cbn [snd Users.disk] in *.
    unfold emails_distinct, stored_emails in *. rewrite Hd.
    now apply NoDup_map_filter.
  - unfold Users.updateUserPassword. cbv zeta.
    pose proof (updateUser_emails u
                  {| with_id := None; with_email := None; with_name := None;
                     with_password := Some (hash pw sl); with_publicKey := None;
                     with_createdAt := None |}
                  (Users.disk st) eq_refl) as He.
    destruct (updateUser u _ _) as [r disk']. cbn [snd Users.disk] in *.
    unfold emails_distinct. now rewrite He.
Qed.

(** X21. Whatever calls the user store takes, one after the other (look-ups,
    [createUser], the two updates, [deleteUserById], with the demo users put
    in on the way): if no two users on the disk share an email before, none
    do after. From a missing or unreadable file on, every email has one
    account. *)
Theorem emails_stay_distinct (st : Users.State) (l : list (Users.Call Date Salt)) :
  emails_distinct (Users.disk st) -> emails_distinct (Users.disk (calls st l)).
Proof.
  revert st. induction l as [|c l IH]; intros st H; [assumption |].
  cbn [Users.calls fold_left]. apply IH. now apply call_distinct.
Qed.

Lemma authorize_found (email' password' : jsstring) (draws : DemoDraws)
    (st : Users.State) (record : UserRecord) :
  email' <> [] -> password' <> [] ->
  Users.demoUsersInitialized st = true ->
  List.find (fun u => bool_decide (email u = email')) (stored_users (Users.disk st))
  = Some record ->
  fst (authorize (Some {| Auth.email := Some email'; Auth.password := Some password' |})
         draws st)
  = if compare password' (password record)
    then Ok {| Auth.id := id record; Auth.user_email := email record;
               Auth.name := name record; Auth.publicKey := publicKey record |}
    else Throw (Error "Invalid password").
Proof.
  intros Hne Hnp Hflag Hfind. unfold Auth.authorize. cbv zeta.
  destruct email' as [|c0 email']; [congruence |].
  destruct password' as [|c1 password']; [congruence |].
  cbn [Auth.email Auth.password truthy negb orb from_option]. unfold Datatypes.id.
  unfold Users.getUserByEmail. cbv zeta. rewrite initializeDemoUsers_again by assumption.
  pose proof (findUserByEmail_spec (c0 :: email') (Users.disk st)) as [Hf _].
  destruct (findUserByEmail (c0 :: email') (Users.disk st)) as [r disk'].
  cbn [fst] in Hf. rewrite Hfind in Hf. subst r.
  cbn [option_map Users.recordToUser Users.user_password Users.user_id
       Users.user_email Users.user_name Users.user_publicKey].
  now destruct (compare (c1 :: password') (password record)).
Qed.

Lemma authorize_not_found (email' password' : jsstring) (draws : DemoDraws)
    (st : Users.State) :
  email' <> [] -> password' <> [] ->
  Users.demoUsersInitialized st = true ->
  ~ In email' (stored_emails (Users.disk st)) ->
  fst (authorize (Some {| Auth.email := Some email'; Auth.password := Some password' |})
         draws st)
  = Throw (Error "No user found with this email").
Proof.
  intros Hne Hnp Hflag Hnot. unfold Auth.authorize. cbv zeta.
  destruct email' as [|c0 email']; [congruence |].
  destruct password' as [|c1 password']; [congruence |].
  cbn [Auth.email Auth.password truthy negb orb from_option]. unfold Datatypes.id.
  unfold Users.getUserByEmail. cbv zeta. rewrite initializeDemoUsers_again by assumption.
  pose proof (findUserByEmail_spec (c0 :: email') (Users.disk st)) as [Hf _].
  destruct (findUserByEmail (c0 :: email') (Users.disk st)) as [r disk'].
  cbn [fst] in Hf. apply find_email_None in Hnot. rewrite Hnot in Hf. now subst r.
Qed.

(** X22. Let bcrypt accept a password for the hash it made of it. After
    [createUser] has returned a user, [authorize] with the same email and
    password (both non-empty) returns that user: the id drawn, the email and
    the name given, no public key. With a password bcrypt does not accept
    for the stored hash it throws "Invalid password". The store holds the
    hash, not the password. *)
Theorem registered_user_can_log_in (email' name' password' : jsstring)
    (draws draws' : DemoDraws) (draw : Draw) (st st' : Users.State)
    (user : Users.StoredUser Date) :
  accepts_own hash compare ->
  email' <> [] -> password' <> [] ->
  createUser email' name' password' draws draw st = (Ok user, st') ->
  fst (authorize (Some {| Auth.email := Some email'; Auth.password := Some password' |})
         draws' st')
  = Ok {| Auth.id := Users.uuid _ _ draw; Auth.user_email := email';
          Auth.name := name'; Auth.publicKey := None |}
  /\ Users.user_password _ user = hash password' (Users.salt _ _ draw)
  /\ forall wrong,
       wrong <> [] -> compare wrong (hash password' (Users.salt _ _ draw)) = false ->
       fst (authorize (Some {| Auth.email := Some email'; Auth.password := Some wrong |})
              draws' st')
       = Throw (Error "Invalid password").
Proof.
  intros Hown Hne Hnp. unfold Users.createUser. cbv zeta.
  pose proof (initializeDemoUsers_done draws st) as Hflag.
  pose proof (findUserByEmail_spec email' (Users.disk (initializeDemoUsers draws st)))
    as [Hf Hs].
  destruct (findUserByEmail email' _) as [existing disk']. cbn [fst snd] in Hf, Hs.
  destruct existing as [u|]; [discriminate |]. intros [= <- <-].
  symmetry in Hf. apply find_email_None in Hf. rewrite <- Hs in Hf.
  set (record := {| id := Users.uuid _ _ draw; email := email'; name := name';
                    password := hash password' (Users.salt _ _ draw);
                    publicKey := None;
                    createdAt := toISOString (Users.now _ _ draw) |}).
  assert (Hfind : List.find (fun u => bool_decide (email u = email'))
                    (stored_users (addUser record disk')) = Some record).
  { rewrite addUser_users. now apply find_email_snoc. }
  split; [| split; [reflexivity |]].
  - rewrite (authorize_found email' password' draws' _ record) by assumption.
    cbn [password record]. now rewrite Hown.
  - intros wrong Hnw Hwrong.
    rewrite (authorize_found email' wrong draws' _ record) by assumption.
    cbn [password record]. now rewrite Hwrong.
Qed.


(** X24. [deleteUserById] takes every user with the id off the disk and
    keeps the others in their order; it returns true exactly when there was
    such a user. Once the demo users are in, [getUserById] with that id then
    finds nobody, and, when no two users shared an email, [authorize] with
    the email of a deleted user throws "No user found with this email". *)
Theorem deleted_user_is_gone (userId : jsstring) (st : Users.State) :
  let st' := snd (Users.deleteUserById userId st) in
  stored_users (Users.disk st')
  = List.filter (fun u => negb (bool_decide (id u = userId)))
      (stored_users (Users.disk st))
  /\ (fst (Users.deleteUserById userId st) = true
      <-> exists u, In u (stored_users (Users.disk st)) /\ id u = userId)
  /\ (Users.demoUsersInitialized st = true ->
      (forall draws, fst (getUserById userId draws st') = None)
      /\ forall u password' draws,
           emails_distinct (Users.disk st) ->
           In u (stored_users (Users.disk st)) -> id u = userId ->
           email u <> [] -> password' <> [] ->
           fst (authorize (Some {| Auth.email := Some (email u);
                                   Auth.password := Some password' |}) draws st')
           = Throw (Error "No user found with this email")).
Proof.
  cbv zeta. unfold Users.deleteUserById.
  pose proof (deleteUser_users userId (Users.disk st)) as [Hd Hr].
  destruct (deleteUser userId (Users.disk st)) as [deleted disk'].
  cbn [fst snd Users.disk Users.demoUsersInitialized] in *.
  split; [assumption |]. split; [assumption |]. intros Hflag. split.
  - intros draws. unfold Users.getUserById. cbv zeta.
    rewrite initializeDemoUsers_again by assumption. cbn [Users.disk].
    pose proof (findUserById_spec userId disk') as [Hf _].
    destruct (findUserById userId disk') as [r disk'']. cbn [fst] in *.
    rewrite Hd in Hf. destruct r as [r|]; [| reflexivity]. exfalso.
    symmetry in Hf. apply find_some in Hf as [Hin Hid].
    apply filter_In in Hin as [_ Hk]. now rewrite Hid in Hk.
  - intros u password' draws Hnd Hin Hid Hne Hnp.
    apply authorize_not_found; try assumption. cbn [Users.disk].
    unfold stored_emails. rewrite Hd. intros Hin'.
    apply in_map_iff in Hin' as (v & Hv & Hvin).
    apply filter_In in Hvin as [Hvin Hk].
    assert (v = u).
    { unfold emails_distinct, stored_emails in Hnd.
      apply list_elem_of_In, list_elem_of_lookup in Hvin as [i Hi].
      apply list_elem_of_In, list_elem_of_lookup in Hin as [j Hj].
      assert (i = j).
      { apply (NoDup_lookup _ i j (email u) Hnd);
          rewrite list_lookup_fmap; [rewrite Hi | rewrite Hj]; cbn; congruence. }
      congruence. }
    subst v. rewrite bool_decide_eq_true_2 in Hk by assumption. discriminate.
Qed.

End Accounts.

(** *** The theorems on accounts at a toy bcrypt *)

Lemma toy_accepts_own : accepts_own ToyBcrypt.hash ToyBcrypt.compare.
Proof.
  intros password salt. unfold ToyBcrypt.compare, ToyBcrypt.hash. cbn [tl].
  now apply bool_decide_eq_true_2.
Qed.

Lemma emails_stay_distinct_witness :
  emails_distinct
    (Users.disk
       (Users.calls Z ToyBcrypt.toISOString ToyBcrypt.new_Date Z ToyBcrypt.hash
          ToyBcrypt.fresh ToyBcrypt.busy_day)).
Proof.
  apply (emails_stay_distinct Z ToyBcrypt.toISOString ToyBcrypt.new_Date Z
           ToyBcrypt.hash ToyBcrypt.fresh ToyBcrypt.busy_day).
  apply NoDup_nil. exact I.
Defined.

Lemma registered_user_can_log_in_witness :
  fst (Auth.authorize Z ToyBcrypt.toISOString ToyBcrypt.new_Date Z ToyBcrypt.hash
         ToyBcrypt.compare
         (Some {| Auth.email := Some (lit "dora@example.com");
                  Auth.password := Some (lit "secret") |})
         ToyBcrypt.demo_draws
         (snd (Users.createUser Z ToyBcrypt.toISOString Z ToyBcrypt.hash
                 (lit "dora@example.com") (lit "Dora") (lit "secret")
                 ToyBcrypt.demo_draws (ToyBcrypt.draw 4 (lit "u-dora") 4)
                 ToyBcrypt.fresh)))
  = Ok {| Auth.id := lit "u-dora"; Auth.user_email := lit "dora@example.com";
          Auth.name := lit "Dora"; Auth.publicKey := None |}
  /\ Users.user_password Z
       {| Users.user_id := lit "u-dora"; Users.user_email := lit "dora@example.com";
          Users.user_name := lit "Dora";
          Users.user_password := ToyBcrypt.hash (lit "secret") 4;
          Users.user_publicKey := None; Users.user_createdAt := 4 |}
     = ToyBcrypt.hash (lit "secret") 4
  /\ forall wrong,
       wrong <> [] -> ToyBcrypt.compare wrong (ToyBcrypt.hash (lit "secret") 4) = false ->
       fst (Auth.authorize Z ToyBcrypt.toISOString ToyBcrypt.new_Date Z ToyBcrypt.hash
              ToyBcrypt.compare
              (Some {| Auth.email := Some (lit "dora@example.com");
                       Auth.password := Some wrong |})
              ToyBcrypt.demo_draws
              (snd (Users.createUser Z ToyBcrypt.toISOString Z ToyBcrypt.hash
                      (lit "dora@example.com") (lit "Dora") (lit "secret")
                      ToyBcrypt.demo_draws (ToyBcrypt.draw 4 (lit "u-dora") 4)
                      ToyBcrypt.fresh)))
       = Throw (Error "Invalid password").
Proof.
  apply (registered_user_can_log_in Z ToyBcrypt.toISOString ToyBcrypt.new_Date Z
           ToyBcrypt.hash ToyBcrypt.compare
           (lit "dora@example.com") (lit "Dora") (lit "secret")
           ToyBcrypt.demo_draws ToyBcrypt.demo_draws
           (ToyBcrypt.draw 4 (lit "u-dora") 4) ToyBcrypt.fresh _ _ toy_accepts_own).
  - discriminate.
  - discriminate.
  - vm_compute. reflexivity.
Defined.

